(** * CE395Backend: the rate-limited, cached completion path and the webhook
      event processor.

    Shallow embedding of [src/index.js] (the queue/cache variant): the
    limiter, the cache, the event processor and the sensor, latest-reading
    and ask routes; and of the corresponding parts of
    [backend/src/index.ts].

    The JavaScript program is asynchronous; every function below is written
    in state-passing style over a [World] that holds the module-level
    variables of the program ([chain], [lastCall], [aiCache],
    [lastSensorData]), the two tables of the relational store, a logical
    clock standing for [Date.now()], and a log of the effects performed so
    far.  What the outside world answers (the completion service, the LINE
    transport, the store, the random source, how long a suspension takes) is
    read from an [Env] of oracles indexed by the position in the log. *)

From Stdlib Require Import ZArith QArith Qround Ascii String DecimalString List Bool Lia
  Lqa RelationClasses.
From stdpp Require Import gmap strings.

Local Open Scope string_scope.
Local Open Scope Z_scope.

(** ** JavaScript values *)

(** A JS number: a finite value, an infinity, or NaN.  Finite doubles are
    rationals, so [Q] covers them. *)
Inductive JSNum : Type :=
| NaN
| Inf (negative : bool)
| Fin (q : Q).

(** A value that converts to a primitive.  [JObject repr] is an array or
    object whose conversion to a primitive yields the string [repr]: an
    object parsed from JSON that has no field named [toString] gives
    ["[object Object]"], an array the texts of its elements joined by
    commas. *)
Inductive JSValue : Type :=
| JUndefined
| JNull
| JBool (b : bool)
| JNumber (n : JSNum)
| JString (s : string)
| JObject (repr : string).

(** A value of a JSON body as a handler receives it.  [Plain v] converts to
    a primitive, as [Number] and [ToString] below say.  [Opaque] is an
    object on which every conversion to a primitive throws a TypeError,
    whether a number is asked for ([Number(v)], [v > k], [Math.round(v)])
    or a string (a template literal): a parsed object with a field named
    [toString], which is no function, as in [{"toString": 1}], or an array
    that holds one.  Like any object it is truthy, it is not [undefined],
    and its [typeof] is ["object"]. *)
Inductive Json : Type :=
| Plain (v : JSValue)
| Opaque.

(** Built-ins of the JS engine that depend on Unicode tables, on the number
    grammar or on regular expressions.  The program is verified for every
    engine. *)
Record Engine : Type := {
  (** [Number(s)] on a string *)
  strToNum : string -> JSNum;
  (** [String(n)] on a number, as in a template literal *)
  numToString : JSNum -> string;
  (** [s.trim()] *)
  trim : string -> string;
  (** [s.replace(/\s+/g, " ")] *)
  collapseSpaces : string -> string;
  (** [s.replace(/<think>[\s\S]*?<\/think>/gi, "")] *)
  stripThink : string -> string;
  (** [s.replace(/<[^>]+>/g, "")] *)
  stripTags : string -> string;
  (** [s.length] *)
  strLength : string -> Z;
  (** [s.slice(0, n)] *)
  sliceTo : Z -> string -> string
}.

(** [Math.round]: the nearest integer, halves towards plus infinity. *)
Definition Math_round (x : JSNum) : JSNum :=
  match x with
  | Fin q => Fin (inject_Z (Qfloor (q + (1 # 2))))
  | other => other
  end.

(** [x > k] and [x >= k] for a number [x] and an integer literal [k]. *)
Definition num_gt (x : JSNum) (k : Z) : bool :=
  match x with
  | NaN => false
  | Inf negative => negb negative
  | Fin q => negb (Qle_bool q (inject_Z k))
  end.

Definition num_ge (x : JSNum) (k : Z) : bool :=
  match x with
  | NaN => false
  | Inf negative => negb negative
  | Fin q => Qle_bool (inject_Z k) q
  end.

(** Truthiness of a string: only the empty string is falsy. *)
Definition truthy (s : string) : bool := negb (String.eqb s "").

(** Truthiness of a number: [NaN] and the two zeros are falsy. *)
Definition num_truthy (x : JSNum) : bool :=
  match x with
  | NaN => false
  | Inf _ => true
  | Fin q => negb (Qeq_bool q 0)
  end.

(** Truthiness of a value. *)
Definition js_truthy (v : JSValue) : bool :=
  match v with
  | JUndefined | JNull => false
  | JBool b => b
  | JNumber n => num_truthy n
  | JString s => truthy s
  | JObject _ => true
  end.

(** Truthiness of a received value, and [v === undefined]. *)
Definition json_truthy (v : Json) : bool :=
  match v with
  | Plain p => js_truthy p
  | Opaque => true
  end.

Definition is_undefined (v : Json) : bool :=
  match v with
  | Plain JUndefined => true
  | _ => false
  end.

(** The primitive a received value converts to, if any. *)
Definition primitive (v : Json) : option JSValue :=
  match v with
  | Plain p => Some p
  | Opaque => None
  end.

(** [typeof v === "number" && !Number.isNaN(v)] *)
Definition is_real_number (v : JSValue) : bool :=
  match v with
  | JNumber NaN => false
  | JNumber _ => true
  | _ => false
  end.

(** [a || b] on two values that may be undefined. *)
Definition js_or (a b : option JSValue) : option JSValue :=
  match a with
  | Some v => if js_truthy v then a else b
  | None => b
  end.

(** [s.endsWith(suffix)] *)
Definition endsWith (s suffix : string) : bool :=
  let n := String.length s in
  let m := String.length suffix in
  (m <=? n)%nat && String.eqb (substring (n - m) m s) suffix.

(** [s.replace(pattern, "")] for a non-empty text [pattern]: the first
    occurrence is removed. *)
Fixpoint removeFirst (pattern s : string) : string :=
  if String.prefix pattern s
  then substring (String.length pattern)
                 (String.length s - String.length pattern) s
  else match s with
       | EmptyString => EmptyString
       | String c s' => String c (removeFirst pattern s')
       end.

Section Coercions.
Context (eng : Engine).

(** [Number(v)] *)
Definition Number (v : JSValue) : JSNum :=
  match v with
  | JUndefined => NaN
  | JNull => Fin 0
  | JBool true => Fin 1
  | JBool false => Fin 0
  | JNumber n => n
  | JString s => strToNum eng s
  | JObject repr => strToNum eng repr
  end.

(** [String(v)], the conversion a template literal applies. *)
Definition ToString (v : JSValue) : string :=
  match v with
  | JUndefined => "undefined"
  | JNull => "null"
  | JBool true => "true"
  | JBool false => "false"
  | JNumber n => numToString eng n
  | JString s => s
  | JObject repr => repr
  end.

(** [v > k], [v >= k]: the operand is converted with [Number]. *)
Definition js_gt (v : JSValue) (k : Z) : bool := num_gt (Number v) k.
Definition js_ge (v : JSValue) (k : Z) : bool := num_ge (Number v) k.

(** *** Status strings *)

Definition getLightStatus (light : JSValue) : string :=
  if js_gt light 50000 then "สว่างจัดมาก ☀️"
  else if js_gt light 10000 then "สว่างมาก🌤"
  else if js_gt light 5000 then "สว่างปานกลาง 🌥"
  else if js_gt light 1000 then "ค่อนข้างสว่าง 🌈"
  else if js_gt light 500 then "แสงพอใช้"
  else if js_gt light 100 then "แสงน้อย🌙"
  else if js_gt light 10 then "มืดสลัว 🌑"
  else "มืดมากๆ 🕳️".

Definition getTempStatus (temp : JSValue) : string :=
  if js_gt temp 35 then "อุณหภูมิร้อนมาก ⚠️"
  else if js_ge temp 30 then "อุณหภูมิร้อน 🔥"
  else if js_ge temp 25 then "อุณหภูมิอุ่นๆ 🌞"
  else if js_ge temp 20 then "อุณหภูมิพอดี 🌤"
  else "อุณหูมิเย็น ❄️".

Definition getHumidityStatus (humidity : JSValue) : string :=
  if js_gt humidity 85 then "ชื้นมาก อากาศอึดอัด 🌧️"
  else if js_gt humidity 70 then "อากาศชื้น เหนียวตัว 💦"
  else if js_gt humidity 60 then "เริ่มชื้น 🌫️"
  else if js_gt humidity 40 then "อากาศสบาย ✅"
  else if js_gt humidity 30 then "ค่อนข้างแห้ง 💨"
  else if js_gt humidity 20 then "แห้งมาก 🥵"
  else "อากาศแห้งมาก 🏜️".

Definition cleanAIResponse (text : string) : string :=
  trim eng (stripTags eng (stripThink eng text)).
End Coercions.

(** ** Configuration, errors and the environment *)

(** The values read from [process.env] and the shape of the OpenAI client.
    The numeric settings are [Number(...)] of a variable of the
    environment; this development covers the settings that are integers,
    of any sign.  (A text that is no number gives [NaN], with which the
    limiter never waits and the retry loop never gives up.) *)
Record Config : Type := {
  (** [process.env.OPENAI_API_KEY] is a non-empty string *)
  OPENAI_API_KEY : bool;
  OPENAI_RPM : Z;
  OPENAI_MAX_RETRIES : Z;
  CACHE_TTL_MS : Z;
  LINE_ACCESS_TOKEN : string;
  (** [typeof openai.responses?.create === "function"] *)
  responsesApi : bool;
  (** [typeof openai.chat?.completions?.create === "function"] *)
  chatApi : bool
}.

(** What a rejected promise carries.  For an error of the OpenAI client,
    [status] is [err.status]; its headers are represented by the number of
    milliseconds that [parseRetryAfterMs] reads off them ([None] for
    [null]): the parsing of the two header texts is not part of this model.
    [JsError] is a plain [new Error(message)]; [TypeError] is what the
    engine throws when a value cannot be converted to a primitive or when
    what is called is no function; [HttpError] is a failure of [axios];
    [StoreError] is a failure of the Prisma client. *)
Inductive Err : Type :=
| ApiError (status : option Z) (retryAfterMs : option Z)
| JsError (message : string)
| TypeError
| HttpError
| StoreError (code : string).

Definition err_status (e : Err) : option Z :=
  match e with
  | ApiError status _ => status
  | _ => None
  end.

Definition parseRetryAfterMs (e : Err) : option Z :=
  match e with
  | ApiError _ hint => hint
  | _ => None
  end.

(** [err?.status !== 429] *)
Definition not_throttled (e : Err) : bool :=
  match err_status e with
  | Some s => negb (s =? 429)
  | None => true
  end.

(** *** The retry hint, read off the headers

    [parseRetryAfterMs] of [src/index.js] on the headers themselves:
    [err?.headers] is [None] when the error has none, and otherwise gives
    the fields by name, whether it is read with [h.get(k)] or with [h[k]].
    [times] is the product of two numbers as the engine computes it. *)
Module Headers.
Section Parse.
Context (eng : Engine) (times : JSNum -> JSNum -> JSNum).

Definition parseRetryAfterMs (headers : option (gmap string JSValue))
  : option JSNum :=
  match headers with
  | None => None
  | Some h =>
      let get := fun k : string => h !! k in
      match js_or (get "retry-after-ms") (get "retry-after") with
      | None => None
      | Some raw =>
          if negb (js_truthy raw) then None
          else
            let s := trim eng (ToString eng raw) in
            if endsWith s "ms"
            then
              let n := strToNum eng (removeFirst "ms" s) in
              if num_truthy n then Some n else None
            else
              match strToNum eng s with
              | Fin sec => Some (times (Fin sec) (Fin 1000))
              | _ => None
              end
      end
  end.
End Parse.
End Headers.

(** Answer of the completion service to one request: a response whose text
    field may be missing, or a failure. *)
Inductive Completion : Type :=
| Resp (text : option string)
| Fail (e : Err).

(** The oracles.  Each is consulted at the index the effect takes in the
    log, so any behaviour of the outside world is some [Env]. *)
Record Env : Type := {
  completion : nat -> Completion;
  (** the HTTP request to the LINE platform fails *)
  lineDown : nat -> bool;
  (** the store cannot be reached *)
  storeDown : nat -> bool;
  (** [Math.floor(Math.random() * 800)] *)
  jitter : nat -> Z;
  (** milliseconds that pass while the program is suspended on an effect *)
  lag : nat -> nat
}.

(** ** Program state *)

Inductive Api : Type := Responses | ChatCompletions.

(** Effects, in the order they happen.  [FxStart] and [FxAttempt] are marks:
    [FxStart p] when a queued call has finished its rate-limit wait and is
    about to invoke [askOpenAI] for the first time, [FxAttempt n] at every
    invocation of [askOpenAI] by the retry loop. *)
Inductive Effect : Type :=
| FxStart (prompt : string)
| FxAttempt (attempt : Z)
| FxCompletion (api : Api) (prompt : string)
| FxDelay (ms : Z)
| FxWarn (attempt backoff : Z)
| FxError (what : string)
| FxLog (what : string)
| FxReply (replyToken text : string)
| FxPush (to text : string)
| FxUserFind (userId : string)
| FxUserCreate (userId : string)
| FxPendingFind (replyToken : string)
| FxPendingCreate (replyToken : string)
| FxPendingDelete (id : Z).

(** Settled state of the promise held in [chain]. *)
Inductive Promise : Type :=
| Fulfilled
| Rejected (reason : Err).

Record CacheEntry : Type := { t : Z; val : string }.

(** The object held in [lastSensorData], with its fields as the sensor
    route put them there. *)
Record Reading : Type := {
  reading_light : Json;
  reading_temp : Json;
  reading_humidity : Json
}.

(** The three values of a reading once each has been converted to a
    primitive. *)
Record SensorData : Type := { light : JSValue; temp : JSValue; humidity : JSValue }.

(** A reading whose three values convert. *)
Definition plainReading (d : SensorData) : Reading :=
  {| reading_light := Plain (light d); reading_temp := Plain (temp d);
     reading_humidity := Plain (humidity d) |}.

(** The values of a reading, when all three convert. *)
Definition primitives (stored : Reading) : option SensorData :=
  match primitive (reading_light stored), primitive (reading_temp stored),
        primitive (reading_humidity stored) with
  | Some l, Some t, Some h => Some {| light := l; temp := t; humidity := h |}
  | _, _, _ => None
  end.

Record PendingReply : Type := {
  id : Z;
  replyToken : string;
  userId : string;
  messageType : string;
  text : string
}.

Record World : Type := mkWorld {
  (** [Date.now()] *)
  clock : Z;
  lastCall : Z;
  chain : Promise;
  aiCache : gmap string CacheEntry;
  lastSensorData : option Reading;
  (** table User *)
  users : list string;
  (** table PendingReply, and the next value of its serial id *)
  pendingReplies : list PendingReply;
  nextId : Z;
  (** effects performed so far with the time of each, newest first *)
  log : list (Z * Effect)
}.

Definition set_clock (c : Z) (w : World) : World :=
  mkWorld c (lastCall w) (chain w) (aiCache w) (lastSensorData w)
          (users w) (pendingReplies w) (nextId w) (log w).
Definition set_lastCall (l : Z) (w : World) : World :=
  mkWorld (clock w) l (chain w) (aiCache w) (lastSensorData w)
          (users w) (pendingReplies w) (nextId w) (log w).
Definition set_chain (p : Promise) (w : World) : World :=
  mkWorld (clock w) (lastCall w) p (aiCache w) (lastSensorData w)
          (users w) (pendingReplies w) (nextId w) (log w).
Definition set_aiCache (c : gmap string CacheEntry) (w : World) : World :=
  mkWorld (clock w) (lastCall w) (chain w) c (lastSensorData w)
          (users w) (pendingReplies w) (nextId w) (log w).
Definition set_lastSensorData (d : option Reading) (w : World) : World :=
  mkWorld (clock w) (lastCall w) (chain w) (aiCache w) d
          (users w) (pendingReplies w) (nextId w) (log w).
Definition set_users (u : list string) (w : World) : World :=
  mkWorld (clock w) (lastCall w) (chain w) (aiCache w) (lastSensorData w)
          u (pendingReplies w) (nextId w) (log w).
Definition set_pending (p : list PendingReply) (n : Z) (w : World) : World :=
  mkWorld (clock w) (lastCall w) (chain w) (aiCache w) (lastSensorData w)
          (users w) p n (log w).
Definition add_log (e : Effect) (w : World) : World :=
  mkWorld (clock w) (lastCall w) (chain w) (aiCache w) (lastSensorData w)
          (users w) (pendingReplies w) (nextId w) ((clock w, e) :: log w).

(** The effects in the order they happened. *)
Definition history (w : World) : list (Z * Effect) := rev (log w).

(** ** The monad of the program: state and exceptions *)

Inductive Result (A : Type) : Type :=
| Return (a : A)
| Throw (e : Err).
Arguments Return {A} a.
Arguments Throw {A} e.

Definition M (A : Type) : Type := World -> Result A * World.

Definition ret {A} (a : A) : M A := fun w => (Return a, w).
Definition throw {A} (e : Err) : M A := fun w => (Throw e, w).
Definition bind {A B} (c : M A) (k : A -> M B) : M B :=
  fun w => match c w with
           | (Return a, w') => k a w'
           | (Throw e, w') => (Throw e, w')
           end.
(** [try { c } catch (err) { h err }] *)
Definition try_catch {A} (c : M A) (h : Err -> M A) : M A :=
  fun w => match c w with
           | (Return a, w') => (Return a, w')
           | (Throw e, w') => h e w'
           end.
Definition gets {A} (f : World -> A) : M A := fun w => (Return (f w), w).
Definition modify (f : World -> World) : M unit := fun w => (Return tt, f w).

Notation "x <- c ;; k" := (bind c (fun x => k))
  (at level 100, c at next level, k at level 200, right associativity).

(** The conversion of a received value to a primitive, where the program
    compares it with a number or puts it into a template. *)
Definition toPrimitive (v : Json) : M JSValue :=
  match primitive v with
  | Some p => ret p
  | None => throw TypeError
  end.

(** The conversions of the three values of a reading, in the order light,
    temperature, humidity, which is the order of their first use wherever
    the program uses a reading. *)
Definition convert (stored : Reading) : M SensorData :=
  l <- toPrimitive (reading_light stored) ;;
  t <- toPrimitive (reading_temp stored) ;;
  h <- toPrimitive (reading_humidity stored) ;;
  ret {| light := l; temp := t; humidity := h |}.

(** One character strings used by the templates. *)
Definition nl : string := String "010"%char EmptyString.
Definition dquote : string := String "034"%char EmptyString.

(** [Math.ceil(a / b)] for a positive divisor. *)
Definition ceil_quot (a b : Z) : Z := - ((- a) / b).

(** Duration of a timer: Node sets a delay below 1 or above 2^31 - 1 to 1. *)
Definition timerMs (ms : Z) : Z :=
  if (1 <=? ms) && (ms <=? 2147483647) then ms else 1.

(** An inbound chat event that passed the filter of the webhook route: it has
    a reply token and a user id.  [message_type] is [event.message.type] when
    there is one; a text message carries its text, a string.  The events
    whose text is no string are those of [Inbound] below. *)
Record ChatEvent : Type := {
  source_userId : string;
  event_replyToken : string;
  message_type : option string;
  message_text : string
}.

(** Body of a request to the sensor route after JSON parsing; a field that is
    absent is [Plain JUndefined]. *)
Record SensorBody : Type := {
  body_light : Json;
  body_temp : Json;
  body_humidity : Json
}.

(** What a route answers: the HTTP status and the message. *)
Record Response : Type := { http_status : Z; message : string }.

(** What the latest-reading route passes to [res.json]: the reading with
    status 200, or a status and a message.  ([res.json] sends the JSON
    text of it, in which [NaN] and the infinities are [null].) *)
Inductive LatestResponse : Type :=
| LatestFound (d : Reading)
| LatestMissing (status : Z) (message : string).

(** Body of a request to the ask route of [src/index.js] after JSON
    parsing.  The route looks at the type of each field only and converts
    none that is an object, so [JObject] stands for any object here. *)
Record AskBody : Type := {
  ask_question : JSValue;
  ask_light : JSValue;
  ask_temp : JSValue;
  ask_humidity : JSValue
}.

(** What the ask routes answer: [AskOk] is status 200 with the answer and,
    in [src/index.js], its [meta.source]; [AskError] is a status with its
    [error] text and, for the [detail] that [src/index.js] adds to a status
    500, the error the text is taken from. *)
Inductive AskResponse : Type :=
| AskOk (answer : string) (source : option string)
| AskError (status : Z) (error : string) (detail : option Err).

Section Program.
Context (eng : Engine) (cfg : Config) (env : Env).

(** *** Primitive effects *)

(** An awaited request to the outside: it is logged with the time it is
    issued, time passes, and the index for the oracles is returned. *)
Definition request (e : Effect) : M nat :=
  fun w =>
    let n := length (log w) in
    (Return n, set_clock (clock w + Z.of_nat (lag env n)) (add_log e w)).

(** A synchronous effect or mark. *)
Definition note (e : Effect) : M unit := modify (add_log e).

(** [await delay(ms)] *)
Definition delay (ms : Z) : M unit :=
  fun w =>
    let n := length (log w) in
    (Return tt,
     set_clock (clock w + timerMs ms + Z.of_nat (lag env n))
               (add_log (FxDelay ms) w)).

Definition Date_now : M Z := gets clock.

(** *** OpenAI low-level *)

Definition noKeyText : string := "❌ ยังไม่ได้ตั้งค่า OPENAI_API_KEY".
Definition noReplyText : string := "ไม่มีข้อความตอบกลับ".

(** [openai.responses.create] / [openai.chat.completions.create]: the text
    field of the response, which may be missing. *)
Definition create (api : Api) (prompt : string) : M (option string) :=
  n <- request (FxCompletion api prompt) ;;
  match completion env n with
  | Resp text => ret text
  | Fail e => throw e
  end.

Definition askOpenAI (prompt : string) : M string :=
  if negb (OPENAI_API_KEY cfg) then ret noKeyText
  else
    try_catch
      (if responsesApi cfg then
         output_text <- create Responses prompt ;;
         ret (default noReplyText output_text)
       else throw (JsError "Responses API not available"))
      (fun e1 =>
         try_catch
           (if chatApi cfg then
              content <- create ChatCompletions prompt ;;
              ret (default noReplyText content)
            else throw e1)
           (fun e2 => throw e2)).

(** *** Rate-limit wrapper *)

(** [Math.ceil(60000 / Math.max(1, OPENAI_RPM))] *)
Definition minGapMs : Z := ceil_quot 60000 (Z.max 1 (OPENAI_RPM cfg)).

(** [parseRetryAfterMs(err) ?? Math.min(30000, 2 ** attempt * 1000 + jitter)] *)
Definition backoffMs (err : Err) (attempt : Z) (rnd : Z) : Z :=
  match parseRetryAfterMs err with
  | Some ms => ms
  | None => Z.min 30000 (2 ^ attempt * 1000 + rnd)
  end.

(** The [for (;;)] loop of [safeAskOpenAI].  Every iteration but the last
    increments [attempt], and none starts with [attempt] above
    [OPENAI_MAX_RETRIES], so [fuel] bounds the iterations that remain; see
    [retryLoop_fuel]. *)
Fixpoint retryLoop (prompt : string) (fuel : nat) (attempt : Z) : M string :=
  try_catch
    (_ <- note (FxAttempt attempt) ;;
     out <- askOpenAI prompt ;;
     now <- Date_now ;;
     _ <- modify (set_lastCall now) ;;
     ret out)
    (fun err =>
       if not_throttled err || (OPENAI_MAX_RETRIES cfg <=? attempt)
       then throw err
       else
         match fuel with
         | O => throw err
         | S fuel' =>
             let attempt := attempt + 1 in
             rnd <- gets (fun w => jitter env (length (log w))) ;;
             let backoff := backoffMs err attempt rnd in
             _ <- note (FxWarn attempt backoff) ;;
             _ <- delay backoff ;;
             retryLoop prompt fuel' attempt
         end).

(** [chain = chain.then(body)]: on a fulfilled [chain] the body runs and
    the promise it settles becomes the new [chain]; on a rejected [chain]
    the body is not called and the new promise is rejected with the same
    reason. *)
Definition chain_then {A} (body : M A) : M A :=
  fun w =>
    match chain w with
    | Rejected reason => (Throw reason, w)
    | Fulfilled =>
        match body w with
        | (Return out, w') => (Return out, set_chain Fulfilled w')
        | (Throw err, w') => (Throw err, set_chain (Rejected err) w')
        end
    end.

Definition safeAskOpenAI (prompt : string) : M string :=
  chain_then
    (now <- Date_now ;;
     last <- gets lastCall ;;
     let wait := Z.max 0 (last + minGapMs - now) in
     _ <- (if 0 <? wait then delay wait else ret tt) ;;
     _ <- note (FxStart prompt) ;;
     retryLoop prompt (Z.to_nat (OPENAI_MAX_RETRIES cfg)) 0).

(** *** In-memory cache *)

Definition cacheKey (q : string) (l t h : JSValue) : string :=
  q ++ "|" ++ numToString eng (Math_round (Number eng l))
    ++ "|" ++ numToString eng (Math_round (Number eng t))
    ++ "|" ++ numToString eng (Math_round (Number eng h)).

Definition getCache (k : string) : M (option string) :=
  fun w =>
    match aiCache w !! k with
    | None => (Return None, w)
    | Some v =>
        if CACHE_TTL_MS cfg <? clock w - t v
        then (Return None, set_aiCache (delete k (aiCache w)) w)
        else (Return (Some (val v)), w)
    end.

Definition setCache (k : string) (out : string) : M unit :=
  fun w =>
    (Return tt, set_aiCache (<[k := {| t := clock w; val := out |}]> (aiCache w)) w).

(** *** High-level helper *)

Definition sensorPrompt (question : string) (l t h : JSValue) : string :=
  trim eng
    (nl ++ "ข้อมูลเซ็นเซอร์:" ++ nl
        ++ "- ค่าแสง: " ++ ToString eng l ++ " lux" ++ nl
        ++ "- อุณหภูมิ: " ++ ToString eng t ++ " °C" ++ nl
        ++ "- ความชื้น: " ++ ToString eng h ++ " %" ++ nl
        ++ "คำถาม: " ++ dquote ++ question ++ dquote ++ nl
        ++ "โปรดตอบเป็นภาษาไทยแบบสั้น กระชับ ชัดเจน" ++ nl ++ "  ").

Definition answerWithSensorAI (question : string) (l t h : JSValue) : M string :=
  let prompt := sensorPrompt question l t h in
  let key := cacheKey question l t h in
  let miss := (out <- safeAskOpenAI prompt ;;
               _ <- setCache key out ;;
               ret out) in
  cached <- getCache key ;;
  match cached with
  | Some c => if truthy c then ret c else miss
  | None => miss
  end.

(** *** The relational store *)

(** A request to the store: it fails when the store cannot be reached. *)
Definition store_request (e : Effect) : M unit :=
  n <- request e ;;
  if storeDown env n then throw (StoreError "unreachable") else ret tt.

Definition find_user (uid : string) (w : World) : bool :=
  existsb (String.eqb uid) (users w).

Definition find_by_token (token : string) (rs : list PendingReply)
  : option PendingReply :=
  find (fun r => String.eqb (replyToken r) token) rs.

Definition has_id (i : Z) (rs : list PendingReply) : bool :=
  existsb (fun r => id r =? i) rs.

(** [prisma.user.findUnique({ where: { userId } })] *)
Definition user_findUnique (uid : string) : M bool :=
  _ <- store_request (FxUserFind uid) ;;
  gets (find_user uid).

(** [prisma.user.create({ data: { userId } })]; [userId] is unique. *)
Definition user_create (uid : string) : M unit :=
  _ <- store_request (FxUserCreate uid) ;;
  known <- gets (find_user uid) ;;
  if known then throw (StoreError "P2002")
  else modify (fun w => set_users (users w ++ [uid])%list w).

(** [prisma.pendingReply.findUnique({ where: { replyToken } })] *)
Definition pendingReply_findUnique (token : string) : M (option PendingReply) :=
  _ <- store_request (FxPendingFind token) ;;
  gets (fun w => find_by_token token (pendingReplies w)).

(** [prisma.pendingReply.create({ data })]: the unique index on
    [replyToken] refuses a second record for a token. *)
Definition pendingReply_create (token uid mtype txt : string) : M PendingReply :=
  _ <- store_request (FxPendingCreate token) ;;
  existing <- gets (fun w => find_by_token token (pendingReplies w)) ;;
  match existing with
  | Some _ => throw (StoreError "P2002")
  | None =>
      fun w =>
        let r := {| id := nextId w; replyToken := token; userId := uid;
                    messageType := mtype; text := txt |} in
        (Return r, set_pending (pendingReplies w ++ [r])%list (nextId w + 1) w)
  end.

(** [prisma.pendingReply.delete({ where: { id } })]: deleting a record
    that does not exist is an error. *)
Definition pendingReply_delete (i : Z) : M unit :=
  _ <- store_request (FxPendingDelete i) ;;
  present <- gets (fun w => has_id i (pendingReplies w)) ;;
  if present
  then modify (fun w => set_pending
                 (List.filter (fun r => negb (id r =? i)) (pendingReplies w))
                 (nextId w) w)
  else throw (StoreError "P2025").

(** *** LINE reply *)

(** [axios.post] to the LINE platform. *)
Definition axios_post (e : Effect) : M unit :=
  n <- request e ;;
  if lineDown env n then throw HttpError else ret tt.

(** [message.length > n ? message.slice(0, n) + marker : message] *)
Definition clipTo (n : Z) (message : string) : string :=
  if n <? strLength eng message
  then sliceTo eng n message ++ nl ++ "...(ตัดข้อความ)"
  else message.

Definition replyToUser (token message : string) : M unit :=
  try_catch
    (let trimmedMessage := clipTo 1000 message in
     axios_post (FxReply token trimmedMessage))
    (fun err => note (FxError "LINE reply error")).

Definition deletePendingReply (i : Z) : M unit :=
  try_catch
    (pendingReply_delete i)
    (fun err => note (FxError "PendingReply delete failed")).

(** *** Webhook *)

Definition noSensorText : string := "❌ ยังไม่มีข้อมูลจากเซ็นเซอร์".
Definition askingText : string := "⏳ กำลังถาม AI...".
Definition emptyAnswerText : string :=
  "❌ คำตอบจาก AI ว่างเปล่า ไม่สามารถส่งข้อความได้".

Definition presetQuestions : list string :=
  [ "สภาพอากาศตอนนี้เป็นอย่างไร";
    "ตอนนี้ควรตากผ้าไหม";
    "ตอนนี้ควรพกร่มออกจากบ้านไหม";
    "ความเข้มของแสงตอนนี้เป็นอย่างไร";
    "ความชื้นตอนนี้เป็นอย่างไร" ].

Definition shortMsg (d : SensorData) : string :=
  "📊 สภาพอากาศล่าสุด :" ++ nl
    ++ "- ค่าแสง: " ++ ToString eng (light d) ++ " lux ("
    ++ getLightStatus eng (light d) ++ ")" ++ nl
    ++ "- อุณหภูมิ: " ++ ToString eng (temp d) ++ " °C ("
    ++ getTempStatus eng (temp d) ++ ")" ++ nl
    ++ "- ความชื้น: " ++ ToString eng (humidity d) ++ " % ("
    ++ getHumidityStatus eng (humidity d) ++ ")".

(** [event?.message?.type || "unknown"] *)
Definition eventMessageType (ev : ChatEvent) : string :=
  match message_type ev with
  | Some ty => if truthy ty then ty else "unknown"
  | None => "unknown"
  end.

Definition eventText (ev : ChatEvent) : string :=
  if String.eqb (eventMessageType ev) "text"
  then trim eng (message_text ev)
  else EmptyString.

Definition normalizeText (txt : string) : string :=
  trim eng (collapseSpaces eng txt).

Definition aiAnswerText (normalizedText finalText : string) : string :=
  normalizedText ++ "?" ++ nl ++ "- คำตอบ จาก AI : "
                 ++ cleanAIResponse eng finalText.

(** [processMessageEvent] from its first request to the store on, for an
    event whose type and text have been read (lines 220 to 223); the status
    texts of lines 242 to 244 are the first use of the three values of the
    reading. *)
Definition processMessageEvent (event : ChatEvent) : M unit :=
  let uid := source_userId event in
  let token := event_replyToken event in
  let mtype := eventMessageType event in
  let txt := eventText event in
  existingUser <- user_findUnique uid ;;
  _ <- (if existingUser then ret tt else user_create uid) ;;
  exists_ <- pendingReply_findUnique token ;;
  match exists_ with
  | Some _ => ret tt
  | None =>
      created <- pendingReply_create token uid mtype
                   (if truthy txt then txt else "(ไม่มีข้อความ)") ;;
      sensor <- gets lastSensorData ;;
      match sensor with
      | None =>
          _ <- replyToUser token noSensorText ;;
          deletePendingReply (id created)
      | Some stored =>
          d <- convert stored ;;
          let normalizedText := normalizeText txt in
          if negb (existsb (String.eqb normalizedText) presetQuestions)
          then
            _ <- replyToUser token (shortMsg d) ;;
            deletePendingReply (id created)
          else
            _ <- replyToUser token askingText ;;
            aiText <- answerWithSensorAI normalizedText
                        (light d) (temp d) (humidity d) ;;
            let finalText := trim eng aiText in
            if negb (truthy finalText)
            then
              _ <- replyToUser token emptyAnswerText ;;
              deletePendingReply (id created)
            else
              _ <- axios_post (FxPush uid (aiAnswerText normalizedText finalText)) ;;
              deletePendingReply (id created)
      end
  end.

(** *** Sensor data *)

(** [app.post("/sensor-data", ...)] of [src/index.js]: the values are
    stored as they were received. *)
Definition postSensorData (body : SensorBody) : M Response :=
  if negb (is_undefined (body_light body))
     && negb (is_undefined (body_temp body))
     && negb (is_undefined (body_humidity body))
  then
    _ <- modify (set_lastSensorData
                   (Some {| reading_light := body_light body;
                            reading_temp := body_temp body;
                            reading_humidity := body_humidity body |})) ;;
    ret {| http_status := 200; message := "✅ รับข้อมูลแล้ว" |}
  else ret {| http_status := 400; message := "❌ ข้อมูลไม่ครบ" |}.

(** *** Latest sensor *)

(** [app.get("/latest", ...)]: the reading as it is stored is handed to
    [res.json], or status 404 is answered. *)
Definition getLatest (w : World) : LatestResponse :=
  match lastSensorData w with
  | Some d => LatestFound d
  | None => LatestMissing 404 "❌ ไม่มีข้อมูลเซ็นเซอร์"
  end.

(** *** Ask AI *)

Definition fallbackText (l t h : JSValue) : string :=
  "สรุปจากค่าปัจจุบัน" ++ nl
    ++ "• แสง: " ++ ToString eng l ++ " lux (" ++ getLightStatus eng l ++ ")" ++ nl
    ++ "• อุณหภูมิ: " ++ ToString eng t ++ " °C (" ++ getTempStatus eng t ++ ")" ++ nl
    ++ "• ความชื้น: " ++ ToString eng h ++ " % (" ++ getHumidityStatus eng h ++ ")" ++ nl
    ++ "คำแนะนำเบื้องต้น: หากอากาศร้อน/ชื้นมากให้ดื่มน้ำและพักในที่อากาศถ่ายเท".

(** The inner [try] of the route: the orchestrator, and the summary of the
    readings when it fails.  The prompt of the orchestrator and the summary
    are templates, each the first use of the three values in its block. *)
Definition answerOrFallback (question : string) (readings : Reading)
  : M AskResponse :=
  try_catch
    (d <- convert readings ;;
     ai <- answerWithSensorAI question (light d) (temp d) (humidity d) ;;
     ret (AskOk (cleanAIResponse eng ai) (Some "openai")))
    (fun aiErr =>
       _ <- note (FxError "OpenAI error") ;;
       d <- convert readings ;;
       ret (AskOk (fallbackText (light d) (temp d) (humidity d))
                  (Some "fallback"))).

(** [app.post("/ask-ai", ...)] *)
Definition askAi (body : AskBody) : M AskResponse :=
  try_catch
    (match ask_question body with
     | JString question =>
         if negb (truthy question)
         then ret (AskError 400 "❌ missing question" None)
         else if forallb is_real_number
                   [ask_light body; ask_temp body; ask_humidity body]
         then answerOrFallback question
                {| reading_light := Plain (ask_light body);
                   reading_temp := Plain (ask_temp body);
                   reading_humidity := Plain (ask_humidity body) |}
         else
           sensor <- gets lastSensorData ;;
           match sensor with
           | Some stored => answerOrFallback question stored
           | None =>
               ret (AskError 400
                      "❌ ยังไม่มีข้อมูลเซ็นเซอร์ (ไม่พบทั้งใน body และ server)" None)
           end
     | _ => ret (AskError 400 "❌ missing question" None)
     end)
    (fun err =>
       _ <- note (FxError "ask-ai fatal") ;;
       ret (AskError 500 "ask-ai failed" (Some err))).

(** *** Auto report *)

(** The period of the report timer, [Math.max(5 * 60 * 1000, minGapMs)]. *)
Definition autoReportIntervalMs : Z := Z.max (5 * 60 * 1000) minGapMs.
End Program.

(** ** The earlier variant, [backend/src/index.ts]

    No queue and no cache: the webhook route handles the events of a batch
    one after the other and calls the completion service directly. *)
Module IndexTs.
Section Program.
Context (eng : Engine) (cfg : Config) (env : Env).

Definition askOpenAI (prompt : string) : M string :=
  if negb (OPENAI_API_KEY cfg) then ret (noKeyText)
  else
    output_text <- create env Responses prompt ;;
    ret (default noReplyText output_text).

Definition answerWithSensorAI (question : string) (l t h : JSValue) : M string :=
  askOpenAI (sensorPrompt eng question l t h).

Definition replyToUserAndDelete (i : Z) (token message : string) : M unit :=
  try_catch
    (let txt := clipTo eng 4000 message in
     _ <- (if negb (truthy (LINE_ACCESS_TOKEN cfg))
           then throw (JsError "LINE_ACCESS_TOKEN is missing")
           else ret tt) ;;
     _ <- axios_post env (FxReply token txt) ;;
     _ <- pendingReply_delete env i ;;
     note (FxLog "LINE reply sent"))
    (fun err => note (FxError "LINE reply error")).

(** [backend/src/index.ts] has its own texts for the light. *)
Definition getLightStatus (light : JSValue) : string :=
  if js_gt eng light 50000 then "แดดจ้า ☀️"
  else if js_gt eng light 10000 then "กลางแจ้ง มีเมฆ หรือแดดอ่อน 🌤"
  else if js_gt eng light 5000 then "ฟ้าครึ้ม 🌥"
  else if js_gt eng light 1000 then "ห้องที่มีแสงธรรมชาติ 🌈"
  else if js_gt eng light 500 then "ออฟฟิศ หรือร้านค้า 💡"
  else if js_gt eng light 100 then "ห้องนั่งเล่น ไฟบ้าน 🌙"
  else if js_gt eng light 10 then "ไฟสลัว 🌑"
  else "มืดมากๆ 🕳️".

Definition statusText (d : SensorData) : string :=
  "📊 สภาพอากาศล่าสุด :" ++ nl
    ++ "💡 ค่าแสง: " ++ ToString eng (light d) ++ " lux ("
    ++ getLightStatus (light d) ++ ")" ++ nl
    ++ "🌡️ อุณหภูมิ: " ++ ToString eng (temp d) ++ " °C ("
    ++ getTempStatus eng (temp d) ++ ")" ++ nl
    ++ "💧 ความชื้น: " ++ ToString eng (humidity d) ++ " % ("
    ++ getHumidityStatus eng (humidity d) ++ ")".

(** Body of the [for (const event of events)] loop of the webhook route.
    An absent [userId] or [replyToken] is the empty string; with an absent
    [message.type] the Prisma client refuses the data of the new record
    before any request to the store. *)
Definition webhookEvent (event : ChatEvent) : M unit :=
  let uid := source_userId event in
  let token := event_replyToken event in
  let txt := trim eng (message_text event) in
  if negb (truthy uid) || negb (truthy token) then ret tt
  else
    existingUser <- user_findUnique env uid ;;
    _ <- (if existingUser then ret tt else user_create env uid) ;;
    exists_ <- pendingReply_findUnique env token ;;
    match exists_ with
    | Some _ => ret tt
    | None =>
        created <- match message_type event with
                   | Some mtype => pendingReply_create env token uid mtype txt
                   | None => throw (StoreError "validation")
                   end ;;
        sensor <- gets lastSensorData ;;
        match sensor with
        | None => replyToUserAndDelete (id created) token noSensorText
        | Some stored =>
            d <- convert stored ;;
            replyText <-
              (if match message_type event with
                  | Some mtype => String.eqb mtype "text"
                  | None => false
                  end
               then
                 ai <- answerWithSensorAI txt (light d) (temp d) (humidity d) ;;
                 ret (statusText d ++ nl ++ "🤖 AI: " ++ cleanAIResponse eng ai)
               else ret (statusText d)) ;;
            replyToUserAndDelete (id created) token replyText
        end
    end.

(** [app.post("/webhook", ...)]: the events in order, then status 200. *)
Fixpoint webhook (events : list ChatEvent) : M Z :=
  match events with
  | [] => ret 200
  | event :: rest => _ <- webhookEvent event ;; webhook rest
  end.

(** [app.post("/sensor-data", ...)]: the values are stored after
    [Number], applied to the light, the temperature and the humidity in
    this order before anything is stored.  What the handler throws is
    answered by Express with status 500. *)
Definition postSensorData (body : SensorBody) : M Response :=
  if forallb (fun v => negb (is_undefined v))
             [body_light body; body_temp body; body_humidity body]
  then
    l <- toPrimitive (body_light body) ;;
    t <- toPrimitive (body_temp body) ;;
    h <- toPrimitive (body_humidity body) ;;
    _ <- modify (set_lastSensorData
                   (Some {| reading_light := Plain (JNumber (Number eng l));
                            reading_temp := Plain (JNumber (Number eng t));
                            reading_humidity := Plain (JNumber (Number eng h)) |})) ;;
    ret {| http_status := 200; message := "✅ รับข้อมูลแล้ว" |}
  else ret {| http_status := 400; message := "❌ ข้อมูลไม่ครบ" |}.

(** [app.post("/ask-ai", ...)]: the reading is looked at before the
    question, and the question enters the prompt through a template, after
    the three values of the reading. *)
Definition askAi (question : Json) : M AskResponse :=
  try_catch
    (sensor <- gets lastSensorData ;;
     match sensor with
     | None => ret (AskError 400 "❌ ยังไม่มีข้อมูลเซ็นเซอร์" None)
     | Some stored =>
         if negb (json_truthy question)
         then ret (AskError 400 "❌ missing question" None)
         else
           d <- convert stored ;;
           q <- toPrimitive question ;;
           answer <- answerWithSensorAI (ToString eng q)
                       (light d) (temp d) (humidity d) ;;
           ret (AskOk (cleanAIResponse eng answer) None)
     end)
    (fun err =>
       _ <- note (FxError "ask-ai error") ;;
       ret (AskError 500 "ask-ai failed" None)).
End Program.
End IndexTs.

(** ** The event processor on an event as it is received

    Lines 220 to 223 of [src/index.js] read the user, the reply token, the
    type and the text off the event before anything else happens: on a
    text message whose text is no string, [event.message.text.trim()]
    throws. *)
Module Inbound.
(** An event that passed the filter of the webhook route, as it is
    received: [in_text] is [event.message.text], [Plain JUndefined] when
    the message has none; [in_type] is [event.message.type], a string when
    there is one. *)
Record Event : Type := {
  in_userId : string;
  in_replyToken : string;
  in_type : option string;
  in_text : Json
}.

Section Program.
Context (eng : Engine) (cfg : Config) (env : Env).

(** The event with [txt] for its text. *)
Definition withText (event : Event) (txt : string) : ChatEvent :=
  {| source_userId := in_userId event;
     event_replyToken := in_replyToken event;
     message_type := in_type event;
     message_text := txt |}.

(** [messageType === "text" ? event.message.text.trim() : ""]: only a
    string has a method [trim]. *)
Definition readEvent (event : Event) : M ChatEvent :=
  if String.eqb (eventMessageType (withText event EmptyString)) "text"
  then match in_text event with
       | Plain (JString s) => ret (withText event s)
       | _ => throw TypeError
       end
  else ret (withText event EmptyString).

Definition processMessageEvent (event : Event) : M unit :=
  ev <- readEvent event ;;
  processMessageEvent eng cfg env ev.
End Program.
End Inbound.

(** ** Observations on the log *)

Definition is_start (e : Effect) : bool :=
  match e with FxStart _ => true | _ => false end.
Definition is_attempt (e : Effect) : bool :=
  match e with FxAttempt _ => true | _ => false end.
Definition is_completion (e : Effect) : bool :=
  match e with FxCompletion _ _ => true | _ => false end.
Definition is_reply (e : Effect) : bool :=
  match e with FxReply _ _ => true | _ => false end.
Definition is_push (e : Effect) : bool :=
  match e with FxPush _ _ => true | _ => false end.
Definition is_create (e : Effect) : bool :=
  match e with FxPendingCreate _ => true | _ => false end.
Definition is_delete (e : Effect) : bool :=
  match e with FxPendingDelete _ => true | _ => false end.

(** Number of logged effects of one kind. *)
Definition count_fx (p : Effect -> bool) (w : World) : nat :=
  length (List.filter (fun x => p (snd x)) (log w)).

(** Invocations of [askOpenAI] by the retry loop so far. *)
Definition attempts (w : World) : nat := count_fx is_attempt w.
(** Requests sent to the completion service so far. *)
Definition completions (w : World) : nat := count_fx is_completion w.
(** Calls of [prisma.pendingReply.delete] so far. *)
Definition deletes (w : World) : nat := count_fx is_delete w.

(** [w'] is [w] after more effects, all of kind [p]. *)
Definition grows (p : Effect -> bool) (w w' : World) : Prop :=
  exists new, log w' = (new ++ log w)%list
              /\ forallb (fun x => p (snd x)) new = true.

(** [w'] differs from [w] in the clock and the log only. *)
Definition only_time_passed (w w' : World) : Prop :=
  w' = mkWorld (clock w') (lastCall w) (chain w) (aiCache w)
               (lastSensorData w) (users w) (pendingReplies w) (nextId w)
               (log w').


(** Every run of [c] relates the world before and the world after by [R]. *)
Definition post {A} (c : M A) (R : World -> World -> Prop) : Prop :=
  forall w r w', c w = (r, w') -> R w w'.

(** Effects of the retry loop, of a queued call, of the store, of the LINE
    transport. *)
Definition loop_fx (e : Effect) : bool :=
  match e with
  | FxAttempt _ | FxCompletion _ _ | FxDelay _ | FxWarn _ _ => true
  | _ => false
  end.
Definition ai_fx (e : Effect) : bool := is_start e || loop_fx e.
Definition user_fx (e : Effect) : bool :=
  match e with
  | FxUserFind _ | FxUserCreate _ => true
  | _ => false
  end.

(** [w'] differs from [w] in the clock and the log only, time did not run
    backwards, and the new effects are of kind [p]. *)
Definition quiet (p : Effect -> bool) (w w' : World) : Prop :=
  only_time_passed w w' /\ clock w <= clock w' /\ grows p w w'.

(** The cache, the last reading and the store are as before. *)
Definition limiter_only (w w' : World) : Prop :=
  w' = mkWorld (clock w') (lastCall w') (chain w') (aiCache w)
               (lastSensorData w) (users w) (pendingReplies w) (nextId w)
               (log w').

Definition limiter_step (p : Effect -> bool) (w w' : World) : Prop :=
  limiter_only w w' /\ clock w <= clock w' /\ grows p w w'.

(** The last reading and the store are as before. *)
Definition store_untouched (w w' : World) : Prop :=
  w' = mkWorld (clock w') (lastCall w') (chain w') (aiCache w')
               (lastSensorData w) (users w) (pendingReplies w) (nextId w)
               (log w').

Definition ai_step (w w' : World) : Prop :=
  store_untouched w w' /\ clock w <= clock w' /\ grows ai_fx w w'.

(** *** Vocabulary of the retry policy *)

(** The world in which attempt [n] invokes [askOpenAI]. *)
Definition beginAttempt (n : Z) (w : World) : World := add_log (FxAttempt n) w.

(** The world after the warning and the back-off that follow a throttled
    attempt, [attempt] being the incremented counter. *)
Definition afterBackoff (env : Env) (err : Err) (attempt : Z) (w : World) : World :=
  let backoff := backoffMs err attempt (jitter env (length (log w))) in
  snd (delay env backoff (add_log (FxWarn attempt backoff) w)).

(** What one run of the retry loop may change: the clock, the log and
    [lastCall], which stays in the past. *)
Definition loop_step (w w' : World) : Prop :=
  limiter_step loop_fx w w'
  /\ chain w' = chain w
  /\ (lastCall w <= clock w -> lastCall w' <= clock w').

(** *** Vocabulary of the queue *)

(** The world in which a queued call starts: the rate-limit wait is over
    and the start is marked. *)
Definition readyWorld (cfg : Config) (env : Env) (prompt : string) (w : World)
  : World :=
  let wait := Z.max 0 (lastCall w + minGapMs cfg - clock w) in
  add_log (FxStart prompt) (if 0 <? wait then snd (delay env wait w) else w).

(** The calls that left the rate-limit wait, oldest first, each with the
    time it started. *)
Definition start_of (x : Z * Effect) : option (Z * string) :=
  match snd x with
  | FxStart p => Some (fst x, p)
  | _ => None
  end.
Definition starts (w : World) : list (Z * string) := omap start_of (history w).

(** Any two starts are at least [g] milliseconds apart, the later one
    later. *)
Definition spaced (g : Z) (l : list (Z * string)) : Prop :=
  forall (i j : nat) t1 p1 t2 p2,
    (i < j)%nat -> l !! i = Some (t1, p1) -> l !! j = Some (t2, p2) ->
    t1 + g <= t2.

(** A client that submits prompts one after the other, letting [gap]
    milliseconds pass between the end of a call and the next submission.
    A call submitted while an earlier one is pending is chained to it and
    starts when that one settles, which is the case [gap = 0]; so a burst is
    a run of zeros.  Every caller gets the outcome of its own promise. *)
Fixpoint submitAll (cfg : Config) (env : Env) (calls : list (nat * string))
                   (w : World) : list (Result string) * World :=
  match calls with
  | [] => ([], w)
  | (gap, prompt) :: rest =>
      let (r, w1) :=
        safeAskOpenAI cfg env prompt (set_clock (clock w + Z.of_nat gap) w) in
      let (rs, w2) := submitAll cfg env rest w1 in
      (r :: rs, w2)
  end.

(** What the queue maintains for a gap of [g] milliseconds: [lastCall] is in
    the past, no call started after [lastCall] while the chain is healthy,
    and the starts so far are spaced. *)
Definition limiter_inv (g : Z) (w : World) : Prop :=
  lastCall w <= clock w
  /\ (chain w = Fulfilled -> forall t p, In (t, p) (starts w) -> t <= lastCall w)
  /\ spaced g (starts w).

(** The state of the process once the module is loaded at time [now]. *)
Definition initialWorld (now : Z) : World :=
  mkWorld now 0 Fulfilled ∅ None [] [] 1 [].

(** *** Vocabulary of the cache *)

(** [out] is the text of a response of the completion service to a request
    the program sent. *)
Definition answered_by_service (env : Env) (w : World) (out : string) : Prop :=
  exists (n : nat) tm api prompt,
    history w !! n = Some (tm, FxCompletion api prompt)
    /\ completion env n = Resp (Some out).

(** [out] is a value [askOpenAI] can return: the text of a response, the
    notice that no API key is configured, or the notice that stands for a
    response without text. *)
Definition produced (cfg : Config) (env : Env) (w : World) (out : string) : Prop :=
  answered_by_service env w out
  \/ (OPENAI_API_KEY cfg = false /\ out = noKeyText)
  \/ (out = noReplyText
      /\ exists (n : nat) tm api prompt,
          history w !! n = Some (tm, FxCompletion api prompt)
          /\ completion env n = Resp None).

(** The path [answerWithSensorAI] takes on a miss: the queued call, then the
    store of its result. *)
Definition missPath (eng : Engine) (cfg : Config) (env : Env)
                    (question : string) (l t h : JSValue) : M string :=
  out <- safeAskOpenAI cfg env (sensorPrompt eng question l t h) ;;
  _ <- setCache (cacheKey eng question l t h) out ;;
  ret out.

(** The three readings round to the same integers. *)
Definition same_rounding (eng : Engine) (l t h l' t' h' : JSValue) : Prop :=
  Math_round (Number eng l) = Math_round (Number eng l')
  /\ Math_round (Number eng t) = Math_round (Number eng t')
  /\ Math_round (Number eng h) = Math_round (Number eng h').

(** *** Vocabulary of the event processor *)

(** The uniqueness constraint on [PendingReply.replyToken]. *)
Definition unique_tokens (w : World) : Prop :=
  List.NoDup (map replyToken (pendingReplies w)).

Definition is_find (e : Effect) : bool :=
  match e with FxPendingFind _ => true | _ => false end.
Definition is_error (e : Effect) : bool :=
  match e with FxError _ => true | _ => false end.
(** Effects of [replyToUser], of [deletePendingReply], and of the steps of
    the event processor up to the duplicate check. *)
Definition reply_fx (e : Effect) : bool := is_reply e || is_error e.
Definition delete_fx (e : Effect) : bool := is_delete e || is_error e.
Definition admission_fx (e : Effect) : bool := user_fx e || is_find e.

(** A step that leaves the pending replies and the last reading alone and
    whose effects are of kind [p]. *)
Definition bystander (p : Effect -> bool) (w w' : World) : Prop :=
  pendingReplies w' = pendingReplies w
  /\ nextId w' = nextId w
  /\ lastSensorData w' = lastSensorData w
  /\ grows p w w'.

(** The two phases of [processMessageEvent]: up to the creation of the
    pending record ([None] for a duplicate), and from there to the end; see
    [processMessageEvent_phases]. *)
Definition admission (eng : Engine) (env : Env) (event : ChatEvent)
  : M (option PendingReply) :=
  let uid := source_userId event in
  let token := event_replyToken event in
  let txt := eventText eng event in
  existingUser <- user_findUnique env uid ;;
  _ <- (if existingUser then ret tt else user_create env uid) ;;
  exists_ <- pendingReply_findUnique env token ;;
  match exists_ with
  | Some _ => ret None
  | None =>
      created <- pendingReply_create env token uid (eventMessageType event)
                   (if truthy txt then txt else "(ไม่มีข้อความ)") ;;
      ret (Some created)
  end.

Definition respond (eng : Engine) (cfg : Config) (env : Env)
                   (event : ChatEvent) (created : PendingReply) : M unit :=
  let uid := source_userId event in
  let token := event_replyToken event in
  sensor <- gets lastSensorData ;;
  match sensor with
  | None =>
      _ <- replyToUser eng env token noSensorText ;;
      deletePendingReply env (id created)
  | Some stored =>
      d <- convert stored ;;
      let normalizedText := normalizeText eng (eventText eng event) in
      if negb (existsb (String.eqb normalizedText) presetQuestions)
      then
        _ <- replyToUser eng env token (shortMsg eng d) ;;
        deletePendingReply env (id created)
      else
        _ <- replyToUser eng env token askingText ;;
        aiText <- answerWithSensorAI eng cfg env normalizedText
                    (light d) (temp d) (humidity d) ;;
        let finalText := trim eng aiText in
        if negb (truthy finalText)
        then
          _ <- replyToUser eng env token emptyAnswerText ;;
          deletePendingReply env (id created)
        else
          _ <- axios_post env (FxPush uid (aiAnswerText eng normalizedText finalText)) ;;
          deletePendingReply env (id created)
  end.

(** Effects of the first phase. *)
Definition entry_fx (e : Effect) : bool := admission_fx e || is_create e.

(** Effects of the second phase when there is no reading. *)
Definition direct_fx (e : Effect) : bool := reply_fx e || delete_fx e.

(** The effect is logged in [w'] and was not in [w]. *)
Definition performed (e : Effect) (w w' : World) : Prop :=
  exists new, log w' = (new ++ log w)%list /\ In e (map snd new).

(** Between [w] and [w'] the store was asked once to delete the pending
    record [i]: the record is gone, or the failure was logged and the table
    is as before. *)
Definition cleaned (i : Z) (w w' : World) : Prop :=
  nextId w' = nextId w
  /\ lastSensorData w' = lastSensorData w
  /\ deletes w' = S (deletes w)
  /\ performed (FxPendingDelete i) w w'
  /\ (pendingReplies w'
      = List.filter (fun r => negb (id r =? i)) (pendingReplies w)
      \/ (pendingReplies w' = pendingReplies w
          /\ performed (FxError "PendingReply delete failed") w w')).

Definition is_store_error (e : Err) : Prop := exists code, e = StoreError code.

(** The store could not be reached at one of the requests logged between
    [w] and [w']. *)
Definition store_failed (env : Env) (w w' : World) : Prop :=
  exists n, (length (log w) <= n < length (log w'))%nat /\ storeDown env n = true.

(** Every error [c] throws satisfies [P]. *)
Definition throws_only {A} (P : Err -> Prop) (c : M A) : Prop :=
  forall w e w', c w = (Throw e, w') -> P e.

(** What skipping an event means: no pending record is created, and the
    only effects are the user lookup, the user creation and the duplicate
    check, so no reply, no push and no call of the orchestrator. *)
Definition skipped (w w' : World) : Prop :=
  pendingReplies w' = pendingReplies w
  /\ nextId w' = nextId w
  /\ grows admission_fx w w'
  /\ count_fx is_create w' = count_fx is_create w
  /\ count_fx is_reply w' = count_fx is_reply w
  /\ count_fx is_push w' = count_fx is_push w
  /\ count_fx is_start w' = count_fx is_start w
  /\ completions w' = completions w.


(** *** Vocabulary of the sensor route *)

(** [light], [temp] or [humidity] is undefined in the body. *)
Definition missing_field (body : SensorBody) : bool :=
  is_undefined (body_light body)
  || is_undefined (body_temp body)
  || is_undefined (body_humidity body).

Definition accepted : Response :=
  {| http_status := 200; message := "✅ รับข้อมูลแล้ว" |}.
Definition refused : Response :=
  {| http_status := 400; message := "❌ ข้อมูลไม่ครบ" |}.

(** The handler answered with this status. *)
Definition answered (status : Z) (r : Result Response) : Prop :=
  exists resp, r = Return resp /\ http_status resp = status.

(** A body with three numbers, two of them outside the documented ranges
    (light below 0, humidity above 100), and one with a text in place of a
    number. *)
Definition outOfRange : SensorBody :=
  {| body_light := Plain (JNumber (Fin (-5))); body_temp := Plain (JNumber (Fin 20));
     body_humidity := Plain (JNumber (Fin 150)) |}.
Definition notANumber : SensorBody :=
  {| body_light := Plain (JString "abc"); body_temp := Plain (JNumber (Fin 20));
     body_humidity := Plain (JNumber (Fin 55)) |}.

(** A body whose light is an object that does not convert. *)
Definition notConvertible : SensorBody :=
  {| body_light := Opaque; body_temp := Plain (JNumber (Fin 20));
     body_humidity := Plain (JNumber (Fin 55)) |}.

(** The three values of a body, when it has its three fields and all
    three convert. *)
Definition bodyValues (body : SensorBody) : option SensorData :=
  if missing_field body then None
  else primitives {| reading_light := body_light body;
                     reading_temp := body_temp body;
                     reading_humidity := body_humidity body |}.

(** *** Vocabulary of the routes *)

(** The reading the sensor route of [src/index.js] stores for a body, and
    the one [backend/src/index.ts] stores for values that convert. *)
Definition received (body : SensorBody) : Reading :=
  {| reading_light := body_light body; reading_temp := body_temp body;
     reading_humidity := body_humidity body |}.
Definition coerced (eng : Engine) (d : SensorData) : Reading :=
  {| reading_light := Plain (JNumber (Number eng (light d)));
     reading_temp := Plain (JNumber (Number eng (temp d)));
     reading_humidity := Plain (JNumber (Number eng (humidity d))) |}.

(** A sensor route called with each body in turn, whatever it answers. *)
Fixpoint ingestAll (route : SensorBody -> M Response)
                   (bodies : list SensorBody) (w : World) : World :=
  match bodies with
  | [] => w
  | body :: rest => ingestAll route rest (snd (route body w))
  end.

(** The last body of a sequence that has its three fields, and the values
    of the last one whose three fields are there and convert. *)
Definition lastComplete (bodies : list SensorBody) : option SensorBody :=
  find (fun body => negb (missing_field body)) (rev bodies).
Definition lastConvertible (bodies : list SensorBody) : option SensorData :=
  match find (fun body => match bodyValues body with
                          | Some _ => true
                          | None => false
                          end) (rev bodies) with
  | Some body => bodyValues body
  | None => None
  end.

(** The reading the ask route of [src/index.js] works with: that of the
    body when its three values are numbers, otherwise the last reading. *)
Definition askReading (body : AskBody) (w : World) : option Reading :=
  if forallb is_real_number [ask_light body; ask_temp body; ask_humidity body]
  then Some {| reading_light := Plain (ask_light body);
               reading_temp := Plain (ask_temp body);
               reading_humidity := Plain (ask_humidity body) |}
  else lastSensorData w.

(** Its three values, when they convert. *)
Definition askReadings (body : AskBody) (w : World)
  : option (JSValue * JSValue * JSValue) :=
  match askReading body w with
  | Some stored =>
      option_map (fun d => (light d, temp d, humidity d)) (primitives stored)
  | None => None
  end.

(** [f] has the same value in [w'] as in [w]. *)
Definition keeps {A} (f : World -> A) (w w' : World) : Prop := f w' = f w.

(** *** Vocabulary of the event processor, continued *)

(** Only the clock, the log and the two tables of the store differ between
    [w] and [w']: the queue, the cache and the last reading are as before. *)
Definition store_step (w w' : World) : Prop :=
  w' = mkWorld (clock w') (lastCall w) (chain w) (aiCache w)
               (lastSensorData w) (users w') (pendingReplies w') (nextId w')
               (log w').

(** The same, with new effects of kind [p] only. *)
Definition store_changes (p : Effect -> bool) (w w' : World) : Prop :=
  store_step w w' /\ grows p w w'.

(** What an event may cause: requests to the store about its user and its
    token, replies on its token, a push to its user, the deletion of the
    record [i], the effects of a queued call, and logged errors. *)
Definition about_event (event : ChatEvent) (i : Z) (e : Effect) : bool :=
  match e with
  | FxUserFind u | FxUserCreate u => String.eqb u (source_userId event)
  | FxPendingFind token | FxPendingCreate token =>
      String.eqb token (event_replyToken event)
  | FxReply token _ => String.eqb token (event_replyToken event)
  | FxPush to _ => String.eqb to (source_userId event)
  | FxPendingDelete j => j =? i
  | FxLog _ => false
  | FxStart _ | FxAttempt _ | FxCompletion _ _ | FxDelay _ | FxWarn _ _
  | FxError _ => true
  end.

(** An error [askOpenAI] can throw on its own: a failure of the completion
    service, or the error it raises when the client has no endpoint. *)
Definition service_error (env : Env) (e : Err) : Prop :=
  (exists n, completion env n = Fail e)
  \/ e = JsError "Responses API not available".

(** *** Vocabulary of the cache, continued *)

(** The text has no vertical bar, the separator of the fingerprint. *)
Fixpoint no_bar (s : string) : bool :=
  match s with
  | EmptyString => true
  | String c s' => negb (Ascii.eqb c "|"%char) && no_bar s'
  end.

(** The printed form of a rounded reading, as it enters the fingerprint. *)
Definition roundedText (eng : Engine) (v : JSValue) : string :=
  numToString eng (Math_round (Number eng v)).

(** ** A concrete engine and concrete worlds for the examples

    The engine agrees with a JS engine on ASCII text without markup and on
    decimal integers, which is all the examples use. *)
Module Example.
Definition isSpace (c : ascii) : bool :=
  let n := nat_of_ascii c in
  (Nat.eqb n 32) || ((Nat.leb 9 n) && (Nat.leb n 13)).

Fixpoint trimStart (s : string) : string :=
  match s with
  | EmptyString => EmptyString
  | String c s' => if isSpace c then trimStart s' else s
  end.

Fixpoint trimEnd (s : string) : string :=
  match s with
  | EmptyString => EmptyString
  | String c s' =>
      match trimEnd s' with
      | EmptyString => if isSpace c then EmptyString else String c EmptyString
      | r => String c r
      end
  end.

Fixpoint collapse (inSpace : bool) (s : string) : string :=
  match s with
  | EmptyString => EmptyString
  | String c s' =>
      if isSpace c
      then if inSpace then collapse true s' else String " "%char (collapse true s')
      else String c (collapse false s')
  end.

Fixpoint parseDigits (acc : Z) (s : string) : option Z :=
  match s with
  | EmptyString => Some acc
  | String c s' =>
      let n := Z.of_nat (nat_of_ascii c) in
      if (48 <=? n) && (n <=? 57)
      then parseDigits (acc * 10 + (n - 48)) s'
      else None
  end.

Definition parseNumber (s : string) : JSNum :=
  match trimEnd (trimStart s) with
  | EmptyString => Fin 0
  | String "-"%char s' =>
      match s' with
      | EmptyString => NaN
      | _ => match parseDigits 0 s' with
             | Some z => Fin (inject_Z (- z))
             | None => NaN
             end
      end
  | s' => match parseDigits 0 s' with
          | Some z => Fin (inject_Z z)
          | None => NaN
          end
  end.

Definition showZ (z : Z) : string := NilZero.string_of_int (Z.to_int z).

Definition showNumber (x : JSNum) : string :=
  match x with
  | NaN => "NaN"
  | Inf false => "Infinity"
  | Inf true => "-Infinity"
  | Fin q => if (Zpos (Qden q) =? 1) then showZ (Qnum q)
             else showZ (Qnum q) ++ "/" ++ showZ (Zpos (Qden q))
  end.

Definition engine : Engine :=
  {| strToNum := parseNumber;
     numToString := showNumber;
     trim := fun s => trimEnd (trimStart s);
     collapseSpaces := collapse false;
     stripThink := fun s => s;
     stripTags := fun s => s;
     strLength := fun s => Z.of_nat (String.length s);
     sliceTo := fun n s => substring 0 (Z.to_nat n) s |}.

(** Two requests a minute, three retries, a two minute cache, both
    endpoints of the client present. *)
Definition config : Config :=
  {| OPENAI_API_KEY := true;
     OPENAI_RPM := 2;
     OPENAI_MAX_RETRIES := 3;
     CACHE_TTL_MS := 120000;
     LINE_ACCESS_TOKEN := "token";
     responsesApi := true;
     chatApi := true |}.

(** The same with no API key. *)
Definition configNoKey : Config :=
  {| OPENAI_API_KEY := false;
     OPENAI_RPM := 2;
     OPENAI_MAX_RETRIES := 3;
     CACHE_TTL_MS := 120000;
     LINE_ACCESS_TOKEN := "token";
     responsesApi := true;
     chatApi := true |}.

(** An outside world in which everything works, every suspension takes 5
    ms, and the completion service answers as [answers] says. *)
Definition world (answers : nat -> Completion) : Env :=
  {| completion := answers;
     lineDown := fun _ => false;
     storeDown := fun _ => false;
     jitter := fun _ => 400;
     lag := fun _ => 5%nat |}.

Definition serverError : Err := ApiError (Some 500) None.
Definition throttled : Err := ApiError (Some 429) None.

Definition start : World := initialWorld 1700000000000.

Definition reading : SensorData :=
  {| light := JNumber (Fin 20000); temp := JNumber (Fin 32);
     humidity := JNumber (Fin 55) |}.

Definition question : string := "ตอนนี้ควรตากผ้าไหม".

Definition chatEvent (token txt : string) : ChatEvent :=
  {| source_userId := "U1"; event_replyToken := token;
     message_type := Some "text"; message_text := txt |}.

(** The completion service answers every request. *)
Definition working : Env := world (fun _ => Resp (Some "dry it")).
(** It answers every request with an empty text. *)
Definition emptyAnswers : Env := world (fun _ => Resp (Some EmptyString)).
(** It fails every request with status 500. *)
Definition alwaysDown : Env := world (fun _ => Fail serverError).
(** It fails the requests logged at positions 0 to 3 with status 500 and
    answers the later ones. *)
Definition downAtFirst : Env :=
  world (fun n => if (n <? 4)%nat then Fail serverError else Resp (Some "ok")).
(** It throttles every request. *)
Definition alwaysThrottled : Env := world (fun _ => Fail throttled).
(** It throttles the requests of the first two attempts (positions up to
    7 of the log) and answers the later ones. *)
Definition twiceThrottled : Env :=
  world (fun n => if (n <? 8)%nat then Fail throttled else Resp (Some "ok")).

(** The process with a reading ingested. *)
Definition withReading : World :=
  set_lastSensorData (Some (plainReading reading)) start.

(** The process after the sensor route of [src/index.js] accepted a body
    whose light is an object that does not convert. *)
Definition withOpaqueReading : World :=
  set_lastSensorData (Some (received notConvertible)) start.

(** A text message that carries no text. *)
Definition eventWithoutText : Inbound.Event :=
  {| Inbound.in_userId := "U1"; Inbound.in_replyToken := "T1";
     Inbound.in_type := Some "text"; Inbound.in_text := Plain JUndefined |}.

(** The same settings with a rate of zero requests a minute. *)
Definition configRateZero : Config :=
  {| OPENAI_API_KEY := true;
     OPENAI_RPM := 0;
     OPENAI_MAX_RETRIES := 3;
     CACHE_TTL_MS := 120000;
     LINE_ACCESS_TOKEN := "token";
     responsesApi := true;
     chatApi := true |}.

(** An outside world in which everything works but the store, which
    cannot be reached. *)
Definition storeIsDown : Env :=
  {| completion := fun _ => Resp (Some "dry it");
     lineDown := fun _ => false;
     storeDown := fun _ => true;
     jitter := fun _ => 400;
     lag := fun _ => 5%nat |}.

(** The process with a pending record for the token T1. *)
Definition withPending : World :=
  set_pending [ {| id := 1; replyToken := "T1"; userId := "U1";
                   messageType := "text"; text := question |} ] 2 start.

(** The process with an empty answer cached for [question] and [reading]
    at the time it started. *)
Definition withEmptyCached : World :=
  set_aiCache
    {[ cacheKey engine question (light reading) (temp reading) (humidity reading)
       := {| t := 1700000000000; val := EmptyString |} ]}
    start.

(** The product of two numbers, exact on finite ones; [isZero] and
    [isNegative] tell which products with an infinity are [NaN] and which
    sign the others have. *)
Definition isZero (x : JSNum) : bool :=
  match x with
  | Fin q => Qeq_bool q 0
  | _ => false
  end.
Definition isNegative (x : JSNum) : bool :=
  match x with
  | NaN => false
  | Inf negative => negative
  | Fin q => Qnum q <? 0
  end.
Definition times (x y : JSNum) : JSNum :=
  match x, y with
  | NaN, _ | _, NaN => NaN
  | Fin a, Fin b => Fin (Qred (a * b))
  | _, _ => if isZero x || isZero y then NaN
            else Inf (xorb (isNegative x) (isNegative y))
  end.

(** The completion service throttles the first request and answers the
    later ones. *)
Definition throttledOnce : Env :=
  world (fun n => if (n <? 1)%nat then Fail throttled else Resp (Some "ok")).

(** Everything works but the LINE platform, which cannot be reached. *)
Definition lineIsDown : Env :=
  {| completion := fun _ => Resp (Some "dry it");
     lineDown := fun _ => true;
     storeDown := fun _ => false;
     jitter := fun _ => 400;
     lag := fun _ => 5%nat |}.

(** A message that is not one of the preset questions. *)
Definition greeting : string := "hello".

(** The body of a request to the ask route with a question and no readings,
    and one with readings of its own. *)
Definition askBody : AskBody :=
  {| ask_question := JString question; ask_light := JUndefined;
     ask_temp := JUndefined; ask_humidity := JUndefined |}.
Definition askBodyWithReadings : AskBody :=
  {| ask_question := JString question; ask_light := JNumber (Fin 100);
     ask_temp := JNumber (Fin 21); ask_humidity := JNumber (Fin 40) |}.

(** The process with a reading ingested, after a queued call failed. *)
Definition afterFailure : World := set_chain (Rejected serverError) withReading.

(** The process with a reading ingested and a pending record. *)
Definition withReadingAndPending : World :=
  set_pending [ {| id := 1; replyToken := "T1"; userId := "U1";
                   messageType := "text"; text := question |} ] 2 withReading.
End Example.
(** ** The monad *)

Lemma bind_Return {A B} (c : M A) (k : A -> M B) w a w' :
  c w = (Return a, w') -> bind c k w = k a w'.
Proof. unfold bind. intros ->. reflexivity. Qed.

Lemma bind_Throw {A B} (c : M A) (k : A -> M B) w e w' :
  c w = (Throw e, w') -> bind c k w = (Throw e, w').
Proof. unfold bind. intros ->. reflexivity. Qed.

(** A conversion changes nothing: it gives the primitive or throws. *)
Lemma toPrimitive_spec v w :
  toPrimitive v w
  = match primitive v with
    | Some p => (Return p, w)
    | None => (Throw TypeError, w)
    end.
Proof. unfold toPrimitive. destruct (primitive v); reflexivity. Qed.

Lemma convert_eq stored w :
  convert stored w
  = match primitives stored with
    | Some d => (Return d, w)
    | None => (Throw TypeError, w)
    end.
Proof.
  unfold convert, primitives, bind. rewrite !toPrimitive_spec.
  destruct (primitive (reading_light stored)); [|reflexivity].
  rewrite toPrimitive_spec.
  destruct (primitive (reading_temp stored)); [|reflexivity].
  rewrite toPrimitive_spec.
  destruct (primitive (reading_humidity stored)); reflexivity.
Qed.

Lemma convert_spec stored w r w' :
  convert stored w = (r, w') ->
  w' = w
  /\ match r with
     | Return d => primitives stored = Some d
     | Throw e => e = TypeError /\ primitives stored = None
     end.
Proof.
  rewrite convert_eq. destruct (primitives stored); intros [= <- <-]; auto.
Qed.

(** ** Properties of the log relations *)

Lemma grows_refl p w : grows p w w.
Proof. exists []; split; reflexivity. Qed.

Lemma grows_trans p w1 w2 w3 : grows p w1 w2 -> grows p w2 w3 -> grows p w1 w3.
Proof.
  intros (n1 & E1 & F1) (n2 & E2 & F2).
  exists (n2 ++ n1)%list; split.
  - rewrite E2, E1. apply app_assoc.
  - rewrite forallb_app, F1, F2. reflexivity.
Qed.

Lemma grows_weaken (p q : Effect -> bool) w w' :
  (forall e, p e = true -> q e = true) -> grows p w w' -> grows q w w'.
Proof.
  intros Hpq (new & E & F). exists new; split; [exact E|].
  rewrite forallb_forall in *. intros x Hx. apply Hpq, F, Hx.
Qed.

Lemma grows_one (p : Effect -> bool) w w' e :
  log w' = (clock w, e) :: log w -> p e = true -> grows p w w'.
Proof.
  intros E P. exists [(clock w, e)]; split; [exact E|]. simpl. rewrite P. reflexivity.
Qed.

Lemma filter_none {A} (q : A -> bool) (l : list A) :
  forallb (fun x => negb (q x)) l = true -> List.filter q l = [].
Proof.
  induction l as [|a l IH]; simpl; [reflexivity|].
  intros H. apply andb_prop in H as [Ha Hl].
  destruct (q a); [discriminate|]. apply IH, Hl.
Qed.

(** Effects of kind [p] do not change the count of a disjoint kind [q]. *)
Lemma grows_count (p q : Effect -> bool) w w' :
  (forall e, p e = true -> q e = false) ->
  grows p w w' -> count_fx q w' = count_fx q w.
Proof.
  intros Hpq (new & E & F). unfold count_fx. rewrite E, List.filter_app.
  rewrite filter_none; [reflexivity|].
  rewrite forallb_forall in *. intros x Hx.
  rewrite (Hpq _ (F x Hx)). reflexivity.
Qed.


(** ** Frame reasoning *)

Section PostRules.
Context (R : World -> World -> Prop) `{!Reflexive R} `{!Transitive R}.

Lemma post_ret {A} (a : A) : post (ret a) R.
Proof. intros w r w' [= <- <-]. reflexivity. Qed.

Lemma post_throw {A} e : post (@throw A e) R.
Proof. intros w r w' [= <- <-]. reflexivity. Qed.

Lemma post_gets {A} (f : World -> A) : post (gets f) R.
Proof. intros w r w' [= <- <-]. reflexivity. Qed.

Lemma post_modify f : (forall w, R w (f w)) -> post (modify f) R.
Proof. intros H w r w' [= <- <-]. apply H. Qed.

Lemma post_bind {A B} (c : M A) (k : A -> M B) :
  post c R -> (forall a, post (k a) R) -> post (bind c k) R.
Proof.
  intros Hc Hk w r w'. unfold bind.
  destruct (c w) as [[a|e] w1] eqn:E.
  - intros H. transitivity w1; [eapply Hc, E | eapply Hk, H].
  - intros [= <- <-]. eapply Hc, E.
Qed.

Lemma post_try_catch {A} (c : M A) (h : Err -> M A) :
  post c R -> (forall e, post (h e) R) -> post (try_catch c h) R.
Proof.
  intros Hc Hh w r w'. unfold try_catch.
  destruct (c w) as [[a|e] w1] eqn:E.
  - intros [= <- <-]. eapply Hc, E.
  - intros H. transitivity w1; [eapply Hc, E | eapply Hh, H].
Qed.
End PostRules.

#[export] Instance quiet_refl p : Reflexive (quiet p).
Proof.
  intros w. split; [|split]; [|lia|apply grows_refl].
  destruct w; reflexivity.
Qed.

#[export] Instance quiet_trans p : Transitive (quiet p).
Proof.
  intros w1 w2 w3 (E1 & C1 & G1) (E2 & C2 & G2).
  split; [|split]; [|lia|eapply grows_trans; eassumption].
  unfold only_time_passed in *. rewrite E2. rewrite E1. reflexivity.
Qed.

Lemma timerMs_pos ms : 1 <= timerMs ms.
Proof.
  unfold timerMs. destruct (1 <=? ms) eqn:E; simpl; [|lia].
  apply Z.leb_le in E. destruct (ms <=? 2147483647); lia.
Qed.

Lemma timerMs_exact ms : 1 <= ms <= 2147483647 -> timerMs ms = ms.
Proof.
  intros [H1 H2]. unfold timerMs.
  apply Z.leb_le in H1, H2. rewrite H1, H2. reflexivity.
Qed.

Section LimiterFacts.
Context (eng : Engine) (cfg : Config) (env : Env).

Lemma post_request p e :
  p e = true -> post (request env e) (quiet p).
Proof.
  intros P w r w' [= <- <-]. split; [|split].
  - destruct w; reflexivity.
  - simpl. lia.
  - eapply grows_one; [reflexivity|exact P].
Qed.

Lemma post_delay p ms :
  p (FxDelay ms) = true -> post (delay env ms) (quiet p).
Proof.
  intros P w r w' [= <- <-]. split; [|split].
  - destruct w; reflexivity.
  - simpl. pose proof (timerMs_pos ms). lia.
  - eapply grows_one; [reflexivity|exact P].
Qed.

Lemma post_note p e :
  p e = true -> post (note e) (quiet p).
Proof.
  intros P. apply post_modify. intros w. split; [|split].
  - destruct w; reflexivity.
  - simpl. lia.
  - eapply grows_one; [reflexivity|exact P].
Qed.

Lemma post_create api prompt : post (create env api prompt) (quiet is_completion).
Proof.
  unfold create. apply post_bind; try typeclasses eauto.
  - apply post_request. reflexivity.
  - intros n. destruct (completion env n); [apply post_ret|apply post_throw]; typeclasses eauto.
Qed.

Lemma post_askOpenAI prompt : post (askOpenAI cfg env prompt) (quiet is_completion).
Proof.
  unfold askOpenAI.
  destruct (OPENAI_API_KEY cfg); simpl; [|apply post_ret; typeclasses eauto].
  apply post_try_catch; try typeclasses eauto.
  - destruct (responsesApi cfg); [|apply post_throw; typeclasses eauto].
    apply post_bind; try typeclasses eauto; [apply post_create|].
    intros a. apply post_ret; typeclasses eauto.
  - intros e1. apply post_try_catch; try typeclasses eauto.
    + destruct (chatApi cfg); [|apply post_throw; typeclasses eauto].
      apply post_bind; try typeclasses eauto; [apply post_create|].
      intros a. apply post_ret; typeclasses eauto.
    + intros e2. apply post_throw; typeclasses eauto.
Qed.
End LimiterFacts.

(** ** The retry loop *)

Section RetryLoop.
Context (cfg : Config) (env : Env).

(** One iteration of the loop. *)
Lemma retryLoop_unfold prompt fuel attempt w :
  retryLoop cfg env prompt fuel attempt w =
  match askOpenAI cfg env prompt (beginAttempt attempt w) with
  | (Return out, w1) => (Return out, set_lastCall (clock w1) w1)
  | (Throw err, w1) =>
      if not_throttled err || (OPENAI_MAX_RETRIES cfg <=? attempt)
      then (Throw err, w1)
      else match fuel with
           | O => (Throw err, w1)
           | S fuel' =>
               retryLoop cfg env prompt fuel' (attempt + 1)
                         (afterBackoff env err (attempt + 1) w1)
           end
  end.
Proof.
  destruct fuel; simpl; unfold try_catch, bind, note, modify, Date_now, gets, ret;
    fold (beginAttempt attempt w);
    destruct (askOpenAI cfg env prompt (beginAttempt attempt w)) as [[out|err] w1];
    try reflexivity;
    destruct (not_throttled err || (OPENAI_MAX_RETRIES cfg <=? attempt));
    reflexivity.
Qed.

(** The fuel given by [safeAskOpenAI] is never what stops the loop: more
    fuel gives the same run. *)
Lemma retryLoop_fuel prompt fuel : forall attempt w,
  OPENAI_MAX_RETRIES cfg - attempt <= Z.of_nat fuel ->
  retryLoop cfg env prompt (S fuel) attempt w
  = retryLoop cfg env prompt fuel attempt w.
Proof.
  induction fuel as [|fuel IH]; intros attempt w Hfuel;
    rewrite (retryLoop_unfold prompt (S _)), (retryLoop_unfold prompt _ attempt);
    destruct (askOpenAI cfg env prompt (beginAttempt attempt w)) as [[out|err] w1];
    try reflexivity;
    destruct (not_throttled err) eqn:Hthr; simpl; try reflexivity;
    destruct (OPENAI_MAX_RETRIES cfg <=? attempt) eqn:Hmax; try reflexivity;
    apply Z.leb_gt in Hmax.
  - simpl in Hfuel. lia.
  - apply IH. lia.
Qed.

Lemma retryLoop_enough_fuel prompt attempt w extra :
  0 <= attempt ->
  retryLoop cfg env prompt (Z.to_nat (OPENAI_MAX_RETRIES cfg) + extra) attempt w
  = retryLoop cfg env prompt (Z.to_nat (OPENAI_MAX_RETRIES cfg)) attempt w.
Proof.
  intros Ha. induction extra as [|extra IH].
  - rewrite Nat.add_0_r. reflexivity.
  - rewrite Nat.add_succ_r, retryLoop_fuel; [exact IH|]. lia.
Qed.
End RetryLoop.

(** ** Counting attempts *)

Lemma not_throttled_false e : not_throttled e = false <-> err_status e = Some 429.
Proof.
  unfold not_throttled. destruct (err_status e) as [s|]; [|split; discriminate].
  destruct (s =? 429) eqn:E; simpl.
  - apply Z.eqb_eq in E. subst. split; reflexivity.
  - apply Z.eqb_neq in E. split; [discriminate|]. intros [= ->]. contradiction.
Qed.

Lemma not_throttled_true e : not_throttled e = true <-> err_status e <> Some 429.
Proof.
  rewrite <- not_throttled_false. destruct (not_throttled e); split; congruence.
Qed.

Lemma attempts_beginAttempt n w : attempts (beginAttempt n w) = S (attempts w).
Proof. reflexivity. Qed.

Lemma attempts_set_lastCall l w : attempts (set_lastCall l w) = attempts w.
Proof. reflexivity. Qed.

Lemma attempts_afterBackoff env err n w : attempts (afterBackoff env err n w) = attempts w.
Proof. reflexivity. Qed.

Lemma attempts_askOpenAI cfg env prompt w r w' :
  askOpenAI cfg env prompt w = (r, w') -> attempts w' = attempts w.
Proof.
  intros H. apply post_askOpenAI in H as (_ & _ & G).
  eapply grows_count; [|exact G]. intros [] ?; try discriminate; reflexivity.
Qed.

Section RetryPolicy.
Context (cfg : Config) (env : Env).

(** A non-throttling error leaves the loop at once, from any iteration. *)
Lemma retryLoop_other_error prompt fuel attempt w e w1 :
  askOpenAI cfg env prompt (beginAttempt attempt w) = (Throw e, w1) ->
  err_status e <> Some 429 ->
  retryLoop cfg env prompt fuel attempt w = (Throw e, w1)
  /\ attempts w1 = S (attempts w).
Proof.
  intros Hask Hst. rewrite retryLoop_unfold, Hask.
  apply not_throttled_true in Hst. rewrite Hst. simpl. split; [reflexivity|].
  rewrite (attempts_askOpenAI _ _ _ _ _ _ Hask). apply attempts_beginAttempt.
Qed.

(** A throttled attempt that is not the last one is followed by the
    back-off and the next attempt. *)
Lemma retryLoop_throttled prompt fuel attempt w e w1 :
  askOpenAI cfg env prompt (beginAttempt attempt w) = (Throw e, w1) ->
  err_status e = Some 429 ->
  attempt < OPENAI_MAX_RETRIES cfg ->
  retryLoop cfg env prompt (S fuel) attempt w
  = retryLoop cfg env prompt fuel (attempt + 1)
              (afterBackoff env e (attempt + 1) w1).
Proof.
  intros Hask Hst Hlt. rewrite retryLoop_unfold, Hask.
  apply not_throttled_false in Hst. rewrite Hst.
  apply Z.leb_gt in Hlt. rewrite Hlt. reflexivity.
Qed.

Lemma retryLoop_success prompt fuel attempt w v w1 :
  askOpenAI cfg env prompt (beginAttempt attempt w) = (Return v, w1) ->
  retryLoop cfg env prompt fuel attempt w
  = (Return v, set_lastCall (clock w1) w1).
Proof. intros Hask. rewrite retryLoop_unfold, Hask. reflexivity. Qed.

(** A service that always throttles: the loop throws what its last
    attempt threw, after [remaining + 1] attempts. *)
Lemma retryLoop_exhausted prompt :
  (forall w, exists e w',
      askOpenAI cfg env prompt w = (Throw e, w') /\ err_status e = Some 429) ->
  forall remaining attempt w,
    OPENAI_MAX_RETRIES cfg - attempt <= Z.of_nat remaining ->
    Z.of_nat remaining = Z.max 0 (OPENAI_MAX_RETRIES cfg - attempt) ->
    exists wl e w',
      askOpenAI cfg env prompt wl = (Throw e, w')
      /\ err_status e = Some 429
      /\ (exists rest, log wl
                       = (clock wl, FxAttempt (attempt + Z.of_nat remaining)) :: rest)
      /\ retryLoop cfg env prompt remaining attempt w = (Throw e, w')
      /\ attempts w' = (attempts w + remaining + 1)%nat.
Proof.
  intros Hall. induction remaining as [|remaining IH]; intros attempt w Hfuel Hrem.
  - destruct (Hall (beginAttempt attempt w)) as (e & w' & Hask & Hst).
    exists (beginAttempt attempt w), e, w'. repeat split; try assumption.
    + exists (log w). rewrite Z.add_0_r. reflexivity.
    + rewrite retryLoop_unfold, Hask.
      destruct (not_throttled e); simpl; [reflexivity|].
      destruct (OPENAI_MAX_RETRIES cfg <=? attempt); reflexivity.
    + rewrite (attempts_askOpenAI _ _ _ _ _ _ Hask), attempts_beginAttempt. lia.
  - destruct (Hall (beginAttempt attempt w)) as (e & w1 & Hask & Hst).
    destruct (IH (attempt + 1) (afterBackoff env e (attempt + 1) w1))
      as (wl & e' & w' & Hlast & Hst' & (rest & Hlog) & Hloop & Hcount); [lia|lia|].
    exists wl, e', w'. repeat split; try assumption.
    + exists rest. rewrite Hlog. do 2 f_equal. f_equal. lia.
    + rewrite (retryLoop_throttled _ _ _ _ _ _ Hask Hst) by lia.
      exact Hloop.
    + rewrite Hcount, attempts_afterBackoff.
      rewrite (attempts_askOpenAI _ _ _ _ _ _ Hask), attempts_beginAttempt. lia.
Qed.

(** C5.  The retry policy of [safeAskOpenAI], on the loop it runs with the
    fuel it gives it.  (a) If [askOpenAI] throws a 429 error on the first
    two attempts and returns [v] on the third, and [OPENAI_MAX_RETRIES] is
    at least 2, the loop returns [v] after exactly 3 attempts.  (b) An
    error whose status is not 429 is thrown to the caller after that one
    attempt, with no retry.  (c) If every attempt is throttled, the loop
    throws the 429 error of its last attempt, the one numbered
    [OPENAI_MAX_RETRIES], after [OPENAI_MAX_RETRIES + 1] attempts. *)
Theorem retry_policy prompt w0 :
  (forall e1 w1 e2 w2 v w3,
      2 <= OPENAI_MAX_RETRIES cfg ->
      askOpenAI cfg env prompt (beginAttempt 0 w0) = (Throw e1, w1) ->
      err_status e1 = Some 429 ->
      askOpenAI cfg env prompt (beginAttempt 1 (afterBackoff env e1 1 w1))
      = (Throw e2, w2) ->
      err_status e2 = Some 429 ->
      askOpenAI cfg env prompt (beginAttempt 2 (afterBackoff env e2 2 w2))
      = (Return v, w3) ->
      retryLoop cfg env prompt (Z.to_nat (OPENAI_MAX_RETRIES cfg)) 0 w0
      = (Return v, set_lastCall (clock w3) w3)
      /\ attempts (set_lastCall (clock w3) w3) = (attempts w0 + 3)%nat)
  /\ (forall e w1,
         askOpenAI cfg env prompt (beginAttempt 0 w0) = (Throw e, w1) ->
         err_status e <> Some 429 ->
         retryLoop cfg env prompt (Z.to_nat (OPENAI_MAX_RETRIES cfg)) 0 w0
         = (Throw e, w1)
         /\ attempts w1 = (attempts w0 + 1)%nat)
  /\ ((forall w, exists e w',
          askOpenAI cfg env prompt w = (Throw e, w') /\ err_status e = Some 429) ->
      exists wl e w',
        askOpenAI cfg env prompt wl = (Throw e, w')
        /\ err_status e = Some 429
        /\ (exists rest,
               log wl = (clock wl, FxAttempt (Z.max 0 (OPENAI_MAX_RETRIES cfg)))
                          :: rest)
        /\ retryLoop cfg env prompt (Z.to_nat (OPENAI_MAX_RETRIES cfg)) 0 w0
           = (Throw e, w')
        /\ attempts w'
           = (attempts w0 + Z.to_nat (OPENAI_MAX_RETRIES cfg) + 1)%nat).
Proof.
  split; [|split].
  - intros e1 w1 e2 w2 v w3 Hmax H1 S1 H2 S2 H3.
    destruct (Z.to_nat (OPENAI_MAX_RETRIES cfg)) as [|[|fuel]] eqn:Hfuel; try lia.
    split.
    + rewrite (retryLoop_throttled _ _ _ _ _ _ H1 S1) by lia.
      rewrite (retryLoop_throttled _ _ _ _ _ _ H2 S2) by lia.
      apply retryLoop_success, H3.
    + rewrite attempts_set_lastCall.
      rewrite (attempts_askOpenAI _ _ _ _ _ _ H3), attempts_beginAttempt,
        attempts_afterBackoff.
      rewrite (attempts_askOpenAI _ _ _ _ _ _ H2), attempts_beginAttempt,
        attempts_afterBackoff.
      rewrite (attempts_askOpenAI _ _ _ _ _ _ H1), attempts_beginAttempt. lia.
  - intros e w1 Hask Hst.
    destruct (retryLoop_other_error prompt (Z.to_nat (OPENAI_MAX_RETRIES cfg))
                0 w0 e w1 Hask Hst) as [-> ->].
    split; [reflexivity|lia].
  - intros Hall.
    destruct (retryLoop_exhausted prompt Hall
                (Z.to_nat (OPENAI_MAX_RETRIES cfg)) 0 w0)
      as (wl & e & w' & Hlast & Hst & (rest & Hlog) & Hloop & Hcount); [lia|lia|].
    exists wl, e, w'. repeat split; try assumption.
    exists rest. rewrite Hlog. do 3 f_equal. lia.
Qed.
End RetryPolicy.

(** ** What the retry loop changes *)

Lemma post_weaken {A} (c : M A) (R R' : World -> World -> Prop) :
  (forall w w', R w w' -> R' w w') -> post c R -> post c R'.
Proof. intros HR Hc w r w' H. apply HR. eapply Hc, H. Qed.

#[export] Instance limiter_step_refl p : Reflexive (limiter_step p).
Proof.
  intros w. split; [|split]; [|lia|apply grows_refl].
  destruct w; reflexivity.
Qed.

#[export] Instance limiter_step_trans p : Transitive (limiter_step p).
Proof.
  intros w1 w2 w3 (E1 & C1 & G1) (E2 & C2 & G2).
  split; [|split]; [|lia|eapply grows_trans; eassumption].
  unfold limiter_only in *. rewrite E2. rewrite E1. reflexivity.
Qed.

#[export] Instance loop_step_refl : Reflexive loop_step.
Proof. intros w. split; [reflexivity|]. split; [reflexivity|tauto]. Qed.

#[export] Instance loop_step_trans : Transitive loop_step.
Proof.
  intros w1 w2 w3 (L1 & C1 & B1) (L2 & C2 & B2).
  split; [etransitivity; eassumption|]. split; [congruence|tauto].
Qed.

Lemma quiet_loop_step p w w' :
  (forall e, p e = true -> loop_fx e = true) -> quiet p w w' -> loop_step w w'.
Proof.
  intros Hp (E & C & G). unfold only_time_passed in E.
  split; [split; [|split]|split].
  - rewrite E. reflexivity.
  - exact C.
  - eapply grows_weaken; eassumption.
  - rewrite E. reflexivity.
  - rewrite E. simpl. lia.
Qed.

Lemma loop_step_set_lastCall w : loop_step w (set_lastCall (clock w) w).
Proof.
  split; [split; [|split]|split].
  - destruct w; reflexivity.
  - simpl. lia.
  - exists []; split; reflexivity.
  - reflexivity.
  - simpl. lia.
Qed.

Section LoopFrame.
Context (cfg : Config) (env : Env).

Lemma quiet_beginAttempt n w : quiet loop_fx w (beginAttempt n w).
Proof. eapply (post_note loop_fx (FxAttempt n)); reflexivity. Qed.

Lemma quiet_afterBackoff err n w : quiet loop_fx w (afterBackoff env err n w).
Proof.
  unfold afterBackoff.
  set (backoff := backoffMs err n _).
  transitivity (add_log (FxWarn n backoff) w).
  - eapply (post_note loop_fx (FxWarn n backoff)); reflexivity.
  - eapply (post_delay env loop_fx backoff); [reflexivity|].
    apply surjective_pairing.
Qed.

Lemma quiet_askOpenAI prompt w r w' :
  askOpenAI cfg env prompt w = (r, w') -> quiet loop_fx w w'.
Proof.
  intros H. apply post_askOpenAI in H as (E & C & G).
  split; [exact E|]. split; [exact C|].
  eapply grows_weaken; [|exact G]. intros [] ?; try discriminate; reflexivity.
Qed.

Lemma retryLoop_step prompt fuel : forall attempt w r w',
  retryLoop cfg env prompt fuel attempt w = (r, w') -> loop_step w w'.
Proof.
  induction fuel as [|fuel IH]; intros attempt w r w';
    rewrite retryLoop_unfold;
    destruct (askOpenAI cfg env prompt (beginAttempt attempt w))
      as [[out|err] w1] eqn:Hask;
    pose proof (quiet_loop_step _ _ _ (fun e H => H) (quiet_beginAttempt attempt w)) as H0;
    pose proof (quiet_loop_step _ _ _ (fun e H => H) (quiet_askOpenAI _ _ _ _ Hask)) as H1.
  - intros [= <- <-]. etransitivity; [exact H0|]. etransitivity; [exact H1|].
    apply loop_step_set_lastCall.
  - destruct (_ || _); intros [= <- <-]; etransitivity; eassumption.
  - intros [= <- <-]. etransitivity; [exact H0|]. etransitivity; [exact H1|].
    apply loop_step_set_lastCall.
  - destruct (_ || _).
    + intros [= <- <-]; etransitivity; eassumption.
    + intros H. apply IH in H.
      etransitivity; [exact H0|]. etransitivity; [exact H1|].
      etransitivity; [|exact H].
      eapply quiet_loop_step; [|apply quiet_afterBackoff]. auto.
Qed.

(** On success [lastCall] is the time the answer arrived. *)
Lemma retryLoop_Return prompt fuel : forall attempt w v w',
  retryLoop cfg env prompt fuel attempt w = (Return v, w') ->
  lastCall w' = clock w'.
Proof.
  induction fuel as [|fuel IH]; intros attempt w v w';
    rewrite retryLoop_unfold;
    destruct (askOpenAI cfg env prompt (beginAttempt attempt w))
      as [[out|err] w1] eqn:Hask;
    try (intros [= <- <-]; reflexivity);
    destruct (_ || _); try discriminate.
  apply IH.
Qed.

(** On failure [lastCall] is not touched. *)
Lemma retryLoop_Throw prompt fuel : forall attempt w e w',
  retryLoop cfg env prompt fuel attempt w = (Throw e, w') ->
  lastCall w' = lastCall w.
Proof.
  induction fuel as [|fuel IH]; intros attempt w e w';
    rewrite retryLoop_unfold;
    destruct (askOpenAI cfg env prompt (beginAttempt attempt w))
      as [[out|err] w1] eqn:Hask;
    try discriminate;
    apply quiet_askOpenAI in Hask as (E & _ & _); unfold only_time_passed in E.
  - destruct (_ || _); intros [= <- <-]; rewrite E; reflexivity.
  - destruct (_ || _).
    + intros [= <- <-]; rewrite E; reflexivity.
    + intros H. apply IH in H. rewrite H.
      destruct (quiet_afterBackoff err (attempt + 1) w1) as (E' & _ & _).
      unfold only_time_passed in E'. rewrite E'. simpl. rewrite E. reflexivity.
Qed.
End LoopFrame.

(** ** The queue *)

Section Queue.
Context (cfg : Config) (env : Env).

(** On a healthy chain the call waits, starts, and runs the retry loop;
    the promise it settles is the new chain. *)
Lemma safeAskOpenAI_unfold prompt w :
  chain w = Fulfilled ->
  safeAskOpenAI cfg env prompt w =
  match retryLoop cfg env prompt (Z.to_nat (OPENAI_MAX_RETRIES cfg)) 0
                  (readyWorld cfg env prompt w) with
  | (Return out, w') => (Return out, set_chain Fulfilled w')
  | (Throw err, w') => (Throw err, set_chain (Rejected err) w')
  end.
Proof.
  intros Hch.
  unfold safeAskOpenAI, chain_then, bind, Date_now, gets, note, modify, readyWorld.
  rewrite Hch.
  destruct (0 <? Z.max 0 (lastCall w + minGapMs cfg - clock w)); reflexivity.
Qed.

(** On a rejected chain the call is not run: its caller gets the reason
    the chain was rejected with, and nothing changes. *)
Lemma safeAskOpenAI_rejected prompt w reason :
  chain w = Rejected reason ->
  safeAskOpenAI cfg env prompt w = (Throw reason, w).
Proof.
  intros Hch. unfold safeAskOpenAI, chain_then. rewrite Hch. reflexivity.
Qed.

(** A call that fails leaves the chain rejected. *)
Lemma safeAskOpenAI_Throw prompt w e w' :
  chain w = Fulfilled ->
  safeAskOpenAI cfg env prompt w = (Throw e, w') ->
  chain w' = Rejected e.
Proof.
  intros Hch. rewrite (safeAskOpenAI_unfold _ _ Hch).
  destruct (retryLoop _ _ _ _ _ _) as [[out|err] w1]; intros [= <- <-]; reflexivity.
Qed.

(** A call that succeeds leaves the chain fulfilled. *)
Lemma safeAskOpenAI_Return prompt w v w' :
  safeAskOpenAI cfg env prompt w = (Return v, w') ->
  chain w = Fulfilled /\ chain w' = Fulfilled.
Proof.
  destruct (chain w) as [|reason] eqn:Hch.
  - rewrite (safeAskOpenAI_unfold _ _ Hch).
    destruct (retryLoop _ _ _ _ _ _) as [[out|err] w1]; intros [= <- <-].
    split; reflexivity.
  - rewrite (safeAskOpenAI_rejected _ _ _ Hch). discriminate.
Qed.

Lemma submitAll_rejected calls : forall w reason,
  chain w = Rejected reason ->
  exists w',
    submitAll cfg env calls w = (map (fun _ => Throw reason) calls, w')
    /\ log w' = log w
    /\ chain w' = Rejected reason.
Proof.
  induction calls as [|[gap prompt] rest IH]; intros w reason Hch; simpl.
  - exists w. auto.
  - rewrite (safeAskOpenAI_rejected prompt _ reason) by exact Hch.
    destruct (IH (set_clock (clock w + Z.of_nat gap) w) reason Hch)
      as (w' & -> & Hlog & Hch').
    exists w'. auto.
Qed.

(** C1.  What the code does after a queued call fails: the chain stays
    rejected, so every call submitted afterwards is rejected with the
    error of the call that failed, and none of them is run (the log does
    not grow: no wait, no attempt, no request). *)
Theorem failure_poisons_queue prompt w e w1 calls :
  chain w = Fulfilled ->
  safeAskOpenAI cfg env prompt w = (Throw e, w1) ->
  exists w2,
    submitAll cfg env calls w1 = (map (fun _ => Throw e) calls, w2)
    /\ log w2 = log w1
    /\ chain w2 = Rejected e.
Proof.
  intros Hch Hfail. apply submitAll_rejected.
  eapply safeAskOpenAI_Throw; eassumption.
Qed.
End Queue.

(** ** Order and spacing of the queued calls *)

Lemma history_add_log e w : history (add_log e w) = (history w ++ [(clock w, e)])%list.
Proof. reflexivity. Qed.

Lemma starts_add_log e w :
  starts (add_log e w)
  = (starts w ++ match e with
                 | FxStart p => [(clock w, p)]
                 | _ => []
                 end)%list.
Proof.
  unfold starts. rewrite history_add_log, omap_app. f_equal.
  destruct e; reflexivity.
Qed.

Lemma omap_start_of_none (l : list (Z * Effect)) :
  forallb (fun x => negb (is_start (snd x))) l = true -> omap start_of l = [].
Proof.
  induction l as [|[t e] l IH]; simpl; [reflexivity|].
  intros H. apply andb_prop in H as [He Hl].
  destruct e; try discriminate; simpl; apply IH, Hl.
Qed.

Lemma starts_grows (p : Effect -> bool) w w' :
  (forall e, p e = true -> is_start e = false) ->
  grows p w w' -> starts w' = starts w.
Proof.
  intros Hp (new & E & F). unfold starts, history.
  rewrite E, rev_app_distr, omap_app, (omap_start_of_none (rev new)).
  - apply app_nil_r.
  - rewrite forallb_forall in *. intros x Hx. apply in_rev in Hx.
    rewrite (Hp _ (F x Hx)). reflexivity.
Qed.

Lemma loop_fx_not_start e : loop_fx e = true -> is_start e = false.
Proof. destruct e; simpl; congruence. Qed.

Lemma spaced_nil g : spaced g [].
Proof. intros i j t1 p1 t2 p2 _ H. discriminate. Qed.

(** A start later by [g] than all the starts so far keeps them spaced. *)
Lemma spaced_snoc g (l : list (Z * string)) t' p' :
  spaced g l ->
  (forall t p, In (t, p) l -> t + g <= t') ->
  spaced g (l ++ [(t', p')]).
Proof.
  intros Hsp Hnew i j t1 p1 t2 p2 Hij Hi Hj.
  assert (Hjlen : (j < length (l ++ [(t', p')]))%nat)
    by (eapply lookup_lt_Some; exact Hj).
  rewrite length_app in Hjlen. simpl in Hjlen.
  destruct (decide (j < length l)%nat) as [Hjl|Hjl].
  - rewrite lookup_app_l in Hi, Hj by lia. exact (Hsp i j t1 p1 t2 p2 Hij Hi Hj).
  - assert (j = length l) by lia. subst j.
    rewrite lookup_app_l in Hi by lia.
    rewrite lookup_app_r, Nat.sub_diag in Hj by lia.
    injection Hj as <- <-.
    apply Hnew with p1. apply list_elem_of_In, list_elem_of_lookup. eauto.
Qed.

Lemma ceil_quot_spec a b :
  0 < b -> (ceil_quot a b - 1) * b < a <= ceil_quot a b * b.
Proof.
  intros Hb. unfold ceil_quot.
  pose proof (Z.mul_div_le (- a) b Hb).
  pose proof (Z.mul_succ_div_gt (- a) b Hb).
  nia.
Qed.

Section Spacing.
Context (cfg : Config) (env : Env).

Lemma minGapMs_bounds : 1 <= minGapMs cfg <= 60000.
Proof.
  unfold minGapMs.
  pose proof (ceil_quot_spec 60000 (Z.max 1 (OPENAI_RPM cfg))) as H.
  assert (Hm : 0 < Z.max 1 (OPENAI_RPM cfg)) by lia.
  specialize (H Hm). nia.
Qed.

(** A configured rate below one request a minute counts as one. *)
Lemma minGapMs_clamped : OPENAI_RPM cfg <= 1 -> minGapMs cfg = 60000.
Proof.
  intros Hrpm. unfold minGapMs.
  replace (Z.max 1 (OPENAI_RPM cfg)) with 1 by lia. reflexivity.
Qed.

(** When the configured rate is at least one request a minute, the gap is
    [ceil(60000 / OPENAI_RPM)]: the least [g] with [60000 <= g * rpm]. *)
Lemma minGapMs_is_ceil :
  1 <= OPENAI_RPM cfg ->
  (minGapMs cfg - 1) * OPENAI_RPM cfg < 60000 <= minGapMs cfg * OPENAI_RPM cfg.
Proof.
  intros Hrpm. unfold minGapMs.
  replace (Z.max 1 (OPENAI_RPM cfg)) with (OPENAI_RPM cfg) by lia.
  apply ceil_quot_spec. lia.
Qed.

(** A call starts no sooner than [minGapMs] after [lastCall]. *)
Lemma readyWorld_spec prompt w :
  lastCall w <= clock w ->
  let w1 := readyWorld cfg env prompt w in
  limiter_only w w1
  /\ lastCall w1 = lastCall w /\ chain w1 = chain w
  /\ clock w <= clock w1
  /\ exists t, lastCall w + minGapMs cfg <= t /\ t <= clock w1
               /\ starts w1 = (starts w ++ [(t, prompt)])%list.
Proof.
  intros Hpast w1. subst w1. unfold readyWorld.
  pose proof minGapMs_bounds as Hg.
  set (wait := Z.max 0 (lastCall w + minGapMs cfg - clock w)).
  assert (Hwait_le : wait <= minGapMs cfg) by lia.
  assert (Hwait_ge : lastCall w + minGapMs cfg - clock w <= wait) by lia.
  clearbody wait.
  destruct (0 <? wait) eqn:Hwait.
  - apply Z.ltb_lt in Hwait.
    assert (Hexact : timerMs wait = wait) by (apply timerMs_exact; lia).
    split; [destruct w; reflexivity|].
    split; [reflexivity|]. split; [reflexivity|].
    split; [simpl; rewrite Hexact; lia|].
    exists (clock w + timerMs wait + Z.of_nat (lag env (length (log w)))).
    split; [rewrite Hexact|split; [simpl; lia|]].
    + lia.
    + rewrite starts_add_log.
      change (starts (delay env wait w).2) with (starts (add_log (FxDelay wait) w)).
      rewrite starts_add_log, app_nil_r. reflexivity.
  - apply Z.ltb_ge in Hwait.
    split; [destruct w; reflexivity|].
    split; [reflexivity|]. split; [reflexivity|].
    split; [simpl; lia|].
    exists (clock w). split; [lia|]. split; [simpl; lia|].
    apply starts_add_log.
Qed.

Lemma limiter_inv_idle g gap w :
  limiter_inv g w -> limiter_inv g (set_clock (clock w + Z.of_nat gap) w).
Proof.
  intros (Hpast & Hlast & Hsp). split; [simpl; lia|]. split; assumption.
Qed.

(** The invariant of the queue, and which calls have started. *)
Lemma safeAskOpenAI_inv prompt w r w' :
  limiter_inv (minGapMs cfg) w ->
  safeAskOpenAI cfg env prompt w = (r, w') ->
  limiter_inv (minGapMs cfg) w'
  /\ map snd (starts w')
     = (map snd (starts w)
          ++ match chain w with
             | Fulfilled => [prompt]
             | Rejected _ => []
             end)%list.
Proof.
  intros (Hpast & Hlast & Hsp). destruct (chain w) as [|reason] eqn:Hch.
  - rewrite (safeAskOpenAI_unfold _ _ _ _ Hch).
    destruct (readyWorld_spec prompt w Hpast)
      as (_ & Hlc1 & Hch1 & Hclk1 & t & Ht & Ht1 & Hst1).
    destruct (retryLoop _ _ _ _ _ _) as [res w2] eqn:Hloop.
    pose proof (retryLoop_step _ _ _ _ _ _ _ _ Hloop) as ((_ & Hclk2 & G2) & Hch2 & Hpast2).
    pose proof (starts_grows _ _ _ loop_fx_not_start G2) as Hst2.
    assert (Hsp2 : spaced (minGapMs cfg) (starts w2)).
    { rewrite Hst2, Hst1. apply spaced_snoc; [exact Hsp|].
      intros t0 p0 Hin. specialize (Hlast eq_refl _ _ Hin). lia. }
    assert (Hprompts : map snd (starts w2) = (map snd (starts w) ++ [prompt])%list).
    { rewrite Hst2, Hst1, map_app. reflexivity. }
    destruct res as [out|err]; intros [= <- <-]; (split; [|exact Hprompts]).
    + apply retryLoop_Return in Hloop.
      split; [simpl; lia|]. split; [|exact Hsp2].
      intros _ t0 p0 Hin. change (starts (set_chain Fulfilled w2)) with (starts w2) in Hin.
      rewrite Hst2, Hst1 in Hin. simpl. rewrite Hloop.
      apply in_app_or in Hin as [Hin|[[= <- <-]|[]]].
      * specialize (Hlast eq_refl _ _ Hin). lia.
      * lia.
    + split; [simpl; lia|]. split; [|exact Hsp2].
      intros Habs. discriminate Habs.
  - rewrite (safeAskOpenAI_rejected _ _ _ _ _ Hch). intros [= <- <-].
    split; [|symmetry; apply app_nil_r].
    split; [exact Hpast|]. split; [|exact Hsp]. rewrite Hch. discriminate.
Qed.

(** The calls that started are the first [k] of the submitted ones, in
    the order of submission; all of them when every caller got a value. *)
Lemma submitAll_inv calls : forall w rs w',
  limiter_inv (minGapMs cfg) w ->
  submitAll cfg env calls w = (rs, w') ->
  limiter_inv (minGapMs cfg) w'
  /\ exists k,
      map snd (starts w') = (map snd (starts w) ++ firstn k (map snd calls))%list
      /\ ((forall r, In r rs -> exists v, r = Return v) -> k = length calls).
Proof.
  induction calls as [|[gap prompt] rest IH]; intros w rs w' Hinv; simpl.
  - intros [= <- <-]. split; [exact Hinv|]. exists 0%nat.
    split; [symmetry; apply app_nil_r|reflexivity].
  - destruct (safeAskOpenAI _ _ _ _) as [r w1] eqn:Hcall.
    destruct (submitAll _ _ rest w1) as [rs' w2] eqn:Hrest.
    intros [= <- <-].
    pose proof (safeAskOpenAI_inv prompt _ _ _ (limiter_inv_idle _ gap _ Hinv) Hcall)
      as (Hinv1 & Hst1).
    destruct (IH _ _ _ Hinv1 Hrest) as (Hinv2 & k & Hst2 & Hall).
    split; [exact Hinv2|].
    change (starts (set_clock (clock w + Z.of_nat gap) w)) with (starts w) in Hst1.
    change (chain (set_clock (clock w + Z.of_nat gap) w)) with (chain w) in Hst1.
    destruct (chain w) as [|reason] eqn:Hch.
    + exists (S k). split.
      * rewrite Hst2, Hst1, <- app_assoc. reflexivity.
      * intros Hok. f_equal. apply Hall. intros r0 Hr0. apply Hok. right. exact Hr0.
    + exists 0%nat. split.
      * destruct (submitAll_rejected cfg env rest w1 reason) as (w2' & E & Hlog & _).
        { rewrite (safeAskOpenAI_rejected cfg env prompt
                     (set_clock (clock w + Z.of_nat gap) w) reason Hch) in Hcall.
          injection Hcall as _ <-. exact Hch. }
        rewrite Hrest in E. injection E as _ <-.
        unfold starts, history. rewrite Hlog.
        fold (history w1). fold (starts w1). rewrite Hst1. reflexivity.
      * intros Hok. destruct (Hok r (or_introl eq_refl)) as [v ->].
        apply safeAskOpenAI_Return in Hcall as [Habs _]. simpl in Habs. congruence.
Qed.

(** The gap is [ceil(60000 / max(1, OPENAI_RPM))] for every setting. *)
Lemma minGapMs_is_ceil_of_clamped :
  (minGapMs cfg - 1) * Z.max 1 (OPENAI_RPM cfg) < 60000
  <= minGapMs cfg * Z.max 1 (OPENAI_RPM cfg).
Proof. unfold minGapMs. apply ceil_quot_spec. lia. Qed.

(** C4, as amended.  For a limiter configured at any integer rate
    [OPENAI_RPM] and any sequence of submissions (with any pauses between
    them, none in a burst) to a queue that has not been used yet: the gap
    is [ceil(60000 / max(1, OPENAI_RPM))], which is
    [ceil(60000 / OPENAI_RPM)] for a rate of one or more and 60000 ms for
    a rate of one or less; the calls that start are an initial segment of
    the submitted ones, in submission order (all of them when every call
    returned a value); and any two starts are at least the gap apart, the
    later submitted one later. *)
Theorem rate_limiter_order_and_spacing calls w0 rs w' :
  log w0 = [] ->
  lastCall w0 <= clock w0 ->
  submitAll cfg env calls w0 = (rs, w') ->
  ((minGapMs cfg - 1) * Z.max 1 (OPENAI_RPM cfg) < 60000
   <= minGapMs cfg * Z.max 1 (OPENAI_RPM cfg))
  /\ (1 <= OPENAI_RPM cfg ->
      (minGapMs cfg - 1) * OPENAI_RPM cfg < 60000 <= minGapMs cfg * OPENAI_RPM cfg)
  /\ (OPENAI_RPM cfg <= 1 -> minGapMs cfg = 60000)
  /\ (exists k, map snd (starts w') = firstn k (map snd calls)
                /\ ((forall r, In r rs -> exists v, r = Return v) ->
                    k = length calls))
  /\ spaced (minGapMs cfg) (starts w').
Proof.
  intros Hlog Hpast Hrun.
  assert (Hstarts : starts w0 = []) by (unfold starts, history; rewrite Hlog; reflexivity).
  assert (Hinv : limiter_inv (minGapMs cfg) w0).
  { split; [exact Hpast|]. rewrite Hstarts. split; [intros _ t p []|apply spaced_nil]. }
  destruct (submitAll_inv calls _ _ _ Hinv Hrun) as ((_ & _ & Hsp) & k & Hk & Hall).
  split; [apply minGapMs_is_ceil_of_clamped|].
  split; [apply minGapMs_is_ceil|]. split; [apply minGapMs_clamped|].
  split; [|exact Hsp].
  exists k. rewrite Hk, Hstarts. split; [reflexivity|exact Hall].
Qed.
End Spacing.

(** ** The cache and the orchestrator *)

Lemma quiet_limiter_step p w w' : quiet p w w' -> limiter_step p w w'.
Proof.
  intros (E & C & G). split; [|split; assumption].
  unfold only_time_passed in E. unfold limiter_only. rewrite E. reflexivity.
Qed.

Lemma limiter_step_weaken (p q : Effect -> bool) w w' :
  (forall e, p e = true -> q e = true) -> limiter_step p w w' -> limiter_step q w w'.
Proof.
  intros Hpq (E & C & G). split; [exact E|]. split; [exact C|].
  eapply grows_weaken; eassumption.
Qed.

Lemma limiter_step_set_chain p c w : limiter_step p w (set_chain c w).
Proof.
  split; [destruct w; reflexivity|]. split; [simpl; lia|].
  exists []; split; reflexivity.
Qed.

Lemma loop_fx_ai_fx e : loop_fx e = true -> ai_fx e = true.
Proof. unfold ai_fx. intros ->. apply orb_true_r. Qed.


Lemma grows_history (p : Effect -> bool) w w' (n : nat) x :
  grows p w w' -> history w !! n = Some x -> history w' !! n = Some x.
Proof.
  intros (new & E & _) H. unfold history in *. rewrite E, rev_app_distr.
  apply lookup_app_l_Some, H.
Qed.

Lemma history_request_index e w :
  history (add_log e w) !! length (log w) = Some (clock w, e).
Proof.
  rewrite history_add_log. apply list_lookup_middle.
  unfold history. symmetry. apply length_rev.
Qed.

Section Cache.
Context (eng : Engine) (cfg : Config) (env : Env).

Lemma readyWorld_step prompt w : limiter_step ai_fx w (readyWorld cfg env prompt w).
Proof.
  unfold readyWorld.
  set (wait := Z.max 0 _). set (w1 := if 0 <? wait then _ else _).
  transitivity w1.
  - subst w1. destruct (0 <? wait); [|reflexivity].
    apply quiet_limiter_step.
    eapply (post_delay env ai_fx wait); [reflexivity|apply surjective_pairing].
  - apply quiet_limiter_step.
    eapply (post_note ai_fx (FxStart prompt)); reflexivity.
Qed.

(** A queued call touches neither the cache nor the store. *)
Lemma safeAskOpenAI_step prompt w r w' :
  safeAskOpenAI cfg env prompt w = (r, w') -> limiter_step ai_fx w w'.
Proof.
  destruct (chain w) as [|reason] eqn:Hch.
  - rewrite (safeAskOpenAI_unfold _ _ _ _ Hch).
    destruct (retryLoop _ _ _ _ _ _) as [res w2] eqn:Hloop.
    apply retryLoop_step in Hloop as (Hstep & _ & _).
    apply (limiter_step_weaken _ _ _ _ loop_fx_ai_fx) in Hstep.
    pose proof (readyWorld_step prompt w) as Hready.
    destruct res; intros [= <- <-];
      (etransitivity; [exact Hready|]); (etransitivity; [exact Hstep|]);
      apply limiter_step_set_chain.
  - rewrite (safeAskOpenAI_rejected _ _ _ _ _ Hch). intros [= <- <-]. reflexivity.
Qed.

Lemma safeAskOpenAI_aiCache prompt w r w' :
  safeAskOpenAI cfg env prompt w = (r, w') -> aiCache w' = aiCache w.
Proof.
  intros H. apply safeAskOpenAI_step in H as (E & _ & _).
  unfold limiter_only in E. rewrite E. reflexivity.
Qed.

(** *** Where the values come from *)

Lemma answered_grows p w w' out :
  grows p w w' -> answered_by_service env w out -> answered_by_service env w' out.
Proof.
  intros G (n & tm & api & prompt & Hn & Hc).
  exists n, tm, api, prompt. split; [eapply grows_history; eassumption|exact Hc].
Qed.

Lemma produced_grows p w w' out :
  grows p w w' -> produced cfg env w out -> produced cfg env w' out.
Proof.
  intros G [H|[H|(Ho & n & tm & api & prompt & Hn & Hc)]].
  - left. eapply answered_grows; eassumption.
  - right. left. exact H.
  - right. right. split; [exact Ho|].
    exists n, tm, api, prompt. split; [eapply grows_history; eassumption|exact Hc].
Qed.

Lemma create_produced api prompt w text w' :
  create env api prompt w = (Return text, w') ->
  produced cfg env w' (default noReplyText text).
Proof.
  unfold create, bind, request.
  destruct (completion env (length (log w))) as [text'|e] eqn:Hc; [|discriminate].
  intros [= <- <-].
  pose proof (history_request_index (FxCompletion api prompt) w) as Hn.
  destruct text' as [s|]; simpl.
  - left. exists (length (log w)), (clock w), api, prompt. split; assumption.
  - right. right. split; [reflexivity|].
    exists (length (log w)), (clock w), api, prompt. split; assumption.
Qed.

Lemma askOpenAI_produced prompt w out w' :
  askOpenAI cfg env prompt w = (Return out, w') -> produced cfg env w' out.
Proof.
  unfold askOpenAI.
  destruct (OPENAI_API_KEY cfg) eqn:Hkey; simpl.
  2:{ intros [= <- <-]. right. left. split; [exact Hkey|reflexivity]. }
  unfold try_catch at 1.
  destruct (responsesApi cfg).
  - unfold bind at 1.
    destruct (create env Responses prompt w) as [[text|e1] w1] eqn:Hc1.
    + intros [= <- <-]. eapply create_produced, Hc1.
    + unfold try_catch. destruct (chatApi cfg); [|discriminate].
      unfold bind.
      destruct (create env ChatCompletions prompt w1) as [[text|e2] w2] eqn:Hc2;
        [|discriminate].
      intros [= <- <-]. eapply create_produced, Hc2.
  - unfold throw at 1. unfold try_catch. destruct (chatApi cfg); [|discriminate].
    unfold bind.
    destruct (create env ChatCompletions prompt w) as [[text|e2] w2] eqn:Hc2;
      [|discriminate].
    intros [= <- <-]. eapply create_produced, Hc2.
Qed.

Lemma retryLoop_produced prompt fuel : forall attempt w out w',
  retryLoop cfg env prompt fuel attempt w = (Return out, w') ->
  produced cfg env w' out.
Proof.
  induction fuel as [|fuel IH]; intros attempt w out w';
    rewrite retryLoop_unfold;
    destruct (askOpenAI cfg env prompt (beginAttempt attempt w))
      as [[v|err] w1] eqn:Hask;
    try (intros [= <- <-]; apply askOpenAI_produced in Hask; exact Hask);
    destruct (_ || _); try discriminate.
  apply IH.
Qed.

Lemma safeAskOpenAI_produced prompt w out w' :
  safeAskOpenAI cfg env prompt w = (Return out, w') -> produced cfg env w' out.
Proof.
  intros H. destruct (safeAskOpenAI_Return _ _ _ _ _ _ H) as [Hch _].
  rewrite (safeAskOpenAI_unfold _ _ _ _ Hch) in H.
  destruct (retryLoop _ _ _ _ _ _) as [[v|err] w2] eqn:Hloop; [|discriminate].
  injection H as <- <-. apply retryLoop_produced in Hloop. exact Hloop.
Qed.

(** *** The orchestrator, case by case *)

Lemma answer_no_entry q l tp h w :
  aiCache w !! cacheKey eng q l tp h = None ->
  answerWithSensorAI eng cfg env q l tp h w = missPath eng cfg env q l tp h w.
Proof.
  intros Hnone. unfold answerWithSensorAI, missPath.
  unfold bind at 1. unfold getCache. rewrite Hnone. reflexivity.
Qed.

Lemma answer_stale q l tp h w entry :
  aiCache w !! cacheKey eng q l tp h = Some entry ->
  CACHE_TTL_MS cfg < clock w - t entry ->
  answerWithSensorAI eng cfg env q l tp h w
  = missPath eng cfg env q l tp h
      (set_aiCache (delete (cacheKey eng q l tp h) (aiCache w)) w).
Proof.
  intros Hsome Hold. unfold answerWithSensorAI, missPath.
  unfold bind at 1. unfold getCache. rewrite Hsome.
  apply Z.ltb_lt in Hold. rewrite Hold. reflexivity.
Qed.

Lemma answer_fresh q l tp h w entry :
  aiCache w !! cacheKey eng q l tp h = Some entry ->
  clock w - t entry <= CACHE_TTL_MS cfg ->
  answerWithSensorAI eng cfg env q l tp h w
  = if truthy (val entry) then (Return (val entry), w) else missPath eng cfg env q l tp h w.
Proof.
  intros Hsome Hfresh. unfold answerWithSensorAI, missPath.
  unfold bind at 1. unfold getCache. rewrite Hsome.
  apply Z.ltb_ge in Hfresh. rewrite Hfresh.
  destruct (truthy (val entry)); reflexivity.
Qed.

Lemma missPath_spec q l tp h w r w' :
  missPath eng cfg env q l tp h w = (r, w') ->
  exists w1,
    safeAskOpenAI cfg env (sensorPrompt eng q l tp h) w = (r, w1)
    /\ match r with
       | Return out =>
           w' = set_aiCache
                  (<[cacheKey eng q l tp h := {| t := clock w1; val := out |}]>
                     (aiCache w)) w1
       | Throw _ => w' = w1
       end.
Proof.
  unfold missPath, bind, setCache, ret.
  destruct (safeAskOpenAI _ _ _ _) as [[out|e] w1] eqn:Hcall; intros [= <- <-];
    exists w1; (split; [reflexivity|]); [|reflexivity].
  rewrite (safeAskOpenAI_aiCache _ _ _ _ Hcall). reflexivity.
Qed.

Lemma truthy_false s : truthy s = false <-> s = EmptyString.
Proof.
  unfold truthy. destruct (String.eqb s EmptyString) eqn:E; simpl.
  - apply String.eqb_eq in E. split; [intros _; exact E|reflexivity].
  - apply String.eqb_neq in E. split; [discriminate|contradiction].
Qed.

Lemma truthy_true s : truthy s = true <-> s <> EmptyString.
Proof. rewrite <- truthy_false. destruct (truthy s); split; congruence. Qed.

Lemma cacheKey_same_rounding q l tp h l' t' h' :
  same_rounding eng l tp h l' t' h' ->
  cacheKey eng q l' t' h' = cacheKey eng q l tp h.
Proof. intros (Hl & Ht & Hh). unfold cacheKey. rewrite Hl, Ht, Hh. reflexivity. Qed.
End Cache.

(** ** Requests sent by a queued call *)

Section Requests.
Context (eng : Engine) (cfg : Config) (env : Env).

Lemma create_requests api prompt w r w' :
  create env api prompt w = (r, w') -> completions w' = S (completions w).
Proof.
  unfold create, bind, request.
  destruct (completion env (length (log w))); intros [= <- <-]; reflexivity.
Qed.

Lemma create_monotone api prompt w r w' :
  create env api prompt w = (r, w') -> (completions w <= completions w')%nat.
Proof. intros H. rewrite (create_requests _ _ _ _ _ H). lia. Qed.



Lemma readyWorld_counts prompt w :
  attempts (readyWorld cfg env prompt w) = attempts w
  /\ completions (readyWorld cfg env prompt w) = completions w
  /\ count_fx is_start (readyWorld cfg env prompt w) = S (count_fx is_start w).
Proof.
  unfold readyWorld. destruct (0 <? _); repeat split.
Qed.

Lemma askOpenAI_no_key prompt w :
  OPENAI_API_KEY cfg = false ->
  askOpenAI cfg env prompt w = (Return noKeyText, w).
Proof. intros Hkey. unfold askOpenAI. rewrite Hkey. reflexivity. Qed.

(** Without an API key a queued call sends nothing, and on a healthy chain
    it returns the notice after one attempt. *)
Lemma safeAskOpenAI_no_key prompt w r w' :
  OPENAI_API_KEY cfg = false ->
  safeAskOpenAI cfg env prompt w = (r, w') ->
  completions w' = completions w
  /\ (chain w = Fulfilled -> r = Return noKeyText /\ attempts w' = S (attempts w)).
Proof.
  intros Hkey. destruct (chain w) as [|reason] eqn:Hch.
  - rewrite (safeAskOpenAI_unfold _ _ _ _ Hch), retryLoop_unfold,
      (askOpenAI_no_key _ _ Hkey).
    destruct (readyWorld_counts prompt w) as (Ha & Hc & _).
    intros [= <- <-]. split; [exact Hc|]. intros _. split; [reflexivity|].
    change (S (attempts (readyWorld cfg env prompt w)) = S (attempts w)).
    rewrite Ha. reflexivity.
  - rewrite (safeAskOpenAI_rejected _ _ _ _ _ Hch). intros [= <- <-].
    split; [reflexivity|discriminate].
Qed.

End Requests.

(** ** The claims on the cache *)

Section CacheClaims.
Context (eng : Engine) (cfg : Config) (env : Env).


(** C6, as amended.  If a call returned a non-empty value [v], the cache
    holds [v] under the fingerprint; as long as that entry is in the
    cache, whatever else the cache holds by then, and no more than the TTL
    has passed since the entry was stored, a call with the same question
    and readings that round to the same integers returns [v] and changes
    nothing, so no request is sent; once the entry is older than the TTL,
    reading it is a miss and removes it, and nothing else. *)
Theorem cached_answer_is_reused q l tp h w0 v w1 :
  answerWithSensorAI eng cfg env q l tp h w0 = (Return v, w1) ->
  v <> EmptyString ->
  exists entry,
    aiCache w1 !! cacheKey eng q l tp h = Some entry
    /\ val entry = v
    /\ (forall l' t' h' w2,
           same_rounding eng l tp h l' t' h' ->
           aiCache w2 !! cacheKey eng q l tp h = Some entry ->
           clock w2 - t entry <= CACHE_TTL_MS cfg ->
           answerWithSensorAI eng cfg env q l' t' h' w2 = (Return v, w2))
    /\ (forall w2,
           aiCache w2 !! cacheKey eng q l tp h = Some entry ->
           CACHE_TTL_MS cfg < clock w2 - t entry ->
           getCache cfg (cacheKey eng q l tp h) w2
           = (Return None,
              set_aiCache (delete (cacheKey eng q l tp h) (aiCache w2)) w2)).
Proof.
  intros Hrun Hv.
  assert (Hentry : exists entry,
             aiCache w1 !! cacheKey eng q l tp h = Some entry /\ val entry = v).
  { destruct (aiCache w0 !! cacheKey eng q l tp h) as [entry|] eqn:Hlook.
    - destruct (Z_lt_le_dec (CACHE_TTL_MS cfg) (clock w0 - t entry))
        as [Hold|Hfresh].
      + rewrite (answer_stale _ _ _ _ _ _ _ _ _ Hlook Hold) in Hrun.
        apply missPath_spec in Hrun as (w' & _ & ->).
        eexists. split; [apply lookup_insert_eq|reflexivity].
      + rewrite (answer_fresh _ _ _ _ _ _ _ _ _ Hlook Hfresh) in Hrun.
        destruct (truthy (val entry)).
        * injection Hrun as <- <-. exists entry. split; [exact Hlook|reflexivity].
        * apply missPath_spec in Hrun as (w' & _ & ->).
          eexists. split; [apply lookup_insert_eq|reflexivity].
    - rewrite (answer_no_entry _ _ _ _ _ _ _ _ Hlook) in Hrun.
      apply missPath_spec in Hrun as (w' & _ & ->).
      eexists. split; [apply lookup_insert_eq|reflexivity]. }
  destruct Hentry as (entry & Hlook & Hval).
  exists entry. split; [exact Hlook|]. split; [exact Hval|]. split.
  - intros l' t' h' w2 Hround Hcache Hfresh.
    assert (Hlook2 : aiCache w2 !! cacheKey eng q l' t' h' = Some entry).
    { rewrite (cacheKey_same_rounding _ _ _ _ _ _ _ _ Hround). exact Hcache. }
    rewrite (answer_fresh _ _ _ _ _ _ _ _ _ Hlook2 Hfresh), Hval.
    apply truthy_true in Hv. rewrite Hv. reflexivity.
  - intros w2 Hcache Hold. unfold getCache. rewrite Hcache.
    apply Z.ltb_lt in Hold. rewrite Hold. reflexivity.
Qed.

(** C3, as amended.  When the queued call fails, [answerWithSensorAI]
    throws the same error and stores nothing.  When it returns [out],
    every entry of the cache was there before or is [out] stored under the
    fingerprint, and [out] is a value [askOpenAI] produced: the text of a
    response of the completion service, or one of its two notices (no API
    key configured, response without text). *)
Theorem failure_propagates_and_cache_provenance q l tp h w :
  (forall cached w0 e w1,
      getCache cfg (cacheKey eng q l tp h) w = (Return cached, w0) ->
      cached = None \/ cached = Some EmptyString ->
      safeAskOpenAI cfg env (sensorPrompt eng q l tp h) w0 = (Throw e, w1) ->
      answerWithSensorAI eng cfg env q l tp h w = (Throw e, w1))
  /\ (forall e w',
         answerWithSensorAI eng cfg env q l tp h w = (Throw e, w') ->
         (exists w0,
             safeAskOpenAI cfg env (sensorPrompt eng q l tp h) w0 = (Throw e, w'))
         /\ forall k entry,
             aiCache w' !! k = Some entry -> aiCache w !! k = Some entry)
  /\ (forall out w',
         answerWithSensorAI eng cfg env q l tp h w = (Return out, w') ->
         forall k entry,
           aiCache w' !! k = Some entry ->
           aiCache w !! k = Some entry
           \/ (k = cacheKey eng q l tp h /\ val entry = out
               /\ produced cfg env w' out)).
Proof.
  split; [|split].
  - intros cached w0 e w1 Hget Hcached Hcall.
    unfold answerWithSensorAI. unfold bind at 1. rewrite Hget.
    destruct Hcached as [-> | ->]; simpl; unfold bind; rewrite Hcall; reflexivity.
  - intros e w' Hrun.
    destruct (aiCache w !! cacheKey eng q l tp h) as [entry|] eqn:Hlook.
    + destruct (Z_lt_le_dec (CACHE_TTL_MS cfg) (clock w - t entry))
        as [Hold|Hfresh].
      * rewrite (answer_stale _ _ _ _ _ _ _ _ _ Hlook Hold) in Hrun.
        apply missPath_spec in Hrun as (w1 & Hcall & ->).
        split; [eexists; exact Hcall|].
        intros k entry' Hk. rewrite (safeAskOpenAI_aiCache _ _ _ _ _ _ Hcall) in Hk.
        simpl in Hk. apply lookup_delete_Some in Hk as [_ Hk]. exact Hk.
      * rewrite (answer_fresh _ _ _ _ _ _ _ _ _ Hlook Hfresh) in Hrun.
        destruct (truthy (val entry)); [discriminate|].
        apply missPath_spec in Hrun as (w1 & Hcall & ->).
        split; [eexists; exact Hcall|].
        intros k entry' Hk. rewrite (safeAskOpenAI_aiCache _ _ _ _ _ _ Hcall) in Hk.
        exact Hk.
    + rewrite (answer_no_entry _ _ _ _ _ _ _ _ Hlook) in Hrun.
      apply missPath_spec in Hrun as (w1 & Hcall & ->).
      split; [eexists; exact Hcall|].
      intros k entry' Hk. rewrite (safeAskOpenAI_aiCache _ _ _ _ _ _ Hcall) in Hk.
      exact Hk.
  - intros out w' Hrun k entry' Hk.
    assert (Hmiss : forall wm,
               (forall k0 e0, aiCache wm !! k0 = Some e0 -> aiCache w !! k0 = Some e0) ->
               missPath eng cfg env q l tp h wm = (Return out, w') ->
               aiCache w !! k = Some entry'
               \/ (k = cacheKey eng q l tp h /\ val entry' = out
                   /\ produced cfg env w' out)).
    { intros wm Hsub Hm. apply missPath_spec in Hm as (w1 & Hcall & ->).
      simpl in Hk. apply lookup_insert_Some in Hk as [[<- <-]|[Hne Hk]].
      - right. split; [reflexivity|]. split; [reflexivity|].
        apply safeAskOpenAI_produced in Hcall.
        destruct Hcall as [(n & tm & api & p & Hn & Hc)|[H|(Ho & n & tm & api & p & Hn & Hc)]].
        + left. exists n, tm, api, p. split; assumption.
        + right. left. exact H.
        + right. right. split; [exact Ho|]. exists n, tm, api, p. split; assumption.
      - left. apply Hsub, Hk. }
    destruct (aiCache w !! cacheKey eng q l tp h) as [entry|] eqn:Hlook.
    + destruct (Z_lt_le_dec (CACHE_TTL_MS cfg) (clock w - t entry))
        as [Hold|Hfresh].
      * rewrite (answer_stale _ _ _ _ _ _ _ _ _ Hlook Hold) in Hrun.
        eapply Hmiss; [|exact Hrun]. simpl.
        intros k0 e0 Hk0. apply lookup_delete_Some in Hk0 as [_ Hk0]. exact Hk0.
      * rewrite (answer_fresh _ _ _ _ _ _ _ _ _ Hlook Hfresh) in Hrun.
        destruct (truthy (val entry)).
        -- injection Hrun as <- <-. left. exact Hk.
        -- eapply Hmiss; [|exact Hrun]. auto.
    + rewrite (answer_no_entry _ _ _ _ _ _ _ _ Hlook) in Hrun.
      eapply Hmiss; [|exact Hrun]. auto.
Qed.
End CacheClaims.

(** ** The store and the LINE transport *)

Lemma grows_intro (p : Effect -> bool) w w' new :
  log w' = (new ++ log w)%list ->
  forallb (fun x => p (snd x)) new = true ->
  grows p w w'.
Proof. intros E F. exists new. split; assumption. Qed.

Lemma performed_intro e w w' new :
  log w' = (new ++ log w)%list -> In e (map snd new) -> performed e w w'.
Proof. intros E I. exists new. split; assumption. Qed.

Ltac grows_tac :=
  first [ apply (grows_intro _ _ _ []); [reflexivity|reflexivity]
        | eapply (grows_intro _ _ _ [_]); [reflexivity|reflexivity]
        | eapply (grows_intro _ _ _ [_; _]); [reflexivity|reflexivity]
        | eapply (grows_intro _ _ _ [_; _; _]); [reflexivity|reflexivity] ].

Ltac performed_tac :=
  first [ eapply (performed_intro _ _ _ [_]); [reflexivity|simpl; tauto]
        | eapply (performed_intro _ _ _ [_; _]); [reflexivity|simpl; tauto]
        | eapply (performed_intro _ _ _ [_; _; _]); [reflexivity|simpl; tauto] ].

Ltac bystander_tac :=
  split; [reflexivity|split; [reflexivity|split; [reflexivity|grows_tac]]].

#[export] Instance bystander_refl p : Reflexive (bystander p).
Proof.
  intros w. split; [reflexivity|]. split; [reflexivity|].
  split; [reflexivity|apply grows_refl].
Qed.

#[export] Instance bystander_trans p : Transitive (bystander p).
Proof.
  intros w1 w2 w3 (P1 & N1 & S1 & G1) (P2 & N2 & S2 & G2).
  split; [congruence|]. split; [congruence|]. split; [congruence|].
  eapply grows_trans; eassumption.
Qed.

Lemma bystander_weaken (p q : Effect -> bool) w w' :
  (forall e, p e = true -> q e = true) -> bystander p w w' -> bystander q w w'.
Proof.
  intros Hpq (P & N & S & G).
  split; [exact P|]. split; [exact N|]. split; [exact S|].
  eapply grows_weaken; eassumption.
Qed.

Lemma bystander_count (p q : Effect -> bool) w w' :
  (forall e, p e = true -> q e = false) ->
  bystander p w w' -> count_fx q w' = count_fx q w.
Proof. intros Hpq (_ & _ & _ & G). eapply grows_count; eassumption. Qed.

Lemma performed_grows_r p e w w1 w2 :
  performed e w w1 -> grows p w1 w2 -> performed e w w2.
Proof.
  intros (n1 & E1 & I1) (n2 & E2 & _). exists (n2 ++ n1)%list. split.
  - rewrite E2, E1. apply app_assoc.
  - rewrite map_app. apply in_or_app. right. exact I1.
Qed.

Lemma performed_grows_l p e w w1 w2 :
  grows p w w1 -> performed e w1 w2 -> performed e w w2.
Proof.
  intros (n1 & E1 & _) (n2 & E2 & I2). exists (n2 ++ n1)%list. split.
  - rewrite E2, E1. apply app_assoc.
  - rewrite map_app. apply in_or_app. left. exact I2.
Qed.

Section Transports.
Context (eng : Engine) (cfg : Config) (env : Env).

Lemma user_findUnique_spec uid w r w' :
  user_findUnique env uid w = (r, w') -> bystander user_fx w w'.
Proof.
  unfold user_findUnique, store_request, bind, request, gets, ret, throw.
  destruct (storeDown env (length (log w))); intros [= <- <-]; bystander_tac.
Qed.

Lemma user_create_spec uid w r w' :
  user_create env uid w = (r, w') -> bystander user_fx w w'.
Proof.
  unfold user_create, store_request, bind, request, gets, ret, throw, modify.
  destruct (storeDown env (length (log w))); [intros [= <- <-]; bystander_tac|].
  destruct (find_user _ _); intros [= <- <-]; bystander_tac.
Qed.

Lemma pendingReply_findUnique_spec token w r w' :
  pendingReply_findUnique env token w = (r, w') ->
  bystander is_find w w'
  /\ forall found, r = Return found ->
                   found = find_by_token token (pendingReplies w).
Proof.
  unfold pendingReply_findUnique, store_request, bind, request, gets, ret, throw.
  destruct (storeDown env (length (log w))); intros [= <- <-];
    (split; [bystander_tac|]); intros found [= <-]; reflexivity.
Qed.

Lemma pendingReply_create_spec token uid mtype txt w r w' :
  pendingReply_create env token uid mtype txt w = (r, w') ->
  grows is_create w w'
  /\ lastSensorData w' = lastSensorData w
  /\ match r with
     | Return created =>
         find_by_token token (pendingReplies w) = None
         /\ created = {| id := nextId w; replyToken := token; userId := uid;
                         messageType := mtype; text := txt |}
         /\ pendingReplies w' = (pendingReplies w ++ [created])%list
         /\ nextId w' = nextId w + 1
     | Throw _ => pendingReplies w' = pendingReplies w /\ nextId w' = nextId w
     end.
Proof.
  unfold pendingReply_create, store_request, bind, request, gets, ret, throw.
  destruct (storeDown env (length (log w))).
  - intros [= <- <-]. split; [grows_tac|]. split; [reflexivity|]. split; reflexivity.
  - simpl. destruct (find_by_token token (pendingReplies w)) eqn:Hfind;
      intros [= <- <-]; (split; [grows_tac|]); (split; [reflexivity|]).
    + split; reflexivity.
    + split; [reflexivity|]. split; [reflexivity|]. split; reflexivity.
Qed.

(** [replyToUser] never throws: a failure of the transport is logged. *)
Lemma replyToUser_spec token msg w r w' :
  replyToUser eng env token msg w = (r, w') ->
  r = Return tt
  /\ bystander reply_fx w w'
  /\ performed (FxReply token (clipTo eng 1000 msg)) w w'.
Proof.
  unfold replyToUser, try_catch, axios_post, bind, request, note, modify, ret, throw.
  destruct (lineDown env (length (log w))); intros [= <- <-];
    (split; [reflexivity|]); (split; [bystander_tac|performed_tac]).
Qed.

Lemma axios_post_spec (p : Effect -> bool) e w r w' :
  p e = true ->
  axios_post env e w = (r, w') ->
  bystander p w w' /\ performed e w w'.
Proof.
  intros Hp. unfold axios_post, bind, request, ret, throw.
  destruct (lineDown env (length (log w))); intros [= <- <-];
    (split; [|performed_tac]);
    (split; [reflexivity|split; [reflexivity|split; [reflexivity|]]]);
    eapply (grows_intro _ _ _ [_]); try reflexivity; simpl;
    rewrite Hp; reflexivity.
Qed.

(** [deletePendingReply] asks the store to delete once and never throws:
    when the store fails, the failure is logged and the record stays. *)
Lemma deletePendingReply_spec i w r w' :
  deletePendingReply env i w = (r, w') ->
  r = Return tt
  /\ nextId w' = nextId w
  /\ lastSensorData w' = lastSensorData w
  /\ grows delete_fx w w'
  /\ deletes w' = S (deletes w)
  /\ performed (FxPendingDelete i) w w'
  /\ (pendingReplies w'
      = List.filter (fun r => negb (id r =? i)) (pendingReplies w)
      \/ (pendingReplies w' = pendingReplies w
          /\ performed (FxError "PendingReply delete failed") w w')).
Proof.
  unfold deletePendingReply, try_catch, pendingReply_delete, store_request,
    bind, request, gets, note, modify, ret, throw.
  assert (Hshape : forall P1 P2 P3 P4 P5 P6 : Prop,
             P1 -> P2 -> P3 -> P4 -> P5 -> P6 ->
             Return tt = Return tt /\ P1 /\ P2 /\ P3 /\ P4 /\ P5 /\ P6)
    by (intros; repeat split; assumption).
  destruct (storeDown env (length (log w))).
  - intros [= <- <-]. apply Hshape; try reflexivity; [grows_tac|performed_tac|].
    right. split; [reflexivity|performed_tac].
  - simpl. destruct (has_id i (pendingReplies w)); intros [= <- <-];
      apply Hshape; try reflexivity; try grows_tac; try performed_tac.
    + left. reflexivity.
    + right. split; [reflexivity|performed_tac].
Qed.

(** The orchestrator leaves the store alone. *)
Lemma answerWithSensorAI_step q l tp h w r w' :
  answerWithSensorAI eng cfg env q l tp h w = (r, w') -> ai_step w w'.
Proof.
  assert (Hmiss : forall wm r' w'',
             missPath eng cfg env q l tp h wm = (r', w'') -> ai_step wm w'').
  { intros wm r' w'' Hm. apply missPath_spec in Hm as (w1 & Hcall & Hw'').
    apply safeAskOpenAI_step in Hcall as (E & C & G).
    unfold limiter_only in E.
    destruct r'; subst w''; (split; [|split]); simpl; try assumption;
      unfold store_untouched; simpl; rewrite E; reflexivity. }
  destruct (aiCache w !! cacheKey eng q l tp h) as [entry|] eqn:Hlook.
  - destruct (Z_lt_le_dec (CACHE_TTL_MS cfg) (clock w - t entry))
      as [Hold|Hfresh].
    + rewrite (answer_stale _ _ _ _ _ _ _ _ _ Hlook Hold). intros Hm.
      apply Hmiss in Hm as (E & C & G). split; [|split]; assumption.
    + rewrite (answer_fresh _ _ _ _ _ _ _ _ _ Hlook Hfresh).
      destruct (truthy (val entry)); [|apply Hmiss].
      intros [= <- <-]. split; [|split]; [destruct w; reflexivity|lia|apply grows_refl].
  - rewrite (answer_no_entry _ _ _ _ _ _ _ _ Hlook). apply Hmiss.
Qed.

Lemma answerWithSensorAI_bystander q l tp h w r w' :
  answerWithSensorAI eng cfg env q l tp h w = (r, w') -> bystander ai_fx w w'.
Proof.
  intros H. apply answerWithSensorAI_step in H as (E & _ & G).
  unfold store_untouched in E.
  split; [rewrite E; reflexivity|]. split; [rewrite E; reflexivity|].
  split; [rewrite E; reflexivity|exact G].
Qed.
End Transports.

(** ** The event processor *)

(** One step of a run: the first computation of a [bind] returned [a] in
    world [w1] (equation [E]), or threw [e]. *)
Tactic Notation "step" hyp(H) "as" ident(a) ident(e) ident(w1) ident(E) :=
  match type of H with
  | bind ?c ?k ?w = _ =>
      destruct (c w) as [[a|e] w1] eqn:E;
      [rewrite (bind_Return c k w _ _ E) in H
      |rewrite (bind_Throw c k w _ _ E) in H];
      cbv beta in H
  end.

Lemma bind_bind {A B C} (c : M A) (k : A -> M B) (k' : B -> M C) w :
  bind (bind c k) k' w = bind c (fun a => bind (k a) k') w.
Proof. unfold bind. destruct (c w) as [[a|e] w1]; reflexivity. Qed.

Lemma bind_ext {A B} (c : M A) (k k' : A -> M B) w :
  (forall a w1, k a w1 = k' a w1) -> bind c k w = bind c k' w.
Proof. intros H. unfold bind. destruct (c w) as [[a|e] w1]; auto. Qed.

Lemma find_by_token_None token rs :
  find_by_token token rs = None <-> ~ In token (map replyToken rs).
Proof.
  unfold find_by_token. induction rs as [|r rs IH]; simpl; [tauto|].
  destruct (String.eqb (replyToken r) token) eqn:E.
  - apply String.eqb_eq in E. split; [discriminate|]. intros H. exfalso. apply H. auto.
  - apply String.eqb_neq in E. rewrite IH. tauto.
Qed.

Lemma find_by_token_filter token (f : PendingReply -> bool) rs :
  find_by_token token rs = None -> find_by_token token (List.filter f rs) = None.
Proof.
  rewrite !find_by_token_None. intros H Hin. apply H.
  apply in_map_iff in Hin as (r & Hr & Hin). apply List.filter_In in Hin as [Hin _].
  apply in_map_iff. eauto.
Qed.

Lemma NoDup_map_filter {A B} (g : A -> B) (f : A -> bool) (l : list A) :
  List.NoDup (map g l) -> List.NoDup (map g (List.filter f l)).
Proof.
  induction l as [|a l IH]; simpl; [auto|].
  intros H. apply List.NoDup_cons_iff in H as [Hnotin Hnd].
  destruct (f a); simpl; [|auto].
  apply List.NoDup_cons; [|auto].
  intros Hin. apply Hnotin. apply in_map_iff in Hin as (x & Hx & Hin).
  apply List.filter_In in Hin as [Hin _]. apply in_map_iff. eauto.
Qed.

Lemma NoDup_map_snoc token rs created :
  List.NoDup (map replyToken rs) ->
  find_by_token token rs = None ->
  replyToken created = token ->
  List.NoDup (map replyToken (rs ++ [created])).
Proof.
  intros Hnd Hnone Htok. apply find_by_token_None in Hnone.
  rewrite map_app. simpl. rewrite Htok. clear Htok.
  induction (map replyToken rs) as [|x l IH]; simpl.
  - apply List.NoDup_cons; [tauto|apply List.NoDup_nil].
  - apply List.NoDup_cons_iff in Hnd as [Hx Hl]. apply List.NoDup_cons.
    + intros Hin. apply in_app_or in Hin as [Hin|[<-|[]]]; [tauto|].
      apply Hnone. left. reflexivity.
    + apply IH; [exact Hl|]. intros Hin. apply Hnone. right. exact Hin.
Qed.

Section EventProcessor.
Context (eng : Engine) (cfg : Config) (env : Env).

Lemma processMessageEvent_phases event w :
  processMessageEvent eng cfg env event w
  = (entry <- admission eng env event ;;
     match entry with
     | None => ret tt
     | Some created => respond eng cfg env event created
     end) w.
Proof.
  unfold processMessageEvent, admission. cbv zeta.
  rewrite bind_bind. apply bind_ext. intros known w1.
  rewrite bind_bind. apply bind_ext. intros _ w2.
  rewrite bind_bind. apply bind_ext. intros [existing|] w3; [reflexivity|].
  rewrite bind_bind. apply bind_ext. intros created w4. reflexivity.
Qed.

Lemma upsert_user_spec uid (known : bool) w r w' :
  (if known then ret tt else user_create env uid) w = (r, w') ->
  bystander user_fx w w'.
Proof.
  destruct known; [intros [= <- <-]; reflexivity|apply user_create_spec].
Qed.

Lemma user_fx_admission e : user_fx e = true -> admission_fx e = true.
Proof. unfold admission_fx. intros ->. reflexivity. Qed.

Lemma is_find_admission e : is_find e = true -> admission_fx e = true.
Proof. unfold admission_fx. intros ->. apply orb_true_r. Qed.

(** The first phase. *)
Lemma admission_spec event w r w1 :
  admission eng env event w = (r, w1) ->
  lastSensorData w1 = lastSensorData w
  /\ match r with
     | Return (Some created) =>
         find_by_token (event_replyToken event) (pendingReplies w) = None
         /\ id created = nextId w
         /\ replyToken created = event_replyToken event
         /\ pendingReplies w1 = (pendingReplies w ++ [created])%list
         /\ nextId w1 = nextId w + 1
     | Return None =>
         find_by_token (event_replyToken event) (pendingReplies w) <> None
         /\ bystander admission_fx w w1
     | Throw e =>
         pendingReplies w1 = pendingReplies w
         /\ nextId w1 = nextId w
         /\ (find_by_token (event_replyToken event) (pendingReplies w) <> None ->
             grows admission_fx w w1)
     end.
Proof.
  unfold admission. cbv zeta. intros H.
  step H as known e wa Ea.
  2:{ injection H as <- <-.
      apply user_findUnique_spec in Ea as (P & N & S & G).
      split; [exact S|]. split; [exact P|]. split; [exact N|].
      intros _. eapply grows_weaken; [apply user_fx_admission|exact G]. }
  apply user_findUnique_spec in Ea.
  step H as u e wb Eb.
  2:{ injection H as <- <-.
      apply upsert_user_spec in Eb.
      destruct (bystander_trans _ _ _ _ Ea Eb) as (P & N & S & G).
      split; [exact S|]. split; [exact P|]. split; [exact N|].
      intros _. eapply grows_weaken; [apply user_fx_admission|exact G]. }
  apply upsert_user_spec in Eb.
  pose proof (bystander_weaken _ _ _ _ user_fx_admission
                (bystander_trans _ _ _ _ Ea Eb)) as Huser.
  clear Ea Eb. step H as found e wc Ec.
  2:{ injection H as <- <-.
      apply pendingReply_findUnique_spec in Ec as [Ec _].
      apply (bystander_weaken _ _ _ _ is_find_admission) in Ec.
      destruct (bystander_trans _ _ _ _ Huser Ec) as (P & N & S & G).
      split; [exact S|]. split; [exact P|]. split; [exact N|]. intros _. exact G. }
  apply pendingReply_findUnique_spec in Ec as [Ec Hfound].
  specialize (Hfound _ eq_refl).
  apply (bystander_weaken _ _ _ _ is_find_admission) in Ec.
  pose proof (bystander_trans _ _ _ _ Huser Ec) as (P & N & S & G).
  destruct Huser as (P0 & _). rewrite P0 in Hfound.
  destruct found as [existing|].
  - injection H as <- <-. split; [exact S|]. split; [congruence|].
    split; [exact P|]. split; [exact N|]. split; [exact S|exact G].
  - step H as created e wd Ed.
    + injection H as <- <-.
      apply pendingReply_create_spec in Ed as (_ & S' & Hnone & -> & P' & N').
      split; [congruence|]. split; [congruence|]. split; [simpl; congruence|].
      split; [reflexivity|]. split; [rewrite P', P; reflexivity|lia].
    + injection H as <- <-.
      apply pendingReply_create_spec in Ed as (_ & S' & P' & N').
      split; [congruence|]. split; [congruence|]. split; [congruence|].
      intros Habs. congruence.
Qed.
(** *** An event that is no duplicate is admitted *)

Lemma store_request_outcome e w r w' :
  store_request env e w = (r, w') ->
  log w' = (clock w, e) :: log w
  /\ users w' = users w
  /\ pendingReplies w' = pendingReplies w
  /\ match r with
     | Return _ => storeDown env (length (log w)) = false
     | Throw err =>
         err = StoreError "unreachable" /\ storeDown env (length (log w)) = true
     end.
Proof.
  unfold store_request, bind, request, ret, throw.
  destruct (storeDown env (length (log w))) eqn:D; intros [= <- <-]; auto.
Qed.

Lemma store_failed_at w w' x :
  log w' = x :: log w -> storeDown env (length (log w)) = true -> store_failed env w w'.
Proof.
  intros E D. exists (length (log w)). rewrite E. simpl. split; [lia|exact D].
Qed.

Lemma store_failed_later w w1 w' x :
  log w1 = x :: log w -> store_failed env w1 w' -> store_failed env w w'.
Proof.
  intros E (n & Hn & D). exists n. rewrite E in Hn. simpl in Hn. split; [lia|exact D].
Qed.

(** An event whose token has no pending record gets its record, unless the
    store could not be reached at one of the requests before or at the
    creation; nothing else makes the first phase fail. *)
Lemma admission_of_a_new_token event w r w1 :
  find_by_token (event_replyToken event) (pendingReplies w) = None ->
  admission eng env event w = (r, w1) ->
  (exists created, r = Return (Some created))
  \/ (r = Throw (StoreError "unreachable") /\ store_failed env w w1).
Proof.
  intros Hnone. unfold admission. cbv zeta. intros H.
  (* the user lookup *)
  unfold user_findUnique in H. rewrite bind_bind in H.
  step H as u e wa Ea; apply store_request_outcome in Ea as (La & Ua & Pa & Da).
  2:{ injection H as <- <-. destruct Da as [-> Da]. right. split; [reflexivity|].
      eapply store_failed_at; eassumption. }
  unfold bind at 1, gets in H.
  assert (Hrest : forall wb rb,
             log wb = log wa \/ (exists x, log wb = x :: log wa) ->
             pendingReplies wb = pendingReplies w ->
             (exists_ <- pendingReply_findUnique env (event_replyToken event) ;;
              match exists_ with
              | Some _ => ret None
              | None =>
                  created <- pendingReply_create env (event_replyToken event)
                               (source_userId event) (eventMessageType event)
                               (if truthy (eventText eng event)
                                then eventText eng event else "(ไม่มีข้อความ)") ;;
                  ret (Some created)
              end) wb = (rb, w1) ->
             (exists created, rb = Return (Some created))
             \/ (rb = Throw (StoreError "unreachable") /\ store_failed env w w1)).
  { intros wb rb Hlog Pb Hb.
    assert (Hto : forall w2, store_failed env wb w2 -> store_failed env w w2).
    { intros w2 F. eapply store_failed_later; [exact La|].
      destruct Hlog as [E|[x E]]; [|eapply store_failed_later; eassumption].
      destruct F as (n & Hn & D). exists n. rewrite <- E. auto. }
    unfold pendingReply_findUnique in Hb. rewrite bind_bind in Hb.
    step Hb as u' e wc Ec; apply store_request_outcome in Ec as (Lc & Uc & Pc & Dc).
    2:{ injection Hb as <- <-. destruct Dc as [-> Dc]. right. split; [reflexivity|].
        apply Hto. eapply store_failed_at; eassumption. }
    unfold bind at 1, gets in Hb. rewrite Pc, Pb, Hnone in Hb.
    unfold pendingReply_create in Hb. rewrite !bind_bind in Hb.
    step Hb as u'' e wd Ed; apply store_request_outcome in Ed as (Ld & Ud & Pd & Dd).
    2:{ injection Hb as <- <-. destruct Dd as [-> Dd]. right. split; [reflexivity|].
        apply Hto. eapply store_failed_later; [exact Lc|].
        eapply store_failed_at; eassumption. }
    rewrite bind_bind in Hb. unfold bind at 1, gets in Hb. cbv beta in Hb.
    rewrite Pd, Pc, Pb, Hnone in Hb.
    unfold bind, ret in Hb. injection Hb as <- _. left. eexists. reflexivity. }
  destruct (find_user (source_userId event) wa) eqn:Hknown.
  - unfold bind at 1, ret in H. eapply Hrest; [left; reflexivity|congruence|exact H].
  - unfold user_create in H. rewrite !bind_bind in H.
    step H as u' e wb Eb; apply store_request_outcome in Eb as (Lb & Ub & Pb & Db).
    2:{ injection H as <- <-. destruct Db as [-> Db]. right. split; [reflexivity|].
        eapply store_failed_later; [exact La|]. eapply store_failed_at; eassumption. }
    rewrite bind_bind in H. unfold bind at 1, gets in H. cbv beta in H.
    assert (Hstill : find_user (source_userId event) wb = false).
    { unfold find_user in *. rewrite Ub. exact Hknown. }
    rewrite Hstill in H. unfold bind at 1, modify in H.
    eapply Hrest; [| |exact H]; simpl; [right; eexists; exact Lb|congruence].
Qed.
End EventProcessor.

(** ** The second phase of the event processor *)

Lemma cleaned_after p i w w1 w' :
  (forall e, p e = true -> is_delete e = false) ->
  bystander p w w1 -> cleaned i w1 w' -> cleaned i w w'.
Proof.
  intros Hp Hby (Hn & Hs & Hd & Pd & Hrec).
  pose proof (bystander_count _ _ _ _ Hp Hby) as Hcount.
  destruct Hby as (P1 & N1 & S1 & G1).
  split; [rewrite Hn; exact N1|]. split; [rewrite Hs; exact S1|].
  split; [rewrite Hd; unfold deletes; rewrite Hcount; reflexivity|].
  split; [eapply performed_grows_l; eassumption|].
  destruct Hrec as [Hrec|[Hrec Perr]].
  - left. rewrite Hrec, P1. reflexivity.
  - right. split; [rewrite Hrec; exact P1|eapply performed_grows_l; eassumption].
Qed.

Lemma reply_fx_not_delete e : reply_fx e = true -> is_delete e = false.
Proof. destruct e; cbv; congruence. Qed.

Lemma ai_fx_not_delete e : ai_fx e = true -> is_delete e = false.
Proof. destruct e; cbv; congruence. Qed.

Lemma is_push_not_delete e : is_push e = true -> is_delete e = false.
Proof. destruct e; cbv; congruence. Qed.

Lemma admission_fx_not_delete e : admission_fx e = true -> is_delete e = false.
Proof. destruct e; cbv; congruence. Qed.

Section Respond.
Context (eng : Engine) (cfg : Config) (env : Env).

Lemma deletePendingReply_cleaned i w r w' :
  deletePendingReply env i w = (r, w') -> r = Return tt /\ cleaned i w w'.
Proof.
  intros H. apply deletePendingReply_spec in H as (R & Hn & Hs & _ & Hd & P & Hrec).
  split; [exact R|]. split; [exact Hn|]. split; [exact Hs|]. split; [exact Hd|].
  split; [exact P|exact Hrec].
Qed.

(** A reply followed by the deletion of the pending record: the end of
    three of the four branches. *)
Lemma reply_then_delete token msg i w r w' :
  (_ <- replyToUser eng env token msg ;; deletePendingReply env i) w = (r, w') ->
  r = Return tt
  /\ cleaned i w w'
  /\ performed (FxReply token (clipTo eng 1000 msg)) w w'
  /\ grows direct_fx w w'.
Proof.
  intros H. step H as u e w1 E1;
    apply replyToUser_spec in E1 as (R1 & B1 & P1); [|discriminate].
  pose proof H as H'.
  apply deletePendingReply_spec in H' as (_ & _ & _ & G2 & _).
  apply deletePendingReply_cleaned in H as (R & C).
  split; [exact R|].
  split; [eapply cleaned_after; [apply reply_fx_not_delete|exact B1|exact C]|].
  split; [eapply performed_grows_r; eassumption|].
  destruct B1 as (_ & _ & _ & G1).
  eapply grows_trans; eapply grows_weaken; try eassumption;
    unfold direct_fx; intros e0 ->; [reflexivity|apply orb_true_r].
Qed.

(** The second phase: when it returns, the store was asked once to delete
    the record; when it throws, it was not asked at all, and the record is
    still there. *)
Lemma respond_spec event created w r w' :
  respond eng cfg env event created w = (r, w') ->
  match r with
  | Return _ => cleaned (id created) w w'
  | Throw _ =>
      deletes w' = deletes w
      /\ pendingReplies w' = pendingReplies w
      /\ nextId w' = nextId w
      /\ lastSensorData w <> None
  end.
Proof.
  unfold respond. cbv zeta. unfold bind at 1, gets.
  destruct (lastSensorData w) as [stored|] eqn:Hsensor.
  2:{ intros H. apply reply_then_delete in H as (-> & C & _). exact C. }
  intros H. step H as d e w0 E0; apply convert_spec in E0 as [-> Hd].
  2:{ injection H as <- <-. repeat split. discriminate. }
  revert H.
  destruct (negb (existsb _ presetQuestions)).
  { intros H. apply reply_then_delete in H as (-> & C & _). exact C. }
  intros H. step H as u e w1 E1;
    apply replyToUser_spec in E1 as (R1 & B1 & _); [|discriminate].
  step H as aiText e w2 E2; apply answerWithSensorAI_bystander in E2.
  2:{ injection H as <- <-.
      pose proof (bystander_count _ _ _ _ reply_fx_not_delete B1) as D1.
      pose proof (bystander_count _ _ _ _ ai_fx_not_delete E2) as D2.
      destruct B1 as (P1 & N1 & _), E2 as (P2 & N2 & _).
      split; [unfold deletes; congruence|]. split; [congruence|].
      split; [congruence|discriminate]. }
  assert (Hto2 : forall i w3, cleaned i w2 w3 -> cleaned i w w3).
  { intros i w3 C. eapply cleaned_after; [apply reply_fx_not_delete|exact B1|].
    eapply cleaned_after; [apply ai_fx_not_delete|exact E2|exact C]. }
  destruct (negb (truthy (trim eng aiText))).
  { apply reply_then_delete in H as (-> & C & _). apply Hto2, C. }
  step H as u' e w3 E3;
    apply (axios_post_spec env is_push) in E3 as (B3 & _); try reflexivity.
  - apply deletePendingReply_cleaned in H as (-> & C).
    apply Hto2. eapply cleaned_after; [apply is_push_not_delete|exact B3|exact C].
  - injection H as <- <-.
    pose proof (bystander_count _ _ _ _ reply_fx_not_delete B1) as D1.
    pose proof (bystander_count _ _ _ _ ai_fx_not_delete E2) as D2.
    pose proof (bystander_count _ _ _ _ is_push_not_delete B3) as D3.
    destruct B1 as (P1 & N1 & _), E2 as (P2 & N2 & _), B3 as (P3 & N3 & _).
    split; [unfold deletes; congruence|]. split; [congruence|].
    split; [congruence|discriminate].
Qed.

End Respond.

(** ** The event processor, end to end *)

#[export] Instance grows_Reflexive p : Reflexive (grows p).
Proof. intros w. apply grows_refl. Qed.

#[export] Instance grows_Transitive p : Transitive (grows p).
Proof. intros w1 w2 w3. apply grows_trans. Qed.

Lemma bystander_grows (p q : Effect -> bool) w w' :
  (forall e, p e = true -> q e = true) -> bystander p w w' -> grows q w w'.
Proof. intros Hpq (_ & _ & _ & G). eapply grows_weaken; eassumption. Qed.

Lemma entry_fx_not_ai e : entry_fx e = true -> ai_fx e = false.
Proof. destruct e; cbv; congruence. Qed.

Lemma direct_fx_not_ai e : direct_fx e = true -> ai_fx e = false.
Proof. destruct e; cbv; congruence. Qed.

Lemma entry_fx_not_delete e : entry_fx e = true -> is_delete e = false.
Proof. destruct e; cbv; congruence. Qed.

Lemma not_ai_counts (p : Effect -> bool) w w' :
  (forall e, p e = true -> ai_fx e = false) ->
  grows p w w' ->
  count_fx is_start w' = count_fx is_start w
  /\ attempts w' = attempts w
  /\ completions w' = completions w.
Proof.
  intros Hp G.
  split; [|split]; (eapply grows_count; [|exact G]); intros e He;
    specialize (Hp e He); destruct e; try reflexivity; discriminate Hp.
Qed.

Section EndToEnd.
Context (eng : Engine) (cfg : Config) (env : Env).

Lemma admission_grows event : post (admission eng env event) (grows entry_fx).
Proof.
  unfold admission. cbv zeta.
  apply post_bind; try typeclasses eauto.
  { intros w r w' H. apply user_findUnique_spec in H.
    eapply bystander_grows; [|exact H]. intros [] ?; try discriminate; reflexivity. }
  intros known. apply post_bind; try typeclasses eauto.
  { intros w r w' H. apply upsert_user_spec in H.
    eapply bystander_grows; [|exact H]. intros [] ?; try discriminate; reflexivity. }
  intros _. apply post_bind; try typeclasses eauto.
  { intros w r w' H. apply pendingReply_findUnique_spec in H as [H _].
    eapply bystander_grows; [|exact H]. intros [] ?; try discriminate; reflexivity. }
  intros [existing|]; [apply post_ret; typeclasses eauto|].
  apply post_bind; try typeclasses eauto.
  { intros w r w' H. apply pendingReply_create_spec in H as (G & _).
    eapply grows_weaken; [|exact G]. intros [] ?; try discriminate; reflexivity. }
  intros created. apply post_ret; typeclasses eauto.
Qed.

(** After the one request to delete the record that was created for the
    event, no record has its token, unless the deletion failed and was
    logged. *)
Lemma record_gone_or_logged (p : Effect -> bool) event created w w1 w' :
  find_by_token (event_replyToken event) (pendingReplies w) = None ->
  pendingReplies w1 = (pendingReplies w ++ [created])%list ->
  grows p w w1 ->
  pendingReplies w'
  = List.filter (fun r => negb (id r =? id created)) (pendingReplies w1)
  \/ (pendingReplies w' = pendingReplies w1
      /\ performed (FxError "PendingReply delete failed") w1 w') ->
  find_by_token (event_replyToken event) (pendingReplies w') = None
  \/ performed (FxError "PendingReply delete failed") w w'.
Proof.
  intros Hnone Hrec G1 [Hrecs|[_ Perr]].
  - left. rewrite Hrecs, Hrec, List.filter_app. simpl.
    rewrite Z.eqb_refl. simpl. rewrite app_nil_r.
    apply find_by_token_filter, Hnone.
  - right. eapply performed_grows_l; eassumption.
Qed.

(** C2.  What the code does with the pending record of an event that
    passed the duplicate check (a record was created, so the serial id
    advanced).  When [processMessageEvent] returns, on any of its four
    branches, the store was asked to delete the record exactly once, and
    the record is gone unless that one deletion failed, which was logged
    and not tried again.  When it throws, which it does when the
    orchestrator or the push to LINE fails (or a value of the reading does
    not convert), the store was not asked at all and the record is still
    in the table. *)
Theorem pending_record_cleanup event w r w' :
  processMessageEvent eng cfg env event w = (r, w') ->
  nextId w' = nextId w + 1 ->
  match r with
  | Return _ =>
      deletes w' = S (deletes w)
      /\ (find_by_token (event_replyToken event) (pendingReplies w') = None
          \/ performed (FxError "PendingReply delete failed") w w')
  | Throw _ =>
      deletes w' = deletes w
      /\ exists created,
          In created (pendingReplies w')
          /\ replyToken created = event_replyToken event
          /\ id created = nextId w
  end.
Proof.
  rewrite processMessageEvent_phases. intros H Hcreated.
  step H as entry e w1 E1; pose proof (admission_grows _ _ _ _ E1) as G1;
    apply admission_spec in E1 as (_ & Hphase).
  2:{ injection H as <- <-. destruct Hphase as (_ & Hn & _). lia. }
  destruct entry as [created|].
  2:{ injection H as <- <-. destruct Hphase as (_ & _ & Hn & _). lia. }
  destruct Hphase as (Hnone & Hid & Htok & Hrec & Hn).
  pose proof (grows_count _ _ _ _ entry_fx_not_delete G1) as D1.
  apply respond_spec in H. destruct r as [[]|e].
  - destruct H as (_ & _ & Hd & _ & Hrecs).
    split; [|eapply record_gone_or_logged; eassumption].
    rewrite Hd. unfold deletes. rewrite D1. reflexivity.
  - destruct H as (Hd & Hp & _). split; [unfold deletes in *; congruence|].
    exists created. split; [|split; assumption].
    rewrite Hp, Hrec. apply in_or_app. right. left. reflexivity.
Qed.


(** A duplicate is skipped: the table and the serial id are untouched and
    the only effects are the user lookup, the user creation and the
    duplicate check. *)
Lemma processMessageEvent_duplicate event w r w' :
  find_by_token (event_replyToken event) (pendingReplies w) <> None ->
  processMessageEvent eng cfg env event w = (r, w') ->
  pendingReplies w' = pendingReplies w
  /\ nextId w' = nextId w
  /\ grows admission_fx w w'.
Proof.
  intros Hdup. rewrite processMessageEvent_phases. intros H.
  step H as entry e w1 E1; apply admission_spec in E1 as (_ & Hphase).
  2:{ injection H as <- <-. destruct Hphase as (Hp & Hn & G). auto. }
  destruct entry as [created|].
  - destruct Hphase as (Hnone & _). exfalso. exact (Hdup Hnone).
  - injection H as <- <-. destruct Hphase as (_ & Hp & Hn & _ & G). auto.
Qed.

(** The uniqueness of the tokens of the pending records is kept. *)
Lemma processMessageEvent_unique event w r w' :
  unique_tokens w ->
  processMessageEvent eng cfg env event w = (r, w') ->
  unique_tokens w'.
Proof.
  unfold unique_tokens. intros Huniq. rewrite processMessageEvent_phases. intros H.
  step H as entry e w1 E1; apply admission_spec in E1 as (_ & Hphase).
  2:{ injection H as <- <-. destruct Hphase as (-> & _). exact Huniq. }
  destruct entry as [created|].
  2:{ injection H as <- <-. destruct Hphase as (_ & -> & _). exact Huniq. }
  destruct Hphase as (Hnone & _ & Htok & Hrec & _).
  assert (Huniq1 : List.NoDup (map replyToken (pendingReplies w1))).
  { rewrite Hrec. eapply NoDup_map_snoc; eassumption. }
  apply respond_spec in H. destruct r as [[]|e].
  - destruct H as (_ & _ & _ & _ & [-> | [-> _]]); [|exact Huniq1].
    apply NoDup_map_filter, Huniq1.
  - destruct H as (_ & -> & _). exact Huniq1.
Qed.
End EndToEnd.

(** ** Duplicates and the uniqueness of tokens *)

Lemma skipped_intro w w' :
  pendingReplies w' = pendingReplies w ->
  nextId w' = nextId w ->
  grows admission_fx w w' ->
  skipped w w'.
Proof.
  intros Hp Hn G. split; [exact Hp|]. split; [exact Hn|]. split; [exact G|].
  repeat (split; [eapply grows_count; [|exact G];
                  intros [] ?; try discriminate; reflexivity|]).
  eapply grows_count; [|exact G]. intros [] ?; try discriminate; reflexivity.
Qed.

Lemma throws_only_ret {A} P (a : A) : throws_only P (ret a).
Proof. intros w e w' H. discriminate. Qed.

Lemma throws_only_gets {A} P (f : World -> A) : throws_only P (gets f).
Proof. intros w e w' H. discriminate. Qed.

Lemma throws_only_throw {A} (P : Err -> Prop) e : P e -> throws_only P (@throw A e).
Proof. intros He w e' w' [= <- <-]. exact He. Qed.

Lemma throws_only_bind {A B} P (c : M A) (k : A -> M B) :
  throws_only P c -> (forall a, throws_only P (k a)) -> throws_only P (bind c k).
Proof.
  intros Hc Hk w e w'. unfold bind.
  destruct (c w) as [[a|e1] w1] eqn:E.
  - apply Hk.
  - intros [= <- <-]. eapply Hc, E.
Qed.

Section Duplicates.
Context (eng : Engine) (cfg : Config) (env : Env).

Lemma store_request_throws e : throws_only is_store_error (store_request env e).
Proof.
  unfold store_request. apply throws_only_bind.
  - intros w e' w' H. discriminate.
  - intros n. destruct (storeDown env n).
    + apply throws_only_throw. eexists. reflexivity.
    + apply throws_only_ret.
Qed.

(** Up to the creation of the pending record only the store can fail. *)
Lemma admission_throws event : throws_only is_store_error (admission eng env event).
Proof.
  unfold admission. cbv zeta.
  apply throws_only_bind.
  { unfold user_findUnique. apply throws_only_bind;
      [apply store_request_throws|intros _; apply throws_only_gets]. }
  intros known. apply throws_only_bind.
  { destruct known; [apply throws_only_ret|].
    unfold user_create. apply throws_only_bind; [apply store_request_throws|].
    intros _. apply throws_only_bind; [apply throws_only_gets|].
    intros []; [apply throws_only_throw; eexists; reflexivity|].
    intros w e w' H. discriminate. }
  intros _. apply throws_only_bind.
  { unfold pendingReply_findUnique. apply throws_only_bind;
      [apply store_request_throws|intros _; apply throws_only_gets]. }
  intros [existing|]; [apply throws_only_ret|].
  apply throws_only_bind; [|intros created; apply throws_only_ret].
  unfold pendingReply_create. apply throws_only_bind; [apply store_request_throws|].
  intros _. apply throws_only_bind; [apply throws_only_gets|].
  intros [existing|]; [apply throws_only_throw; eexists; reflexivity|].
  intros w e w' H. discriminate.
Qed.

Lemma processMessageEvent_duplicate_result event w r w' :
  find_by_token (event_replyToken event) (pendingReplies w) <> None ->
  processMessageEvent eng cfg env event w = (r, w') ->
  r = Return tt \/ exists e, r = Throw e /\ is_store_error e.
Proof.
  intros Hdup. rewrite processMessageEvent_phases. intros H.
  step H as entry e w1 E1.
  - apply admission_spec in E1 as (_ & Hphase). destruct entry as [created|].
    + destruct Hphase as (Hnone & _). exfalso. exact (Hdup Hnone).
    + injection H as <- <-. left. reflexivity.
  - injection H as <- <-. right. exists e. split; [reflexivity|].
    eapply admission_throws, E1.
Qed.

(** *** The same for [backend/src/index.ts] *)

Lemma IndexTs_answer_bystander q l tp h w r w' :
  IndexTs.answerWithSensorAI eng cfg env q l tp h w = (r, w') ->
  bystander is_completion w w'.
Proof.
  unfold IndexTs.answerWithSensorAI, IndexTs.askOpenAI.
  destruct (OPENAI_API_KEY cfg); simpl; [|intros [= <- <-]; reflexivity].
  intros H.
  assert (Hq : quiet is_completion w w').
  { revert H. apply post_bind; try typeclasses eauto; [apply post_create|].
    intros a. apply post_ret. typeclasses eauto. }
  destruct Hq as (E & _ & G). unfold only_time_passed in E.
  split; [rewrite E; reflexivity|]. split; [rewrite E; reflexivity|].
  split; [rewrite E; reflexivity|exact G].
Qed.

Lemma replyToUserAndDelete_spec i token msg w r w' :
  IndexTs.replyToUserAndDelete eng cfg env i token msg w = (r, w') ->
  r = Return tt
  /\ nextId w' = nextId w
  /\ (pendingReplies w'
      = List.filter (fun r => negb (id r =? i)) (pendingReplies w)
      \/ pendingReplies w' = pendingReplies w).
Proof.
  unfold IndexTs.replyToUserAndDelete, try_catch, axios_post, pendingReply_delete,
    store_request, bind, request, gets, note, modify, ret, throw.
  destruct (negb (truthy (LINE_ACCESS_TOKEN cfg)));
    [intros [= <- <-]; split; [reflexivity|split; [reflexivity|right; reflexivity]]|].
  destruct (lineDown env (length (log w)));
    [intros [= <- <-]; split; [reflexivity|split; [reflexivity|right; reflexivity]]|].
  simpl. destruct (storeDown env _);
    [intros [= <- <-]; split; [reflexivity|split; [reflexivity|right; reflexivity]]|].
  simpl. destruct (has_id i (pendingReplies w)); intros [= <- <-];
    (split; [reflexivity|split; [reflexivity|]]); [left|right]; reflexivity.
Qed.

Lemma webhookEvent_duplicate event w r w' :
  find_by_token (event_replyToken event) (pendingReplies w) <> None ->
  IndexTs.webhookEvent eng cfg env event w = (r, w') ->
  skipped w w'
  /\ (r = Return tt \/ exists e, r = Throw e /\ is_store_error e).
Proof.
  intros Hdup. unfold IndexTs.webhookEvent. cbv zeta.
  destruct (negb (truthy (source_userId event))
            || negb (truthy (event_replyToken event))).
  { intros [= <- <-]. split; [|left; reflexivity].
    apply skipped_intro; [reflexivity|reflexivity|apply grows_refl]. }
  intros H.
  step H as known e wa Ea.
  2:{ injection H as <- <-. split.
      - apply user_findUnique_spec in Ea as (P & N & _ & G).
        apply skipped_intro; [exact P|exact N|].
        eapply grows_weaken; [apply user_fx_admission|exact G].
      - right. exists e. split; [reflexivity|]. revert Ea.
        unfold user_findUnique. apply throws_only_bind;
          [apply store_request_throws|intros _; apply throws_only_gets]. }
  apply user_findUnique_spec in Ea.
  step H as u e wb Eb.
  2:{ injection H as <- <-. split.
      - apply upsert_user_spec in Eb.
        destruct (bystander_trans _ _ _ _ Ea Eb) as (P & N & _ & G).
        apply skipped_intro; [exact P|exact N|].
        eapply grows_weaken; [apply user_fx_admission|exact G].
      - right. exists e. split; [reflexivity|]. revert Eb.
        destruct known; [discriminate|].
        unfold user_create. apply throws_only_bind; [apply store_request_throws|].
        intros _. apply throws_only_bind; [apply throws_only_gets|].
        intros []; [apply throws_only_throw; eexists; reflexivity|].
        intros w0 e0 w0' H0. discriminate. }
  apply upsert_user_spec in Eb.
  pose proof (bystander_weaken _ _ _ _ user_fx_admission
                (bystander_trans _ _ _ _ Ea Eb)) as Huser.
  clear Ea Eb. step H as found e wc Ec.
  2:{ injection H as <- <-. split.
      - apply pendingReply_findUnique_spec in Ec as [Ec _].
        apply (bystander_weaken _ _ _ _ is_find_admission) in Ec.
        destruct (bystander_trans _ _ _ _ Huser Ec) as (P & N & _ & G).
        apply skipped_intro; assumption.
      - right. exists e. split; [reflexivity|]. revert Ec.
        unfold pendingReply_findUnique. apply throws_only_bind;
          [apply store_request_throws|intros _; apply throws_only_gets]. }
  apply pendingReply_findUnique_spec in Ec as [Ec Hfound].
  specialize (Hfound _ eq_refl).
  apply (bystander_weaken _ _ _ _ is_find_admission) in Ec.
  pose proof (bystander_trans _ _ _ _ Huser Ec) as (P & N & _ & G).
  destruct Huser as (P0 & _). rewrite P0 in Hfound.
  destruct found as [existing|]; [|exfalso; apply Hdup; congruence].
  injection H as <- <-. split; [|left; reflexivity].
  apply skipped_intro; assumption.
Qed.

Lemma webhookEvent_unique event w r w' :
  unique_tokens w ->
  IndexTs.webhookEvent eng cfg env event w = (r, w') ->
  unique_tokens w'.
Proof.
  unfold unique_tokens. intros Huniq. unfold IndexTs.webhookEvent. cbv zeta.
  destruct (negb (truthy (source_userId event))
            || negb (truthy (event_replyToken event)));
    [intros [= <- <-]; exact Huniq|].
  intros H.
  step H as known e wa Ea; apply user_findUnique_spec in Ea as (Pa & _);
    [|injection H as <- <-; rewrite Pa; exact Huniq].
  step H as u e wb Eb; apply upsert_user_spec in Eb as (Pb & _);
    [|injection H as <- <-; rewrite Pb, Pa; exact Huniq].
  step H as found e wc Ec;
    apply pendingReply_findUnique_spec in Ec as [(Pc & _) Hfound];
    [|injection H as <- <-; rewrite Pc, Pb, Pa; exact Huniq].
  specialize (Hfound _ eq_refl).
  assert (Huniqc : List.NoDup (map replyToken (pendingReplies wc)))
    by (rewrite Pc, Pb, Pa; exact Huniq).
  rewrite <- Pc in Hfound. clear Pa Pb Huniq.
  destruct found as [existing|]; [injection H as <- <-; exact Huniqc|].
  step H as created e wd Ed.
  2:{ injection H as <- <-. destruct (message_type event) as [mtype|].
      - apply pendingReply_create_spec in Ed as (_ & _ & -> & _). exact Huniqc.
      - injection Ed as _ <-. exact Huniqc. }
  assert (Huniqd : List.NoDup (map replyToken (pendingReplies wd))).
  { destruct (message_type event) as [mtype|].
    - apply pendingReply_create_spec in Ed as (_ & _ & _ & -> & -> & _).
      eapply NoDup_map_snoc; [exact Huniqc|symmetry; exact Hfound|reflexivity].
    - discriminate Ed. }
  clear Ed Huniqc Hfound.
  assert (Htail : forall i msg wx r0 wy,
             List.NoDup (map replyToken (pendingReplies wx)) ->
             IndexTs.replyToUserAndDelete eng cfg env i (event_replyToken event) msg wx
             = (r0, wy) ->
             List.NoDup (map replyToken (pendingReplies wy))).
  { intros i msg wx r0 wy Hx Hr.
    apply replyToUserAndDelete_spec in Hr as (_ & _ & [-> | ->]);
      [apply NoDup_map_filter|]; exact Hx. }
  unfold bind at 1, gets in H.
  destruct (lastSensorData wd) as [stored|]; [|eapply Htail; eassumption].
  step H as d e w0 E0; apply convert_spec in E0 as [-> Hd];
    [|injection H as <- <-; exact Huniqd].
  step H as replyText e we Ee.
  2:{ injection H as <- <-.
      destruct (match message_type event with
                | Some mtype => String.eqb mtype "text"
                | None => false
                end); [|discriminate].
      step Ee as ai e' wf Ef; [discriminate|].
      injection Ee as _ <-.
      apply IndexTs_answer_bystander in Ef as (-> & _). exact Huniqd. }
  eapply Htail; [|exact H].
  destruct (match message_type event with
            | Some mtype => String.eqb mtype "text"
            | None => false
            end); [|injection Ee as _ <-; exact Huniqd].
  step Ee as ai e' wf Ef; [|discriminate].
  injection Ee as _ <-.
  apply IndexTs_answer_bystander in Ef as (-> & _). exact Huniqd.
Qed.

(** The two operations of the store that change the table keep the tokens
    distinct, whatever else runs between them. *)
Lemma pendingReply_create_unique token uid mtype txt w r w' :
  unique_tokens w ->
  pendingReply_create env token uid mtype txt w = (r, w') ->
  unique_tokens w'.
Proof.
  unfold unique_tokens. intros Huniq H.
  apply pendingReply_create_spec in H as (_ & _ & H). destruct r as [created|e].
  - destruct H as (Hnone & -> & -> & _).
    eapply NoDup_map_snoc; [exact Huniq|exact Hnone|reflexivity].
  - destruct H as (-> & _). exact Huniq.
Qed.

Lemma pendingReply_delete_unique i w r w' :
  unique_tokens w ->
  pendingReply_delete env i w = (r, w') ->
  unique_tokens w'.
Proof.
  unfold unique_tokens, pendingReply_delete, store_request, bind, request, gets,
    modify, ret, throw.
  intros Huniq. destruct (storeDown env (length (log w)));
    [intros [= _ <-]; exact Huniq|].
  simpl. destruct (has_id i (pendingReplies w)); intros [= _ <-]; simpl;
    [apply NoDup_map_filter|]; exact Huniq.
Qed.

(** C7.  An event whose reply token already has a pending record is
    skipped, by [processMessageEvent] and by the loop body of the webhook
    route of [backend/src/index.ts] alike: the processor returns (or the
    store failed before the duplicate check and the error is the store's),
    no record is created, and nothing is done beyond the user lookup, the
    user creation and the duplicate check, so no reply, no push and no
    call of the orchestrator.  And both keep the tokens of the pending
    records pairwise distinct, as do the creation and the deletion of a
    record on their own. *)
Theorem duplicate_delivery_is_skipped event w :
  (find_by_token (event_replyToken event) (pendingReplies w) <> None ->
   (forall r w',
       processMessageEvent eng cfg env event w = (r, w') ->
       skipped w w' /\ (r = Return tt \/ exists e, r = Throw e /\ is_store_error e))
   /\ (forall r w',
          IndexTs.webhookEvent eng cfg env event w = (r, w') ->
          skipped w w'
          /\ (r = Return tt \/ exists e, r = Throw e /\ is_store_error e)))
  /\ (unique_tokens w ->
      (forall r w',
          processMessageEvent eng cfg env event w = (r, w') -> unique_tokens w')
      /\ (forall r w',
             IndexTs.webhookEvent eng cfg env event w = (r, w') ->
             unique_tokens w')
      /\ (forall token uid mtype txt r w',
             pendingReply_create env token uid mtype txt w = (r, w') ->
             unique_tokens w')
      /\ (forall i r w',
             pendingReply_delete env i w = (r, w') -> unique_tokens w')).
Proof.
  split.
  - intros Hdup. split.
    + intros r w' H. split.
      * destruct (processMessageEvent_duplicate _ _ _ _ _ _ _ Hdup H) as (P & N & G).
        apply skipped_intro; assumption.
      * eapply processMessageEvent_duplicate_result; eassumption.
    + intros r w' H. eapply webhookEvent_duplicate; eassumption.
  - intros Huniq. split; [|split; [|split]].
    + intros r w' H. eapply processMessageEvent_unique; eassumption.
    + intros r w' H. eapply webhookEvent_unique; eassumption.
    + intros token uid mtype txt r w' H.
      eapply pendingReply_create_unique; eassumption.
    + intros i r w' H. eapply pendingReply_delete_unique; eassumption.
Qed.
End Duplicates.

(** ** The sensor route *)

Lemma missing_field_complete body :
  missing_field body = false <->
  forallb (fun v => negb (is_undefined v))
          [body_light body; body_temp body; body_humidity body] = true.
Proof.
  unfold missing_field. simpl.
  destruct (is_undefined (body_light body)), (is_undefined (body_temp body)),
    (is_undefined (body_humidity body)); simpl; split; congruence.
Qed.

Section Ingest.
Context (eng : Engine).

Lemma postSensorData_eq body w :
  postSensorData body w
  = (if missing_field body then (Return refused, w)
     else (Return accepted, set_lastSensorData (Some (received body)) w)).
Proof.
  unfold postSensorData, missing_field.
  destruct (is_undefined (body_light body)), (is_undefined (body_temp body)),
    (is_undefined (body_humidity body)); reflexivity.
Qed.

Lemma IndexTs_postSensorData_eq body w :
  IndexTs.postSensorData eng body w
  = (if missing_field body then (Return refused, w)
     else match primitives (received body) with
          | Some d => (Return accepted, set_lastSensorData (Some (coerced eng d)) w)
          | None => (Throw TypeError, w)
          end).
Proof.
  unfold IndexTs.postSensorData.
  destruct (missing_field body) eqn:Hmiss.
  - destruct (forallb _ _) eqn:Hall; [|reflexivity].
    apply missing_field_complete in Hall. congruence.
  - apply missing_field_complete in Hmiss. rewrite Hmiss.
    unfold primitives, received, bind. simpl. rewrite !toPrimitive_spec.
    destruct (primitive (body_light body)); [|reflexivity].
    rewrite toPrimitive_spec.
    destruct (primitive (body_temp body)); [|reflexivity].
    rewrite toPrimitive_spec.
    destruct (primitive (body_humidity body)); reflexivity.
Qed.

(** C10, as amended.  Both sensor routes answer 400 exactly when one of
    the three fields is undefined, and change nothing then.  For a body
    with its three fields, [src/index.js] answers success and stores the
    values as they were received, whatever they are; and
    [backend/src/index.ts] converts each value with [Number]: when the
    three convert it answers success and stores the coercions, and when
    one does not, the handler throws a TypeError before anything is
    stored.  Neither validates a range or a type: numbers outside the
    documented ranges are accepted and stored by both; for a text in place
    of a number the first stores the text itself and the second what
    [Number] makes of it; and an object that does not convert is stored by
    the first and makes the second throw. *)
Theorem sensor_ingest_no_validation body w :
  postSensorData body w
  = (if missing_field body then (Return refused, w)
     else (Return accepted,
           set_lastSensorData
             (Some {| reading_light := body_light body;
                      reading_temp := body_temp body;
                      reading_humidity := body_humidity body |}) w))
  /\ IndexTs.postSensorData eng body w
     = (if missing_field body then (Return refused, w)
        else match primitive (body_light body), primitive (body_temp body),
                   primitive (body_humidity body) with
             | Some l, Some tp, Some h =>
                 (Return accepted,
                  set_lastSensorData
                    (Some {| reading_light := Plain (JNumber (Number eng l));
                             reading_temp := Plain (JNumber (Number eng tp));
                             reading_humidity := Plain (JNumber (Number eng h)) |})
                    w)
             | _, _, _ => (Throw TypeError, w)
             end)
  /\ (answered 400 (fst (postSensorData body w)) <-> missing_field body = true)
  /\ (answered 400 (fst (IndexTs.postSensorData eng body w))
      <-> missing_field body = true)
  /\ (postSensorData outOfRange w
      = (Return accepted,
         set_lastSensorData
           (Some {| reading_light := Plain (JNumber (Fin (-5)));
                    reading_temp := Plain (JNumber (Fin 20));
                    reading_humidity := Plain (JNumber (Fin 150)) |}) w)
      /\ IndexTs.postSensorData eng outOfRange w = postSensorData outOfRange w
      /\ num_ge (Fin (-5)) 0 = false
      /\ num_gt (Fin 150) 100 = true)
  /\ (postSensorData notANumber w
      = (Return accepted,
         set_lastSensorData
           (Some {| reading_light := Plain (JString "abc");
                    reading_temp := Plain (JNumber (Fin 20));
                    reading_humidity := Plain (JNumber (Fin 55)) |}) w)
      /\ IndexTs.postSensorData eng notANumber w
         = (Return accepted,
            set_lastSensorData
              (Some {| reading_light := Plain (JNumber (strToNum eng "abc"));
                       reading_temp := Plain (JNumber (Fin 20));
                       reading_humidity := Plain (JNumber (Fin 55)) |}) w))
  /\ (postSensorData notConvertible w
      = (Return accepted,
         set_lastSensorData
           (Some {| reading_light := Opaque;
                    reading_temp := Plain (JNumber (Fin 20));
                    reading_humidity := Plain (JNumber (Fin 55)) |}) w)
      /\ IndexTs.postSensorData eng notConvertible w = (Throw TypeError, w)).
Proof.
  pose proof (postSensorData_eq body w) as Hjs.
  pose proof (IndexTs_postSensorData_eq body w) as Hts.
  split; [exact Hjs|]. split.
  { rewrite Hts. destruct (missing_field body); [reflexivity|].
    unfold primitives, received, coerced. simpl.
    destruct (primitive (body_light body)), (primitive (body_temp body)),
      (primitive (body_humidity body)); reflexivity. }
  split.
  { rewrite Hjs. destruct (missing_field body); simpl; split.
    - reflexivity.
    - intros _. exists refused. split; reflexivity.
    - intros (resp & [= <-] & Hst). discriminate Hst.
    - discriminate. }
  split.
  { rewrite Hts. destruct (missing_field body); simpl; split.
    - reflexivity.
    - intros _. exists refused. split; reflexivity.
    - destruct (primitives (received body)); intros (resp & Hr & Hst);
        [injection Hr as <-|]; discriminate.
    - discriminate. }
  repeat split.
Qed.
End Ingest.

(** ** The status texts *)

Lemma num_gt_Fin q k : num_gt (Fin q) k = true <-> (inject_Z k < q)%Q.
Proof.
  simpl. rewrite negb_true_iff. split.
  - intros H. apply Qnot_le_lt. intros Hle. apply Qle_bool_iff in Hle. congruence.
  - intros H. destruct (Qle_bool q (inject_Z k)) eqn:E; [|reflexivity].
    apply Qle_bool_iff in E. exfalso. eapply Qlt_not_le; eassumption.
Qed.

Lemma num_gt_Fin_false q k : num_gt (Fin q) k = false <-> (q <= inject_Z k)%Q.
Proof. simpl. rewrite negb_false_iff. apply Qle_bool_iff. Qed.

Lemma num_ge_Fin q k : num_ge (Fin q) k = true <-> (inject_Z k <= q)%Q.
Proof. simpl. apply Qle_bool_iff. Qed.

Lemma num_ge_Fin_false q k : num_ge (Fin q) k = false <-> (q < inject_Z k)%Q.
Proof.
  simpl. split.
  - intros H. apply Qnot_le_lt. intros Hle. apply Qle_bool_iff in Hle. congruence.
  - intros H. destruct (Qle_bool (inject_Z k) q) eqn:E; [|reflexivity].
    apply Qle_bool_iff in E. exfalso. eapply Qlt_not_le; eassumption.
Qed.

(** Decides every comparison of a finite reading with a threshold from the
    bounds on the reading that are among the hypotheses. *)
Ltac band :=
  repeat match goal with
         | |- context [num_gt (Fin ?q) ?k] =>
             first [ rewrite (proj2 (num_gt_Fin q k)) by (unfold inject_Z; lra)
                   | rewrite (proj2 (num_gt_Fin_false q k)) by (unfold inject_Z; lra) ]
         | |- context [num_ge (Fin ?q) ?k] =>
             first [ rewrite (proj2 (num_ge_Fin q k)) by (unfold inject_Z; lra)
                   | rewrite (proj2 (num_ge_Fin_false q k)) by (unfold inject_Z; lra) ]
         end;
  reflexivity.

Section Status.
Context (eng : Engine).

(** X1.  A reading that is not a number, or is minus infinity, is below every
    threshold: the three status texts are those of the lowest bands. *)
Theorem status_of_a_reading_that_is_no_number v :
  Number eng v = NaN \/ Number eng v = Inf true ->
  getLightStatus eng v = "มืดมากๆ 🕳️"
  /\ getTempStatus eng v = "อุณหูมิเย็น ❄️"
  /\ getHumidityStatus eng v = "อากาศแห้งมาก 🏜️".
Proof.
  intros H. unfold getLightStatus, getTempStatus, getHumidityStatus, js_gt, js_ge.
  destruct H as [-> | ->]; repeat split.
Qed.

(** X2.  The bands of the temperature: 35 degrees is still hot, not very hot;
    30, 25 and 20 degrees belong to the band above them. *)
Theorem temperature_bands v q :
  Number eng v = Fin q ->
  ((35 < q)%Q -> getTempStatus eng v = "อุณหภูมิร้อนมาก ⚠️")
  /\ ((30 <= q <= 35)%Q -> getTempStatus eng v = "อุณหภูมิร้อน 🔥")
  /\ ((25 <= q < 30)%Q -> getTempStatus eng v = "อุณหภูมิอุ่นๆ 🌞")
  /\ ((20 <= q < 25)%Q -> getTempStatus eng v = "อุณหภูมิพอดี 🌤")
  /\ ((q < 20)%Q -> getTempStatus eng v = "อุณหูมิเย็น ❄️").
Proof.
  intros Hv. unfold getTempStatus, js_gt, js_ge. rewrite Hv.
  repeat split; intros H; band.
Qed.

(** X3.  The bands of the light and of the humidity: every threshold belongs to
    the band below it. *)
Theorem light_and_humidity_bands v q :
  Number eng v = Fin q ->
  (((50000 < q)%Q -> getLightStatus eng v = "สว่างจัดมาก ☀️")
   /\ ((10000 < q <= 50000)%Q -> getLightStatus eng v = "สว่างมาก🌤")
   /\ ((5000 < q <= 10000)%Q -> getLightStatus eng v = "สว่างปานกลาง 🌥")
   /\ ((1000 < q <= 5000)%Q -> getLightStatus eng v = "ค่อนข้างสว่าง 🌈")
   /\ ((500 < q <= 1000)%Q -> getLightStatus eng v = "แสงพอใช้")
   /\ ((100 < q <= 500)%Q -> getLightStatus eng v = "แสงน้อย🌙")
   /\ ((10 < q <= 100)%Q -> getLightStatus eng v = "มืดสลัว 🌑")
   /\ ((q <= 10)%Q -> getLightStatus eng v = "มืดมากๆ 🕳️"))
  /\ (((85 < q)%Q -> getHumidityStatus eng v = "ชื้นมาก อากาศอึดอัด 🌧️")
      /\ ((70 < q <= 85)%Q -> getHumidityStatus eng v = "อากาศชื้น เหนียวตัว 💦")
      /\ ((60 < q <= 70)%Q -> getHumidityStatus eng v = "เริ่มชื้น 🌫️")
      /\ ((40 < q <= 60)%Q -> getHumidityStatus eng v = "อากาศสบาย ✅")
      /\ ((30 < q <= 40)%Q -> getHumidityStatus eng v = "ค่อนข้างแห้ง 💨")
      /\ ((20 < q <= 30)%Q -> getHumidityStatus eng v = "แห้งมาก 🥵")
      /\ ((q <= 20)%Q -> getHumidityStatus eng v = "อากาศแห้งมาก 🏜️")).
Proof.
  intros Hv. unfold getLightStatus, getHumidityStatus, js_gt. rewrite Hv.
  repeat split; intros H; band.
Qed.
End Status.

(** ** The back-off and the report timer *)

Section Timers.
Context (cfg : Config).

(** X4.  The back-off before retry number [attempt].  A hint of the service is
    taken as it is: the cap of 30 seconds does not apply to it, and a hint
    of zero or less is a timer of one millisecond.  Without a hint the
    back-off doubles from 2 seconds, with less than 800 ms added, up to the
    fourth retry, and is 30 seconds from the fifth on. *)
Theorem backoff_schedule err attempt rnd :
  0 <= rnd < 800 ->
  (forall ms, parseRetryAfterMs err = Some ms ->
              backoffMs err attempt rnd = ms
              /\ (ms <= 0 -> timerMs (backoffMs err attempt rnd) = 1))
  /\ (parseRetryAfterMs err = None ->
      (1 <= attempt <= 4 ->
       backoffMs err attempt rnd = 2 ^ attempt * 1000 + rnd
       /\ 2000 <= backoffMs err attempt rnd < 17000)
      /\ (5 <= attempt -> backoffMs err attempt rnd = 30000)).
Proof.
  intros Hrnd. unfold backoffMs. split.
  - intros ms ->. split; [reflexivity|].
    intros Hms. unfold timerMs.
    destruct (1 <=? ms) eqn:E; [apply Z.leb_le in E; lia|reflexivity].
  - intros ->. split.
    + intros Ha.
      assert (Hcases : attempt = 1 \/ attempt = 2 \/ attempt = 3 \/ attempt = 4) by lia.
      destruct Hcases as [-> | [-> | [-> | ->]]]; simpl; lia.
    + intros Ha.
      assert (Hpow : 2 ^ 5 <= 2 ^ attempt) by (apply Z.pow_le_mono_r; lia).
      change (2 ^ 5) with 32 in Hpow. lia.
Qed.

(** X5.  The period of the report timer is five minutes whatever integer the
    configured rate is: the gap of the limiter is never above one minute,
    so it never raises the period. *)
Theorem report_period_is_five_minutes : autoReportIntervalMs cfg = 300000.
Proof.
  unfold autoReportIntervalMs. pose proof (minGapMs_bounds cfg). lia.
Qed.
End Timers.
(** ** The retry hint *)

Section RetryHint.
Context (eng : Engine) (times : JSNum -> JSNum -> JSNum).

(** X6.  The unit of the hint is decided by the text of the value, not by the
    name of the header it came in: a value gives the same hint under
    either name.  [retry-after-ms] is looked at first and, when it holds a
    truthy value, [retry-after] is not looked at; a falsy value there is as
    good as none.  So a [retry-after-ms] header that holds a plain number
    is read as a number of seconds and multiplied by 1000. *)
Theorem retry_hint_unit_is_in_the_value h v :
  Headers.parseRetryAfterMs eng times (Some {["retry-after-ms" := v]})
  = Headers.parseRetryAfterMs eng times (Some {["retry-after" := v]})
  /\ (h !! "retry-after-ms" = Some v -> js_truthy v = true ->
      Headers.parseRetryAfterMs eng times (Some h)
      = Headers.parseRetryAfterMs eng times (Some {["retry-after-ms" := v]}))
  /\ (h !! "retry-after-ms" = Some v -> js_truthy v = false ->
      Headers.parseRetryAfterMs eng times (Some h)
      = Headers.parseRetryAfterMs eng times (Some (delete "retry-after-ms" h)))
  /\ (forall s sec,
         v = JString s -> truthy s = true ->
         endsWith (trim eng s) "ms" = false ->
         strToNum eng (trim eng s) = Fin sec ->
         Headers.parseRetryAfterMs eng times (Some {["retry-after-ms" := v]})
         = Some (times (Fin sec) (Fin 1000))).
Proof.
  unfold Headers.parseRetryAfterMs. split; [|split; [|split]].
  - rewrite !lookup_singleton_eq, !lookup_singleton_ne by discriminate.
    unfold js_or. destruct (js_truthy v) eqn:Hv; rewrite ?Hv; reflexivity.
  - intros Hms Hv. rewrite Hms, lookup_singleton_eq.
    rewrite lookup_singleton_ne by discriminate.
    unfold js_or. rewrite Hv. reflexivity.
  - intros Hms Hv. rewrite Hms, lookup_delete_eq.
    rewrite lookup_delete_ne by discriminate.
    unfold js_or. rewrite Hv. reflexivity.
  - intros s sec -> Hs Hends Hnum.
    rewrite lookup_singleton_eq. unfold js_or. simpl. rewrite Hs. simpl.
    rewrite Hs. simpl. rewrite Hends, Hnum. reflexivity.
Qed.

(** X7.  When there is no hint: an error without headers, headers without the
    two fields.  And what a hint can be: a value given in milliseconds is
    dropped when it is zero or not a number, so the hint is then never
    zero and never [NaN]; the only other hints are products by 1000 of a
    finite number of seconds, zero included. *)
Theorem retry_hint_absent_or_usable h :
  Headers.parseRetryAfterMs eng times None = None
  /\ (h !! "retry-after-ms" = None -> h !! "retry-after" = None ->
      Headers.parseRetryAfterMs eng times (Some h) = None)
  /\ (forall n, Headers.parseRetryAfterMs eng times (Some h) = Some n ->
                num_truthy n = true
                \/ exists sec, n = times (Fin sec) (Fin 1000)).
Proof.
  unfold Headers.parseRetryAfterMs. split; [reflexivity|]. split.
  - intros -> ->. reflexivity.
  - intros n.
    destruct (js_or (h !! "retry-after-ms") (h !! "retry-after")) as [raw|];
      [|discriminate].
    destruct (negb (js_truthy raw)); [discriminate|].
    destruct (endsWith _ "ms").
    + destruct (num_truthy _) eqn:Hn; [|discriminate].
      intros [= <-]. left. exact Hn.
    + destruct (strToNum eng _) as [| |sec]; try discriminate.
      intros [= <-]. right. exists sec. reflexivity.
Qed.
End RetryHint.
(** ** Bounds on a queued call *)

Section CallBounds.
Context (cfg : Config) (env : Env).

(** One invocation of [askOpenAI] sends at most two requests, one to each
    endpoint. *)
Lemma askOpenAI_at_most_two prompt w r w' :
  askOpenAI cfg env prompt w = (r, w') ->
  (completions w' <= completions w + 2)%nat.
Proof.
  unfold askOpenAI. destruct (OPENAI_API_KEY cfg); simpl.
  2:{ intros [= <- <-]. lia. }
  unfold try_catch at 1.
  destruct (responsesApi cfg).
  - unfold bind at 1.
    destruct (create env Responses prompt w) as [[text|e1] w1] eqn:Hc1;
      pose proof (create_requests _ _ _ _ _ _ Hc1) as H1.
    + intros [= <- <-]. lia.
    + unfold try_catch. destruct (chatApi cfg); [|intros [= <- <-]; lia].
      unfold bind.
      destruct (create env ChatCompletions prompt w1) as [[text|e2] w2] eqn:Hc2;
        pose proof (create_requests _ _ _ _ _ _ Hc2) as H2;
        intros [= <- <-]; lia.
  - unfold throw at 1. unfold try_catch. destruct (chatApi cfg); [|intros [= <- <-]; lia].
    unfold bind.
    destruct (create env ChatCompletions prompt w) as [[text|e2] w2] eqn:Hc2;
      pose proof (create_requests _ _ _ _ _ _ Hc2) as H2;
      intros [= <- <-]; lia.
Qed.

Lemma retryLoop_bounded prompt fuel : forall attempt w r w',
  retryLoop cfg env prompt fuel attempt w = (r, w') ->
  (attempts w < attempts w' <= attempts w + fuel + 1)%nat
  /\ (completions w' <= completions w + 2 * (attempts w' - attempts w))%nat.
Proof.
  induction fuel as [|fuel IH]; intros attempt w r w';
    rewrite retryLoop_unfold;
    destruct (askOpenAI cfg env prompt (beginAttempt attempt w))
      as [[out|err] w1] eqn:Hask;
    pose proof (attempts_askOpenAI _ _ _ _ _ _ Hask) as Ha;
    rewrite attempts_beginAttempt in Ha;
    pose proof (askOpenAI_at_most_two _ _ _ _ Hask) as Hc;
    change (completions (beginAttempt attempt w)) with (completions w) in Hc.
  - intros [= <- <-]. rewrite attempts_set_lastCall.
    change (completions (set_lastCall (clock w1) w1)) with (completions w1). lia.
  - destruct (_ || _); intros [= <- <-]; lia.
  - intros [= <- <-]. rewrite attempts_set_lastCall.
    change (completions (set_lastCall (clock w1) w1)) with (completions w1). lia.
  - destruct (_ || _); [intros [= <- <-]; lia|].
    intros H. apply IH in H as (H1 & H2).
    rewrite attempts_afterBackoff in H1, H2.
    change (completions (afterBackoff env err (attempt + 1) w1))
      with (completions w1) in H2.
    lia.
Qed.

(** X8.  For an integer setting [OPENAI_MAX_RETRIES], whatever the completion
    service answers: a queued call starts at most once, invokes
    [askOpenAI] at most [max(0, OPENAI_MAX_RETRIES) + 1] times (once when
    the setting is zero or negative), and sends at most two requests for
    each invocation. *)
Theorem a_queued_call_is_bounded prompt w r w' :
  safeAskOpenAI cfg env prompt w = (r, w') ->
  (attempts w' <= attempts w + Z.to_nat (OPENAI_MAX_RETRIES cfg) + 1)%nat
  /\ (completions w' <= completions w + 2 * (attempts w' - attempts w))%nat
  /\ (count_fx is_start w' <= count_fx is_start w + 1)%nat.
Proof.
  destruct (chain w) as [|reason] eqn:Hch.
  - rewrite (safeAskOpenAI_unfold _ _ _ _ Hch).
    destruct (readyWorld_counts cfg env prompt w) as (Ha & Hc & Hs).
    destruct (retryLoop _ _ _ _ _ _) as [res w2] eqn:Hloop.
    pose proof (retryLoop_step _ _ _ _ _ _ _ _ Hloop) as ((_ & _ & G) & _).
    pose proof (grows_count _ _ _ _ loop_fx_not_start G) as Hs2.
    apply retryLoop_bounded in Hloop as (H1 & H2).
    assert (Hgoal : (attempts w2 <= attempts w + Z.to_nat (OPENAI_MAX_RETRIES cfg) + 1)%nat
                    /\ (completions w2 <= completions w + 2 * (attempts w2 - attempts w))%nat
                    /\ (count_fx is_start w2 <= count_fx is_start w + 1)%nat) by lia.
    destruct res; intros [= <- <-]; exact Hgoal.
  - rewrite (safeAskOpenAI_rejected _ _ _ _ _ Hch). intros [= <- <-]. lia.
Qed.
End CallBounds.

(** ** The orchestrator without an API key, and its footprint in the cache *)

Section Orchestrator.
Context (eng : Engine) (cfg : Config) (env : Env).

(** X9.  Without an API key no request is ever sent, whatever the state of the
    cache and of the queue.  On a miss with a healthy queue the call still
    goes through the queue, and the notice of [askOpenAI] is what it
    returns and what it stores in the cache, as if it were an answer. *)
Theorem without_a_key_nothing_is_sent q l tp h w r w' :
  OPENAI_API_KEY cfg = false ->
  answerWithSensorAI eng cfg env q l tp h w = (r, w') ->
  completions w' = completions w
  /\ (chain w = Fulfilled ->
      aiCache w !! cacheKey eng q l tp h = None ->
      r = Return noKeyText
      /\ aiCache w' !! cacheKey eng q l tp h
         = Some {| t := clock w'; val := noKeyText |}
      /\ attempts w' = S (attempts w)).
Proof.
  intros Hkey Hrun.
  assert (Hmiss : forall wm,
             completions wm = completions w ->
             missPath eng cfg env q l tp h wm = (r, w') ->
             completions w' = completions w).
  { intros wm Hwm Hm. apply missPath_spec in Hm as (w1 & Hcall & Hw').
    apply (safeAskOpenAI_no_key _ _ _ _ _ _ Hkey) in Hcall as (Hc & _).
    destruct r; subst w'; simpl; [change (completions w1 = completions w)|]; congruence. }
  split.
  - destruct (aiCache w !! cacheKey eng q l tp h) as [entry|] eqn:Hlook.
    + destruct (Z_lt_le_dec (CACHE_TTL_MS cfg) (clock w - t entry)) as [Hold|Hfresh].
      * rewrite (answer_stale _ _ _ _ _ _ _ _ _ Hlook Hold) in Hrun.
        eapply Hmiss; [|exact Hrun]. reflexivity.
      * rewrite (answer_fresh _ _ _ _ _ _ _ _ _ Hlook Hfresh) in Hrun.
        destruct (truthy (val entry)); [injection Hrun as _ <-; reflexivity|].
        eapply Hmiss; [|exact Hrun]. reflexivity.
    + rewrite (answer_no_entry _ _ _ _ _ _ _ _ Hlook) in Hrun.
      eapply Hmiss; [|exact Hrun]. reflexivity.
  - intros Hch Hlook.
    rewrite (answer_no_entry _ _ _ _ _ _ _ _ Hlook) in Hrun.
    apply missPath_spec in Hrun as (w1 & Hcall & Hw').
    apply (safeAskOpenAI_no_key _ _ _ _ _ _ Hkey) in Hcall as (_ & Hret).
    destruct (Hret Hch) as (-> & Ha). subst w'. simpl.
    split; [reflexivity|]. split; [apply lookup_insert_eq|exact Ha].
Qed.

(** X10.  A call of the orchestrator reads and writes the entry of its own
    fingerprint only: every other entry of the cache is as it was, however
    old it is. *)
Theorem an_answer_touches_only_its_entry q l tp h w r w' :
  answerWithSensorAI eng cfg env q l tp h w = (r, w') ->
  forall k, k <> cacheKey eng q l tp h -> aiCache w' !! k = aiCache w !! k.
Proof.
  intros Hrun k Hk.
  assert (Hmiss : forall wm,
             aiCache wm !! k = aiCache w !! k ->
             missPath eng cfg env q l tp h wm = (r, w') ->
             aiCache w' !! k = aiCache w !! k).
  { intros wm Hwm Hm. apply missPath_spec in Hm as (w1 & Hcall & Hw').
    apply safeAskOpenAI_aiCache in Hcall.
    destruct r; subst w'; simpl.
    - rewrite lookup_insert_ne by congruence. exact Hwm.
    - rewrite Hcall. exact Hwm. }
  destruct (aiCache w !! cacheKey eng q l tp h) as [entry|] eqn:Hlook.
  - destruct (Z_lt_le_dec (CACHE_TTL_MS cfg) (clock w - t entry)) as [Hold|Hfresh].
    + rewrite (answer_stale _ _ _ _ _ _ _ _ _ Hlook Hold) in Hrun.
      eapply Hmiss; [|exact Hrun]. simpl. apply lookup_delete_ne. congruence.
    + rewrite (answer_fresh _ _ _ _ _ _ _ _ _ Hlook Hfresh) in Hrun.
      destruct (truthy (val entry)); [injection Hrun as _ <-; reflexivity|].
      eapply Hmiss; [|exact Hrun]. reflexivity.
  - rewrite (answer_no_entry _ _ _ _ _ _ _ _ Hlook) in Hrun.
    eapply Hmiss; [|exact Hrun]. reflexivity.
Qed.
End Orchestrator.
(** ** Frames of the transports and of the store *)

#[export] Instance store_step_refl : Reflexive store_step.
Proof. intros w. destruct w; reflexivity. Qed.

#[export] Instance store_step_trans : Transitive store_step.
Proof.
  intros w1 w2 w3 E1 E2. unfold store_step in *. rewrite E2. rewrite E1. reflexivity.
Qed.

#[export] Instance store_changes_refl p : Reflexive (store_changes p).
Proof. intros w. split; reflexivity. Qed.

#[export] Instance store_changes_trans p : Transitive (store_changes p).
Proof. intros w1 w2 w3 [S1 G1] [S2 G2]. split; etransitivity; eassumption. Qed.

#[export] Instance keeps_refl {A} (f : World -> A) : Reflexive (keeps f).
Proof. intros w. reflexivity. Qed.

#[export] Instance keeps_trans {A} (f : World -> A) : Transitive (keeps f).
Proof. intros w1 w2 w3 E1 E2. unfold keeps in *. congruence. Qed.

Lemma quiet_store_changes p w w' : quiet p w w' -> store_changes p w w'.
Proof.
  intros (E & _ & G). split; [|exact G].
  unfold only_time_passed in E. unfold store_step. rewrite E. reflexivity.
Qed.

Lemma quiet_keeps_users p w w' : quiet p w w' -> keeps users w w'.
Proof. intros (E & _). unfold only_time_passed in E. unfold keeps. rewrite E. reflexivity. Qed.

Lemma store_changes_weaken (p q : Effect -> bool) w w' :
  (forall e, p e = true -> q e = true) -> store_changes p w w' -> store_changes q w w'.
Proof. intros Hpq [S G]. split; [exact S|]. eapply grows_weaken; eassumption. Qed.

Lemma ai_step_store_changes w w' : ai_step w w' -> grows ai_fx w w' /\ keeps users w w'.
Proof.
  intros (E & _ & G). split; [exact G|].
  unfold store_untouched in E. unfold keeps. rewrite E. reflexivity.
Qed.

Section Frames.
Context (eng : Engine) (cfg : Config) (env : Env).

Lemma post_store_request p e : p e = true -> post (store_request env e) (quiet p).
Proof.
  intros P. unfold store_request. apply post_bind; try typeclasses eauto.
  - apply post_request. exact P.
  - intros n. destruct (storeDown env n); [apply post_throw|apply post_ret];
      typeclasses eauto.
Qed.

Lemma post_axios_post p e : p e = true -> post (axios_post env e) (quiet p).
Proof.
  intros P. unfold axios_post. apply post_bind; try typeclasses eauto.
  - apply post_request. exact P.
  - intros n. destruct (lineDown env n); [apply post_throw|apply post_ret];
      typeclasses eauto.
Qed.

Lemma post_replyToUser (p : Effect -> bool) token msg :
  (forall text, p (FxReply token text) = true) ->
  p (FxError "LINE reply error") = true ->
  post (replyToUser eng env token msg) (quiet p).
Proof.
  intros Preply Perr. unfold replyToUser. apply post_try_catch; try typeclasses eauto.
  - apply post_axios_post, Preply.
  - intros err. apply post_note, Perr.
Qed.

Lemma post_user_findUnique p uid :
  p (FxUserFind uid) = true -> post (user_findUnique env uid) (quiet p).
Proof.
  intros P. unfold user_findUnique. apply post_bind; try typeclasses eauto.
  - apply post_store_request, P.
  - intros _. apply post_gets. typeclasses eauto.
Qed.

Lemma post_pendingReply_findUnique p token :
  p (FxPendingFind token) = true -> post (pendingReply_findUnique env token) (quiet p).
Proof.
  intros P. unfold pendingReply_findUnique. apply post_bind; try typeclasses eauto.
  - apply post_store_request, P.
  - intros _. apply post_gets. typeclasses eauto.
Qed.

Lemma post_user_create p uid :
  p (FxUserCreate uid) = true -> post (user_create env uid) (store_changes p).
Proof.
  intros P. unfold user_create. apply post_bind; try typeclasses eauto.
  - eapply post_weaken; [apply quiet_store_changes|]. apply post_store_request, P.
  - intros _. apply post_bind; try typeclasses eauto; [apply post_gets; typeclasses eauto|].
    intros [|]; [apply post_throw; typeclasses eauto|].
    apply post_modify. intros w. split; [destruct w; reflexivity|].
    exists []. split; reflexivity.
Qed.

Lemma post_pendingReply_create p token uid mtype txt :
  p (FxPendingCreate token) = true ->
  post (pendingReply_create env token uid mtype txt)
       (fun w w' => store_changes p w w' /\ keeps users w w').
Proof.
  intros P w r w'.
  unfold pendingReply_create, store_request, bind, request, gets, ret, throw.
  destruct (storeDown env (length (log w))).
  - intros [= <- <-]. split; [split|]; [destruct w; reflexivity| |reflexivity].
    eapply grows_one; [reflexivity|exact P].
  - simpl. destruct (find_by_token token (pendingReplies w));
      intros [= <- <-]; (split; [split|]);
      try (destruct w; reflexivity); try reflexivity;
      (eapply grows_one; [reflexivity|exact P]).
Qed.

Lemma post_deletePendingReply (p : Effect -> bool) i :
  p (FxPendingDelete i) = true ->
  p (FxError "PendingReply delete failed") = true ->
  post (deletePendingReply env i)
       (fun w w' => store_changes p w w' /\ keeps users w w').
Proof.
  intros Pdel Perr w r w'.
  unfold deletePendingReply, try_catch, pendingReply_delete, store_request,
    bind, request, gets, note, modify, ret, throw.
  destruct (storeDown env (length (log w))).
  - intros [= <- <-]. split; [split|]; [destruct w; reflexivity| |reflexivity].
    eapply (grows_intro _ _ _ [_; _]); [reflexivity|].
    simpl. rewrite Pdel, Perr. reflexivity.
  - simpl. destruct (has_id i (pendingReplies w)); intros [= <- <-];
      (split; [split|]); try (destruct w; reflexivity); try reflexivity.
    + eapply (grows_intro _ _ _ [_]); [reflexivity|]. simpl. rewrite Pdel. reflexivity.
    + eapply (grows_intro _ _ _ [_; _]); [reflexivity|].
      simpl. rewrite Pdel, Perr. reflexivity.
Qed.

Lemma post_convert (R : World -> World -> Prop) `{!Reflexive R} stored :
  post (convert stored) R.
Proof. intros w r w' H. apply convert_spec in H as [-> _]. reflexivity. Qed.

(** The second phase, for any relation that its four kinds of steps
    establish. *)
Lemma post_respond (R : World -> World -> Prop) `{!Reflexive R} `{!Transitive R}
      event created :
  (forall msg, post (replyToUser eng env (event_replyToken event) msg) R) ->
  post (deletePendingReply env (id created)) R ->
  (forall q l tp h, post (answerWithSensorAI eng cfg env q l tp h) R) ->
  (forall txt, post (axios_post env (FxPush (source_userId event) txt)) R) ->
  post (respond eng cfg env event created) R.
Proof.
  intros Hreply Hdelete Hanswer Hpush. unfold respond. cbv zeta.
  apply post_bind; try typeclasses eauto; [apply post_gets; typeclasses eauto|].
  intros [stored|].
  2:{ apply post_bind; try typeclasses eauto; [apply Hreply|intros _; apply Hdelete]. }
  apply post_bind; try typeclasses eauto; [apply post_convert; typeclasses eauto|].
  intros d.
  destruct (negb (existsb _ presetQuestions)).
  { apply post_bind; try typeclasses eauto; [apply Hreply|intros _; apply Hdelete]. }
  apply post_bind; try typeclasses eauto; [apply Hreply|intros _].
  apply post_bind; try typeclasses eauto; [apply Hanswer|intros aiText].
  destruct (negb (truthy (trim eng aiText))).
  { apply post_bind; try typeclasses eauto; [apply Hreply|intros _; apply Hdelete]. }
  apply post_bind; try typeclasses eauto; [apply Hpush|intros _; apply Hdelete].
Qed.

(** The first phase, likewise. *)
Lemma post_admission (R : World -> World -> Prop) `{!Reflexive R} `{!Transitive R}
      event :
  post (user_findUnique env (source_userId event)) R ->
  post (user_create env (source_userId event)) R ->
  post (pendingReply_findUnique env (event_replyToken event)) R ->
  (forall mtype txt,
      post (pendingReply_create env (event_replyToken event) (source_userId event)
                                mtype txt) R) ->
  post (admission eng env event) R.
Proof.
  intros Hfind Hcreate Hcheck Hrecord. unfold admission. cbv zeta.
  apply post_bind; try typeclasses eauto; [apply Hfind|intros known].
  apply post_bind; try typeclasses eauto.
  { destruct known; [apply post_ret; typeclasses eauto|apply Hcreate]. }
  intros _. apply post_bind; try typeclasses eauto; [apply Hcheck|].
  intros [existing|]; [apply post_ret; typeclasses eauto|].
  apply post_bind; try typeclasses eauto; [apply Hrecord|].
  intros created. apply post_ret. typeclasses eauto.
Qed.

(** Up to the creation of the pending record the queue, the cache and the
    last reading are not touched. *)
Lemma admission_store_step event : post (admission eng env event) store_step.
Proof.
  assert (Hq : forall {A} (c : M A), post c (quiet (fun _ => true)) -> post c store_step).
  { intros A c. apply post_weaken. intros w w' H. apply quiet_store_changes in H as [H _].
    exact H. }
  apply post_admission; try typeclasses eauto.
  - apply Hq, post_user_findUnique. reflexivity.
  - eapply post_weaken; [|apply (post_user_create (fun _ => true))]; [|reflexivity].
    intros w w' [H _]. exact H.
  - apply Hq, post_pendingReply_findUnique. reflexivity.
  - intros mtype txt.
    eapply post_weaken; [|apply (post_pendingReply_create (fun _ => true))]; [|reflexivity].
    intros w w' [[H _] _]. exact H.
Qed.
End Frames.
(** ** More on the event processor *)

Lemma find_user_In uid w : find_user uid w = true <-> In uid (users w).
Proof.
  unfold find_user. rewrite existsb_exists. split.
  - intros (x & Hin & Heq). apply String.eqb_eq in Heq. subst. exact Hin.
  - intros Hin. exists uid. split; [exact Hin|apply String.eqb_refl].
Qed.

Lemma NoDup_snoc {A} (l : list A) (a : A) :
  List.NoDup l -> ~ In a l -> List.NoDup (l ++ [a]).
Proof.
  induction l as [|x l IH]; simpl; intros Hnd Hnot.
  - apply List.NoDup_cons; [tauto|apply List.NoDup_nil].
  - apply List.NoDup_cons_iff in Hnd as [Hx Hl]. apply List.NoDup_cons.
    + intros Hin. apply in_app_or in Hin as [Hin|[<-|[]]]; tauto.
    + apply IH; tauto.
Qed.

Lemma direct_fx_not_push e : direct_fx e = true -> is_push e = false.
Proof. destruct e; cbv; congruence. Qed.

Lemma entry_fx_not_push e : entry_fx e = true -> is_push e = false.
Proof. destruct e; cbv; congruence. Qed.

Lemma ai_fx_about event i e : ai_fx e = true -> about_event event i e = true.
Proof. destruct e; try discriminate; reflexivity. Qed.

Section Processor.
Context (eng : Engine) (cfg : Config) (env : Env).

(** *** What the processor sends for a message that is not a preset question *)

Lemma respond_not_preset event created stored d w r w' :
  lastSensorData w = Some stored ->
  primitives stored = Some d ->
  existsb (String.eqb (normalizeText eng (eventText eng event))) presetQuestions
  = false ->
  respond eng cfg env event created w = (r, w') ->
  r = Return tt
  /\ performed (FxReply (event_replyToken event) (clipTo eng 1000 (shortMsg eng d)))
               w w'
  /\ grows direct_fx w w'
  /\ cleaned (id created) w w'
  /\ store_step w w'.
Proof.
  intros Hsensor Hd Hnot. unfold respond. cbv zeta. unfold bind at 1, gets.
  rewrite Hsensor. unfold bind at 1. rewrite convert_eq, Hd, Hnot. simpl. intros H.
  assert (Hstep : store_step w w').
  { revert H. apply post_bind; try typeclasses eauto.
    - eapply post_weaken; [|apply (post_replyToUser eng env (fun _ => true))];
        try reflexivity.
      intros w0 w0' Hq. apply quiet_store_changes in Hq as [Hq _]. exact Hq.
    - intros _. eapply post_weaken;
        [|apply (post_deletePendingReply env (fun _ => true))]; try reflexivity.
      intros w0 w0' [[Hq _] _]. exact Hq. }
  apply reply_then_delete in H as (R & C & P & G). auto.
Qed.

(** X11.  A message that is not one of the preset questions (after trimming and
    collapsing its white space), whose reply token has no pending record,
    received while a reading is there whose three values convert.  The
    orchestrator is not involved: no queued call starts, no request is
    sent, nothing is pushed, and the queue and the cache are as they were.
    And either the processor returns, having created the pending record,
    sent a reply that carries the readings and their status texts, and
    asked the store once to delete the record; or the store could not be
    reached at a request before the record existed, and then the processor
    throws the error of the store, having created no record and sent no
    reply. *)
Theorem other_messages_get_the_readings_only event stored d w r w' :
  lastSensorData w = Some stored ->
  primitives stored = Some d ->
  existsb (String.eqb (normalizeText eng (eventText eng event))) presetQuestions
  = false ->
  find_by_token (event_replyToken event) (pendingReplies w) = None ->
  processMessageEvent eng cfg env event w = (r, w') ->
  (count_fx is_push w' = count_fx is_push w
   /\ (count_fx is_start w' = count_fx is_start w
       /\ attempts w' = attempts w
       /\ completions w' = completions w)
   /\ aiCache w' = aiCache w
   /\ chain w' = chain w
   /\ lastCall w' = lastCall w)
  /\ ((r = Return tt
       /\ nextId w' = nextId w + 1
       /\ performed (FxReply (event_replyToken event)
                             (clipTo eng 1000 (shortMsg eng d))) w w'
       /\ deletes w' = S (deletes w))
      \/ (r = Throw (StoreError "unreachable")
          /\ store_failed env w w'
          /\ pendingReplies w' = pendingReplies w
          /\ nextId w' = nextId w
          /\ count_fx is_reply w' = count_fx is_reply w
          /\ deletes w' = deletes w)).
Proof.
  intros Hsensor Hd Hnot Hnew Hrun.
  rewrite processMessageEvent_phases in Hrun.
  step Hrun as entry e w1 E1; pose proof (admission_grows _ _ _ _ _ _ E1) as G1;
    pose proof (admission_store_step _ _ _ _ _ _ E1) as S1;
    pose proof (admission_of_a_new_token _ _ _ _ _ _ Hnew E1) as Hadm;
    apply admission_spec in E1 as (Hs1 & Hphase).
  2:{ injection Hrun as <- <-.
      destruct Hadm as [(created & Habs)|([= ->] & Hfailed)]; [discriminate|].
      destruct Hphase as (Hp & Hn & _). unfold store_step in S1.
      split.
      { split; [eapply grows_count; [apply entry_fx_not_push|exact G1]|].
        split; [eapply not_ai_counts; [apply entry_fx_not_ai|exact G1]|].
        rewrite S1. simpl. auto. }
      right. split; [reflexivity|]. split; [exact Hfailed|].
      split; [exact Hp|]. split; [exact Hn|].
      split; (eapply grows_count; [|exact G1]); intros [] ?;
        try discriminate; reflexivity. }
  destruct Hadm as [(created & [= ->])|(Habs & _)]; [|discriminate].
  destruct Hphase as (_ & _ & _ & _ & Hn).
  rewrite Hsensor in Hs1.
  destruct (respond_not_preset _ _ _ _ _ _ _ Hs1 Hd Hnot Hrun)
    as (-> & Preply & G2 & (Hn2 & _ & Hdel & _) & S2).
  pose proof (store_step_trans _ _ _ S1 S2) as S.
  unfold store_step in S.
  assert (G : grows (fun e => entry_fx e || direct_fx e) w w').
  { eapply grows_trans; eapply grows_weaken; try eassumption;
      intros e0 ->; [reflexivity|apply orb_true_r]. }
  split.
  { split.
    { eapply grows_count; [|exact G]. intros e0 He0.
      apply orb_prop in He0 as [He0|He0];
        [apply entry_fx_not_push|apply direct_fx_not_push]; exact He0. }
    split.
    { eapply not_ai_counts; [|exact G]. intros e0 He0.
      apply orb_prop in He0 as [He0|He0];
        [apply entry_fx_not_ai|apply direct_fx_not_ai]; exact He0. }
    rewrite S. simpl. auto. }
  left. split; [reflexivity|]. split; [lia|].
  split; [eapply performed_grows_l; [exact G1|exact Preply]|].
  rewrite Hdel. unfold deletes.
  rewrite (grows_count _ _ _ _ entry_fx_not_delete G1). reflexivity.
Qed.

(** *** Whom the processor talks to *)

Lemma admission_about event i :
  post (admission eng env event) (grows (about_event event i)).
Proof.
  assert (Hq : forall {A} (c : M A) p, post c (quiet p) -> post c (grows p)).
  { intros A c p. apply post_weaken. intros w w' (_ & _ & G). exact G. }
  apply post_admission; try typeclasses eauto.
  - apply Hq, post_user_findUnique. simpl. apply String.eqb_refl.
  - eapply post_weaken; [|apply post_user_create].
    + intros w w' [_ G]. exact G.
    + simpl. apply String.eqb_refl.
  - apply Hq, post_pendingReply_findUnique. simpl. apply String.eqb_refl.
  - intros mtype txt. eapply post_weaken; [|apply post_pendingReply_create].
    + intros w w' [[_ G] _]. exact G.
    + simpl. apply String.eqb_refl.
Qed.

Lemma respond_about event created :
  post (respond eng cfg env event created)
       (grows (about_event event (id created))).
Proof.
  assert (Hq : forall {A} (c : M A) p, post c (quiet p) -> post c (grows p)).
  { intros A c p. apply post_weaken. intros w w' (_ & _ & G). exact G. }
  apply post_respond; try typeclasses eauto.
  - intros msg. apply Hq, post_replyToUser; [intros text; simpl|reflexivity].
    apply String.eqb_refl.
  - eapply post_weaken; [|apply post_deletePendingReply].
    + intros w w' [[_ G] _]. exact G.
    + simpl. apply Z.eqb_refl.
    + reflexivity.
  - intros q l tp h w r w' H. apply answerWithSensorAI_step in H as (_ & _ & G).
    eapply grows_weaken; [apply ai_fx_about|exact G].
  - intros txt. apply Hq, post_axios_post. simpl. apply String.eqb_refl.
Qed.

(** X12.  Whatever happens while an event is processed concerns its sender only:
    the requests to the store name the user and the reply token of the
    event, every reply goes to that token, a push goes to that user, and
    the only record the store is asked to delete is the one created for
    the event (the next serial id at the start). *)
Theorem an_event_concerns_its_sender_only event w r w' :
  processMessageEvent eng cfg env event w = (r, w') ->
  grows (about_event event (nextId w)) w w'.
Proof.
  rewrite processMessageEvent_phases. intros H.
  step H as entry e w1 E1;
    pose proof (admission_about event (nextId w) _ _ _ E1) as G1;
    [|injection H as <- <-; exact G1].
  apply admission_spec in E1 as (_ & Hphase).
  destruct entry as [created|]; [|injection H as <- <-; exact G1].
  destruct Hphase as (_ & Hid & _).
  apply respond_about in H. rewrite Hid in H.
  eapply grows_trans; eassumption.
Qed.

(** *** The table of users *)

Lemma admission_users event w r w1 :
  admission eng env event w = (r, w1) ->
  (users w1 = users w
   \/ (~ In (source_userId event) (users w)
       /\ users w1 = (users w ++ [source_userId event])%list))
  /\ (forall entry, r = Return entry -> In (source_userId event) (users w1)).
Proof.
  unfold admission. cbv zeta. intros H.
  step H as known e wa Ea.
  2:{ injection H as <- <-.
      apply (post_user_findUnique env (fun _ => true)) in Ea; [|reflexivity].
      apply quiet_keeps_users in Ea. split; [left; exact Ea|discriminate]. }
  assert (Hknown : known = find_user (source_userId event) w /\ users wa = users w).
  { revert Ea. unfold user_findUnique, store_request, bind, request, gets, ret, throw.
    destruct (storeDown env (length (log w))); [discriminate|].
    intros [= <- <-]. split; reflexivity. }
  destruct Hknown as [Hknown Hua]. clear Ea.
  assert (Hupsert : forall u wb,
             (if known then ret tt else user_create env (source_userId event)) wa
             = (u, wb) ->
             (users wb = users w
              \/ (~ In (source_userId event) (users w)
                  /\ users wb = (users w ++ [source_userId event])%list))
             /\ (forall x, u = Return x -> In (source_userId event) (users wb))).
  { intros u wb. destruct known.
    - intros [= <- <-]. split; [left; exact Hua|].
      intros _ _. rewrite Hua. apply find_user_In. symmetry. exact Hknown.
    - unfold user_create, store_request, bind, request, gets, ret, throw, modify.
      destruct (storeDown env (length (log wa)));
        [intros [= <- <-]; split; [left; exact Hua|discriminate]|].
      simpl. set (wq := set_clock _ (add_log _ wa)).
      destruct (find_user (source_userId event) wq) eqn:Hfind;
        [intros [= <- <-]; split; [left; exact Hua|discriminate]|].
      intros [= <- <-]. simpl. rewrite Hua. split.
      + right. split; [|reflexivity]. rewrite <- Hua.
        change (users wa) with (users wq). rewrite <- find_user_In.
        rewrite Hfind. discriminate.
      + intros _ _. apply in_or_app. right. left. reflexivity. }
  step H as u e wb Eb; destruct (Hupsert _ _ eq_refl) as [Hub Hin]; clear Hupsert.
  2:{ injection H as <- <-. split; [exact Hub|discriminate]. }
  specialize (Hin _ eq_refl).
  assert (Hrest : keeps users wb w1).
  { revert H. apply post_bind; try typeclasses eauto.
    - eapply post_weaken; [apply quiet_keeps_users|].
      apply (post_pendingReply_findUnique env (fun _ => true)). reflexivity.
    - intros [existing|]; [apply post_ret; typeclasses eauto|].
      apply post_bind; try typeclasses eauto; [|intros c; apply post_ret; typeclasses eauto].
      eapply post_weaken; [|apply (post_pendingReply_create env (fun _ => true))];
        [|reflexivity].
      intros w0 w0' [_ K]. exact K. }
  unfold keeps in Hrest. rewrite Hrest. split; [exact Hub|]. intros _ _. exact Hin.
Qed.

Lemma respond_keeps_users event created :
  post (respond eng cfg env event created) (keeps users).
Proof.
  apply post_respond; try typeclasses eauto.
  - intros msg. eapply post_weaken; [apply quiet_keeps_users|].
    apply (post_replyToUser eng env (fun _ => true)); reflexivity.
  - eapply post_weaken; [|apply (post_deletePendingReply env (fun _ => true))];
      try reflexivity.
    intros w w' [_ K]. exact K.
  - intros q l tp h w r w' H. apply answerWithSensorAI_step in H.
    apply ai_step_store_changes in H as [_ K]. exact K.
  - intros txt. eapply post_weaken; [apply quiet_keeps_users|].
    apply (post_axios_post env (fun _ => true)). reflexivity.
Qed.

(** X13.  The table of users holds every user once.  Processing an event adds
    at most its sender, at the end of the table and only when the sender
    was not there; no user is ever removed; and when the processor returns,
    the sender is in the table. *)
Theorem the_sender_is_registered_once event w r w' :
  List.NoDup (users w) ->
  processMessageEvent eng cfg env event w = (r, w') ->
  List.NoDup (users w')
  /\ (users w' = users w
      \/ (~ In (source_userId event) (users w)
          /\ users w' = (users w ++ [source_userId event])%list))
  /\ (r = Return tt -> In (source_userId event) (users w')).
Proof.
  intros Hnd. rewrite processMessageEvent_phases. intros H.
  assert (Hgoal : forall w1,
             users w1 = users w
             \/ (~ In (source_userId event) (users w)
                 /\ users w1 = (users w ++ [source_userId event])%list) ->
             List.NoDup (users w1)).
  { intros w1 [-> | [Hnot ->]]; [exact Hnd|apply NoDup_snoc; assumption]. }
  step H as entry e w1 E1; apply admission_users in E1 as [Hu Hin].
  2:{ injection H as <- <-. split; [apply Hgoal, Hu|]. split; [exact Hu|discriminate]. }
  specialize (Hin _ eq_refl).
  assert (Hk : users w' = users w1).
  { destruct entry as [created|]; [|injection H as _ <-; reflexivity].
    apply respond_keeps_users in H. exact H. }
  rewrite Hk. split; [apply Hgoal, Hu|]. split; [exact Hu|]. intros _. exact Hin.
Qed.

(** *** The errors the processor lets through *)

Lemma create_throws api prompt w e w' :
  create env api prompt w = (Throw e, w') -> service_error env e.
Proof.
  unfold create, bind, request.
  destruct (completion env (length (log w))) as [text|e0] eqn:Hc; [discriminate|].
  intros [= <- <-]. left. eexists. exact Hc.
Qed.

Lemma askOpenAI_throws prompt w e w' :
  askOpenAI cfg env prompt w = (Throw e, w') -> service_error env e.
Proof.
  unfold askOpenAI. destruct (OPENAI_API_KEY cfg); simpl; [|discriminate].
  unfold try_catch at 1.
  destruct (responsesApi cfg).
  - unfold bind at 1.
    destruct (create env Responses prompt w) as [[text|e1] w1] eqn:Hc1; [discriminate|].
    unfold try_catch. destruct (chatApi cfg).
    + unfold bind.
      destruct (create env ChatCompletions prompt w1) as [[text|e2] w2] eqn:Hc2;
        [discriminate|].
      intros [= <- <-]. eapply create_throws, Hc2.
    + intros [= <- <-]. eapply create_throws, Hc1.
  - unfold throw at 1. unfold try_catch. destruct (chatApi cfg).
    + unfold bind.
      destruct (create env ChatCompletions prompt w) as [[text|e2] w2] eqn:Hc2;
        [discriminate|].
      intros [= <- <-]. eapply create_throws, Hc2.
    + intros [= <- <-]. right. reflexivity.
Qed.

Lemma retryLoop_throws prompt fuel : forall attempt w e w',
  retryLoop cfg env prompt fuel attempt w = (Throw e, w') -> service_error env e.
Proof.
  induction fuel as [|fuel IH]; intros attempt w e w';
    rewrite retryLoop_unfold;
    destruct (askOpenAI cfg env prompt (beginAttempt attempt w))
      as [[out|err] w1] eqn:Hask;
    try discriminate; apply askOpenAI_throws in Hask.
  - destruct (_ || _); intros [= <- <-]; exact Hask.
  - destruct (_ || _); [intros [= <- <-]; exact Hask|]. apply IH.
Qed.

(** What the orchestrator throws is the reason the queue was rejected
    with, or an error of [askOpenAI]. *)
Lemma answerWithSensorAI_throws q l tp h w e w' :
  answerWithSensorAI eng cfg env q l tp h w = (Throw e, w') ->
  chain w = Rejected e \/ service_error env e.
Proof.
  assert (Hmiss : forall wm,
             chain wm = chain w ->
             missPath eng cfg env q l tp h wm = (Throw e, w') ->
             chain w = Rejected e \/ service_error env e).
  { intros wm Hwm Hm. apply missPath_spec in Hm as (w1 & Hcall & _).
    destruct (chain wm) as [|reason] eqn:Hch.
    - rewrite (safeAskOpenAI_unfold _ _ _ _ Hch) in Hcall.
      destruct (retryLoop _ _ _ _ _ _) as [[out|err] w2] eqn:Hloop; [discriminate|].
      injection Hcall as <- _. right. eapply retryLoop_throws, Hloop.
    - rewrite (safeAskOpenAI_rejected _ _ _ _ _ Hch) in Hcall.
      injection Hcall as <- _. left. congruence. }
  destruct (aiCache w !! cacheKey eng q l tp h) as [entry|] eqn:Hlook.
  - destruct (Z_lt_le_dec (CACHE_TTL_MS cfg) (clock w - t entry)) as [Hold|Hfresh].
    + rewrite (answer_stale _ _ _ _ _ _ _ _ _ Hlook Hold). apply Hmiss. reflexivity.
    + rewrite (answer_fresh _ _ _ _ _ _ _ _ _ Hlook Hfresh).
      destruct (truthy (val entry)); [discriminate|]. apply Hmiss. reflexivity.
  - rewrite (answer_no_entry _ _ _ _ _ _ _ _ Hlook). apply Hmiss. reflexivity.
Qed.

(** What the second phase throws: the TypeError of a reading that does
    not convert, before anything is sent; or, with a reading that
    converts, the failed push, the reason the queue was rejected with, or
    an error of [askOpenAI]. *)
Lemma respond_throws event created w e w' :
  respond eng cfg env event created w = (Throw e, w') ->
  exists stored,
    lastSensorData w = Some stored
    /\ ((primitives stored = None /\ e = TypeError /\ w' = w)
        \/ (primitives stored <> None
            /\ (e = HttpError \/ chain w = Rejected e \/ service_error env e))).
Proof.
  unfold respond. cbv zeta. unfold bind at 1, gets.
  destruct (lastSensorData w) as [stored|].
  2:{ intros H. apply reply_then_delete in H as (R & _). discriminate. }
  intros H. exists stored. split; [reflexivity|].
  step H as d e0 w0 E0; apply convert_spec in E0 as [-> Hd].
  2:{ injection H as <- <-. destruct Hd as [-> Hd]. left. auto. }
  right. split; [congruence|]. revert H.
  destruct (negb (existsb _ presetQuestions)).
  { intros H. apply reply_then_delete in H as (R & _). discriminate. }
  intros H. step H as u e0 w1 E1.
  2:{ apply replyToUser_spec in E1 as (R & _). discriminate. }
  apply (post_replyToUser eng env (fun _ => true)) in E1; try reflexivity.
  apply quiet_store_changes in E1 as [E1 _]. unfold store_step in E1.
  step H as aiText e0 w2 E2.
  2:{ injection H as <- <-. right. apply answerWithSensorAI_throws in E2.
      rewrite E1 in E2. exact E2. }
  destruct (negb (truthy (trim eng aiText))).
  { apply reply_then_delete in H as (R & _). discriminate. }
  step H as u' e0 w3 E3.
  - apply deletePendingReply_spec in H as (R & _). discriminate.
  - injection H as <- <-. left. revert E3.
    unfold axios_post, bind, request, ret, throw.
    destruct (lineDown env _); [intros [= <- _]; reflexivity|discriminate].
Qed.

Lemma eventMessageType_text event :
  String.eqb (eventMessageType event) "text" = true ->
  message_type event = Some "text".
Proof.
  unfold eventMessageType. destruct (message_type event) as [ty|]; [|discriminate].
  destruct (truthy ty); [|discriminate].
  intros H. apply String.eqb_eq in H. congruence.
Qed.

(** Reading the event changes nothing; it throws on a text message whose
    text is no string, and otherwise gives the event with its text. *)
Lemma readEvent_spec event w r w' :
  Inbound.readEvent event w = (r, w') ->
  w' = w
  /\ match r with
     | Return ev =>
         source_userId ev = Inbound.in_userId event
         /\ event_replyToken ev = Inbound.in_replyToken event
     | Throw e =>
         e = TypeError
         /\ Inbound.in_type event = Some "text"
         /\ forall s, Inbound.in_text event <> Plain (JString s)
     end.
Proof.
  unfold Inbound.readEvent.
  destruct (String.eqb _ "text") eqn:Htext; [|intros [= <- <-]; auto].
  apply eventMessageType_text in Htext. simpl in Htext.
  destruct (Inbound.in_text event) as [[| | | |s|]|]; intros [= <- <-];
    split; try reflexivity; try (split; reflexivity);
    (split; [reflexivity|split; [exact Htext|intros s0; discriminate]]).
Qed.

(** X14.  What [processMessageEvent] can throw on an event as it is received
    (one whose message type, when there is one, is a string), and so what
    the webhook route hands to [console.error].  First, a TypeError when
    the event is a text message whose text is no string: nothing has been
    done then, not even a request to the store.  Then, before the pending
    record exists, an error of the store: the table of pending records is
    as it was and nothing was done but requests to the store, so the
    sender is told nothing.  After that, with a reading there: a TypeError
    when one of its values does not convert, again with nothing sent; and
    otherwise the failed push to LINE, an error of the completion service
    (or of a client without endpoint), or the reason the queue was
    rejected with by an earlier call.  A failed reply and a failed deletion
    are never thrown. *)
Theorem errors_of_the_event_processor event w e w' :
  Inbound.processMessageEvent eng cfg env event w = (Throw e, w') ->
  (e = TypeError
   /\ w' = w
   /\ Inbound.in_type event = Some "text"
   /\ forall s, Inbound.in_text event <> Plain (JString s))
  \/ (is_store_error e
      /\ pendingReplies w' = pendingReplies w /\ nextId w' = nextId w
      /\ grows entry_fx w w')
  \/ (nextId w' = nextId w + 1
      /\ exists stored,
          lastSensorData w = Some stored
          /\ ((primitives stored = None /\ e = TypeError /\ grows entry_fx w w')
              \/ (primitives stored <> None
                  /\ (e = HttpError \/ chain w = Rejected e
                      \/ service_error env e)))).
Proof.
  unfold Inbound.processMessageEvent. intros H.
  step H as ev e0 w0 E0; apply readEvent_spec in E0 as [-> Hev].
  2:{ injection H as <- <-. left. destruct Hev as (-> & Hty & Htxt). auto. }
  right. clear Hev. rewrite processMessageEvent_phases in H.
  step H as entry e0 w1 E1.
  2:{ injection H as <- <-. left. split; [eapply admission_throws, E1|].
      pose proof (admission_grows _ _ _ _ _ _ E1) as G1.
      apply admission_spec in E1 as (_ & Hp & Hn & _). auto. }
  pose proof (admission_store_step _ _ _ _ _ _ E1) as S1.
  pose proof (admission_grows _ _ _ _ _ _ E1) as G1.
  apply admission_spec in E1 as (Hs1 & Hphase).
  destruct entry as [created|]; [|discriminate].
  destruct Hphase as (_ & _ & _ & _ & Hn).
  right. pose proof (respond_spec _ _ _ _ _ _ _ _ H) as (_ & _ & Hn' & _).
  apply respond_throws in H as (stored & Hsensor & Hcases).
  split; [lia|]. exists stored. split; [congruence|].
  destruct Hcases as [(Hnone & -> & ->)|(Hsome & Herr)]; [left; auto|].
  right. split; [exact Hsome|].
  unfold store_step in S1. rewrite S1 in Herr. simpl in Herr. exact Herr.
Qed.
(** X27.  A reading with a value that does not convert, which the sensor route
    of [src/index.js] stores like any other, stops the processor for every
    event whose reply token has no pending record: no reply is sent,
    nothing is pushed, no request goes to the completion service and the
    store is not asked to delete anything.  Unless the store could not be
    reached before, the pending record is created and stays in the table,
    and the processor throws the TypeError of the conversion. *)
Theorem a_reading_that_does_not_convert_stops_the_processor event stored w r w' :
  lastSensorData w = Some stored ->
  primitives stored = None ->
  find_by_token (event_replyToken event) (pendingReplies w) = None ->
  processMessageEvent eng cfg env event w = (r, w') ->
  (count_fx is_reply w' = count_fx is_reply w
   /\ count_fx is_push w' = count_fx is_push w
   /\ deletes w' = deletes w
   /\ completions w' = completions w
   /\ lastSensorData w' = lastSensorData w)
  /\ ((r = Throw TypeError
       /\ nextId w' = nextId w + 1
       /\ exists created,
           In created (pendingReplies w')
           /\ replyToken created = event_replyToken event
           /\ id created = nextId w)
      \/ (r = Throw (StoreError "unreachable")
          /\ store_failed env w w'
          /\ pendingReplies w' = pendingReplies w
          /\ nextId w' = nextId w)).
Proof.
  intros Hsensor Hbad Hnew Hrun.
  rewrite processMessageEvent_phases in Hrun.
  step Hrun as entry e w1 E1; pose proof (admission_grows _ _ _ _ _ _ E1) as G1;
    pose proof (admission_of_a_new_token _ _ _ _ _ _ Hnew E1) as Hadm;
    apply admission_spec in E1 as (Hs1 & Hphase).
  - destruct Hadm as [(created & [= ->])|(Habs & _)]; [|discriminate].
    destruct Hphase as (_ & Hid & Htok & Hrec & Hn).
    rewrite Hsensor in Hs1.
    unfold respond in Hrun. cbv zeta in Hrun. unfold bind at 1, gets in Hrun.
    rewrite Hs1 in Hrun. unfold bind at 1 in Hrun.
    rewrite convert_eq, Hbad in Hrun. injection Hrun as <- <-.
    split.
    { repeat split; try (eapply grows_count; [|exact G1]; intros [] ?;
                         try discriminate; reflexivity).
      congruence. }
    left. split; [reflexivity|]. split; [exact Hn|].
    exists created. split; [|split; assumption].
    rewrite Hrec. apply in_or_app. right. left. reflexivity.
  - injection Hrun as <- <-.
    destruct Hadm as [(created & Habs)|([= ->] & Hfailed)]; [discriminate|].
    destruct Hphase as (Hp & Hn & _).
    split.
    { repeat split; try (eapply grows_count; [|exact G1]; intros [] ?;
                         try discriminate; reflexivity).
      assumption. }
    right. auto.
Qed.
End Processor.
(** ** The sensor route and the latest reading *)

Lemma find_app {A} (f : A -> bool) (l1 l2 : list A) :
  find f (l1 ++ l2)
  = match find f l1 with
    | Some x => Some x
    | None => find f l2
    end.
Proof.
  induction l1 as [|a l1 IH]; simpl; [reflexivity|].
  destruct (f a); [reflexivity|exact IH].
Qed.

Lemma find_ext {A} (f g : A -> bool) (l : list A) :
  (forall x, f x = g x) -> find f l = find g l.
Proof.
  intros H. induction l as [|a l IH]; simpl; [reflexivity|].
  rewrite H, IH. reflexivity.
Qed.

(** Where a sequence of requests leaves the reading, for a route that
    stores [stored v] for the bodies on which [accepts] gives [v] and
    leaves the reading alone for the others. *)
Lemma ingestAll_world {V} (route : SensorBody -> M Response)
      (accepts : SensorBody -> option V) (stored : V -> Reading) bodies :
  (forall body w,
      snd (route body w)
      = match accepts body with
        | Some v => set_lastSensorData (Some (stored v)) w
        | None => w
        end) ->
  forall w,
    ingestAll route bodies w
    = match find (fun body => match accepts body with
                              | Some _ => true
                              | None => false
                              end) (rev bodies) with
      | Some body =>
          match accepts body with
          | Some v => set_lastSensorData (Some (stored v)) w
          | None => w
          end
      | None => w
      end.
Proof.
  intros Hroute. induction bodies as [|body rest IH]; intros w; [reflexivity|].
  simpl. rewrite IH, Hroute, find_app.
  destruct (find _ (rev rest)) as [found|] eqn:Hfound.
  - apply find_some in Hfound as [_ Hacc].
    destruct (accepts found); [|discriminate].
    destruct (accepts body); reflexivity.
  - simpl. destruct (accepts body) eqn:Hacc; rewrite ?Hacc; reflexivity.
Qed.

Section Latest.
Context (eng : Engine).

Lemma postSensorData_world body w :
  snd (postSensorData body w)
  = match (if missing_field body then None else Some body) with
    | Some b => set_lastSensorData (Some (received b)) w
    | None => w
    end.
Proof. rewrite postSensorData_eq. destruct (missing_field body); reflexivity. Qed.

Lemma IndexTs_postSensorData_world body w :
  snd (IndexTs.postSensorData eng body w)
  = match bodyValues body with
    | Some d => set_lastSensorData (Some (coerced eng d)) w
    | None => w
    end.
Proof.
  rewrite IndexTs_postSensorData_eq. unfold bodyValues, received.
  destruct (missing_field body); [reflexivity|].
  destruct (primitives _); reflexivity.
Qed.

(** X15.  The reading is a single slot that every accepted body overwrites.
    After any sequence of requests to the sensor route, the reading that
    the latest-reading route hands to [res.json] is the one the last
    accepted body left there, or what it was before when no body was
    accepted, status 404 included; and the sequence changed nothing else.
    [src/index.js] accepts every body with its three fields and keeps the
    values as received; [backend/src/index.ts] accepts a body when its
    three fields are there and convert, and keeps their [Number]: a body
    on which it throws leaves the reading of the body before. *)
Theorem latest_is_the_last_complete_body bodies w :
  (ingestAll postSensorData bodies w
   = match lastComplete bodies with
     | Some body => set_lastSensorData (Some (received body)) w
     | None => w
     end
   /\ getLatest (ingestAll postSensorData bodies w)
      = match lastComplete bodies with
        | Some body => LatestFound (received body)
        | None => getLatest w
        end)
  /\ (ingestAll (IndexTs.postSensorData eng) bodies w
      = match lastConvertible bodies with
        | Some d => set_lastSensorData (Some (coerced eng d)) w
        | None => w
        end
      /\ getLatest (ingestAll (IndexTs.postSensorData eng) bodies w)
         = match lastConvertible bodies with
           | Some d => LatestFound (coerced eng d)
           | None => getLatest w
           end).
Proof.
  assert (Hjs : ingestAll postSensorData bodies w
                = match lastComplete bodies with
                  | Some body => set_lastSensorData (Some (received body)) w
                  | None => w
                  end).
  { rewrite (ingestAll_world _ (fun body => if missing_field body then None
                                             else Some body)
               received bodies postSensorData_world).
    unfold lastComplete.
    rewrite (find_ext (fun body => match (if missing_field body then None
                                          else Some body) with
                                   | Some _ => true
                                   | None => false
                                   end)
               (fun body => negb (missing_field body)))
      by (intros body; destruct (missing_field body); reflexivity).
    destruct (find _ (rev bodies)) as [found|] eqn:Hfound; [|reflexivity].
    apply find_some in Hfound as [_ Hacc].
    destruct (missing_field found); [discriminate|reflexivity]. }
  assert (Hts : ingestAll (IndexTs.postSensorData eng) bodies w
                = match lastConvertible bodies with
                  | Some d => set_lastSensorData (Some (coerced eng d)) w
                  | None => w
                  end).
  { rewrite (ingestAll_world _ bodyValues (coerced eng) bodies
               IndexTs_postSensorData_world).
    unfold lastConvertible.
    destruct (find _ (rev bodies)) as [found|]; reflexivity. }
  rewrite Hjs, Hts.
  destruct (lastComplete bodies), (lastConvertible bodies); repeat split.
Qed.
End Latest.

(** ** The ask routes *)

Section AskRoutes.
Context (eng : Engine) (cfg : Config) (env : Env).

(** The inner [try] of the route of [src/index.js]: with values that
    convert, the answer of the orchestrator or the summary; with a value
    that does not, the TypeError is thrown again by the summary. *)
Lemma answerOrFallback_spec q stored w :
  answerOrFallback eng cfg env q stored w
  = match primitives stored with
    | Some d =>
        match answerWithSensorAI eng cfg env q (light d) (temp d) (humidity d) w with
        | (Return ai, w1) =>
            (Return (AskOk (cleanAIResponse eng ai) (Some "openai")), w1)
        | (Throw e, w1) =>
            (Return (AskOk (fallbackText eng (light d) (temp d) (humidity d))
                           (Some "fallback")),
             add_log (FxError "OpenAI error") w1)
        end
    | None => (Throw TypeError, add_log (FxError "OpenAI error") w)
    end.
Proof.
  unfold answerOrFallback, try_catch. unfold bind at 1. rewrite convert_eq.
  destruct (primitives stored) as [d|] eqn:Hd.
  - unfold bind at 1.
    destruct (answerWithSensorAI _ _ _ _ _ _ _ _) as [[ai|e] w1]; [reflexivity|].
    unfold bind at 1, note, modify. unfold bind at 1.
    rewrite convert_eq, Hd. reflexivity.
  - unfold bind at 1, note, modify. unfold bind at 1.
    rewrite convert_eq, Hd. reflexivity.
Qed.

(** The route, by the question and the reading it finds. *)
Lemma askAi_unfold body w :
  askAi eng cfg env body w
  = match ask_question body with
    | JString q =>
        if truthy q
        then match askReading body w with
             | Some stored =>
                 match answerOrFallback eng cfg env q stored w with
                 | (Return resp, w1) => (Return resp, w1)
                 | (Throw err, w1) =>
                     (Return (AskError 500 "ask-ai failed" (Some err)),
                      add_log (FxError "ask-ai fatal") w1)
                 end
             | None =>
                 (Return (AskError 400
                            "❌ ยังไม่มีข้อมูลเซ็นเซอร์ (ไม่พบทั้งใน body และ server)"
                            None), w)
             end
        else (Return (AskError 400 "❌ missing question" None), w)
    | _ => (Return (AskError 400 "❌ missing question" None), w)
    end.
Proof.
  unfold askAi, askReading.
  destruct (ask_question body) as [| |b|n|q|repr]; try reflexivity.
  destruct (truthy q); cbn [negb]; [|reflexivity].
  destruct (forallb is_real_number
              [ask_light body; ask_temp body; ask_humidity body]).
  - unfold try_catch.
    destruct (answerOrFallback _ _ _ _ _ _) as [[resp|err] w1]; reflexivity.
  - unfold try_catch, bind, gets. destruct (lastSensorData w) as [stored|]; simpl;
      [|reflexivity].
    destruct (answerOrFallback _ _ _ _ _ _) as [[resp|err] w1]; reflexivity.
Qed.

(** X16.  The ask route of [src/index.js] always answers.  A refusal, status
    400, changes nothing.  An answer, status 200, comes from the
    orchestrator or, when the orchestrator fails, is the summary of the
    readings.  Status 500 is answered in one case only: the reading in use
    is the last reading of the server and one of its values does not
    convert, so that the prompt and then the summary throw a TypeError;
    the two errors are logged and nothing is sent.  In every case the last
    reading and the two tables of the store are as they were: readings
    given in the body are used for the answer, never stored. *)
Theorem the_ask_route_always_answers body w r w' :
  askAi eng cfg env body w = (r, w') ->
  (exists resp,
      r = Return resp
      /\ match resp with
         | AskOk _ source =>
             (source = Some "openai" \/ source = Some "fallback")
             /\ askReadings body w <> None
         | AskError status _ detail =>
             (status = 400 /\ detail = None /\ w' = w)
             \/ (status = 500 /\ detail = Some TypeError
                 /\ (exists stored,
                        lastSensorData w = Some stored /\ primitives stored = None)
                 /\ w' = add_log (FxError "ask-ai fatal")
                            (add_log (FxError "OpenAI error") w))
         end)
  /\ lastSensorData w' = lastSensorData w
  /\ users w' = users w
  /\ pendingReplies w' = pendingReplies w.
Proof.
  rewrite askAi_unfold.
  assert (Hrefuse : forall error,
             (Return (AskError 400 error None), w) = (r, w') ->
             (exists resp,
                 r = Return resp
                 /\ match resp with
                    | AskOk _ source =>
                        (source = Some "openai" \/ source = Some "fallback")
                        /\ askReadings body w <> None
                    | AskError status _ detail =>
                        (status = 400 /\ detail = None /\ w' = w)
                        \/ (status = 500 /\ detail = Some TypeError
                            /\ (exists stored,
                                   lastSensorData w = Some stored
                                   /\ primitives stored = None)
                            /\ w' = add_log (FxError "ask-ai fatal")
                                       (add_log (FxError "OpenAI error") w))
                    end)
             /\ lastSensorData w' = lastSensorData w
             /\ users w' = users w
             /\ pendingReplies w' = pendingReplies w).
  { intros error [= <- <-]. split; [eexists; split; [reflexivity|]; simpl; auto|].
    auto. }
  destruct (ask_question body) as [| |b|n|q|repr]; try apply Hrefuse.
  destruct (truthy q); [|apply Hrefuse].
  destruct (askReading body w) as [stored|] eqn:Hreading; [|apply Hrefuse].
  rewrite answerOrFallback_spec.
  destruct (primitives stored) as [d|] eqn:Hd.
  - assert (Hread : askReadings body w <> None)
      by (unfold askReadings; rewrite Hreading, Hd; discriminate).
    destruct (answerWithSensorAI eng cfg env q (light d) (temp d) (humidity d) w)
      as [[ai|e] w1] eqn:Hai;
      apply answerWithSensorAI_step in Hai as (E & _);
      unfold store_untouched in E; intros [= <- <-];
      (split; [eexists; split; [reflexivity|]; simpl; split; [auto|exact Hread]|]);
      simpl; rewrite E; auto.
  - intros [= <- <-]. split; [|auto].
    eexists. split; [reflexivity|]. right.
    split; [reflexivity|]. split; [reflexivity|]. split; [|reflexivity].
    exists stored. split; [|exact Hd].
    unfold askReading in Hreading.
    destruct (forallb _ _); [|exact Hreading].
    injection Hreading as <-. discriminate Hd.
Qed.

(** X18.  Once a queued call has failed, the ask route of [src/index.js] keeps
    answering, but only with what the cache still serves: a question with
    readings whose fingerprint has no entry gets the summary of the
    readings at once, and nothing happens but the logging of the error: no
    wait, no attempt, no request to the completion service. *)
Theorem the_ask_route_after_a_failed_call body q l tp h reason w :
  chain w = Rejected reason ->
  ask_question body = JString q ->
  q <> EmptyString ->
  askReadings body w = Some (l, tp, h) ->
  aiCache w !! cacheKey eng q l tp h = None ->
  askAi eng cfg env body w
  = (Return (AskOk (fallbackText eng l tp h) (Some "fallback")),
     add_log (FxError "OpenAI error") w).
Proof.
  intros Hch Hq Hne Hread Hlook. rewrite askAi_unfold, Hq.
  apply truthy_true in Hne. rewrite Hne.
  unfold askReadings in Hread.
  destruct (askReading body w) as [stored|]; [|discriminate].
  rewrite answerOrFallback_spec.
  destruct (primitives stored) as [d|]; [|discriminate].
  injection Hread as <- <- <-.
  rewrite (answer_no_entry _ _ _ _ _ _ _ _ Hlook).
  unfold missPath. unfold bind at 1.
  rewrite (safeAskOpenAI_rejected _ _ _ _ _ Hch). reflexivity.
Qed.

(** X19.  The ask route of [backend/src/index.ts]: it always answers; without a
    reading it refuses before it looks at the question; with a reading and
    a truthy question that convert, and an API key, it sends exactly one
    request, answers with the cleaned text of the response, and answers
    status 500 when the request fails, whatever the failure: there is no
    retry, no fallback and no cache.  A truthy question that does not
    convert, which the test of the route lets through, is answered with
    status 500 as well, and nothing is sent. *)
Theorem the_ask_route_of_index_ts question w r w' :
  IndexTs.askAi eng cfg env question w = (r, w') ->
  (exists resp, r = Return resp)
  /\ (lastSensorData w = None ->
      r = Return (AskError 400 "❌ ยังไม่มีข้อมูลเซ็นเซอร์" None) /\ w' = w)
  /\ (forall stored d q,
         lastSensorData w = Some stored ->
         primitives stored = Some d ->
         question = Plain q ->
         js_truthy q = true ->
         OPENAI_API_KEY cfg = true ->
         completions w' = S (completions w)
         /\ log w'
            = (match completion env (length (log w)) with
               | Resp _ => []
               | Fail _ => [(clock w', FxError "ask-ai error")]
               end
               ++ (clock w,
                   FxCompletion Responses
                     (sensorPrompt eng (ToString eng q) (light d) (temp d)
                                   (humidity d)))
               :: log w)%list
         /\ r = match completion env (length (log w)) with
                | Resp text =>
                    Return (AskOk (cleanAIResponse eng (default noReplyText text))
                                  None)
                | Fail e => Return (AskError 500 "ask-ai failed" None)
                end)
  /\ (forall stored,
         lastSensorData w = Some stored ->
         json_truthy question = true ->
         primitives stored = None \/ question = Opaque ->
         r = Return (AskError 500 "ask-ai failed" None)
         /\ w' = add_log (FxError "ask-ai error") w).
Proof.
  unfold IndexTs.askAi, try_catch. unfold bind at 1, gets.
  destruct (lastSensorData w) as [stored|] eqn:Hsensor.
  2:{ intros [= <- <-]. split; [eexists; reflexivity|].
      split; [auto|]. split; [intros stored d q Habs|intros stored Habs]; discriminate. }
  destruct (json_truthy question) eqn:Hq; cbn [negb].
  2:{ intros [= <- <-]. split; [eexists; reflexivity|].
      split; [discriminate|]. split.
      - intros stored' d q _ _ -> Hq'. simpl in Hq. congruence.
      - intros stored' _ Habs. discriminate. }
  unfold bind at 1. rewrite convert_eq.
  destruct (primitives stored) as [d|] eqn:Hd.
  2:{ unfold note, modify, bind, ret. intros [= <- <-].
      split; [eexists; reflexivity|]. split; [discriminate|]. split.
      - intros stored' d q [= <-]. congruence.
      - intros stored' _ _ _. split; reflexivity. }
  unfold bind at 1. rewrite toPrimitive_spec.
  destruct question as [q|]; simpl.
  2:{ unfold note, modify, bind, ret. intros [= <- <-].
      split; [eexists; reflexivity|]. split; [discriminate|]. split.
      - intros stored' d' q _ _ Habs. discriminate.
      - intros stored' _ _ _. split; reflexivity. }
  unfold IndexTs.answerWithSensorAI, IndexTs.askOpenAI.
  destruct (OPENAI_API_KEY cfg) eqn:Hkey; simpl.
  2:{ intros [= <- <-]. split; [eexists; reflexivity|].
      split; [discriminate|]. split.
      - intros stored' d' q' _ _ _ _ Habs. discriminate.
      - intros stored' [= <-] _ [Habs|Habs]; [congruence|discriminate]. }
  unfold create, bind, request, note, modify, ret, throw.
  destruct (completion env (length (log w))) as [text|e]; intros [= <- <-];
    (split; [eexists; reflexivity|]); (split; [discriminate|]);
    (split; [intros stored' d' q' [= <-] Hd' [= <-] _ _;
             assert (d' = d) by congruence; subst d';
             split; [reflexivity|split; reflexivity]
            |intros stored' [= <-] _ [Habs|Habs]; [congruence|discriminate]]).
Qed.

(** X20.  [replyToUserAndDelete] of [backend/src/index.ts] never throws, and it
    asks the store to delete the pending record only after the reply was
    delivered: when the access token of LINE is not configured nothing is
    sent and nothing deleted, and when the request to LINE fails the record
    stays.  Either failure is logged. *)
Theorem the_record_goes_only_after_the_reply i token msg w r w' :
  IndexTs.replyToUserAndDelete eng cfg env i token msg w = (r, w') ->
  r = Return tt
  /\ (LINE_ACCESS_TOKEN cfg = EmptyString ->
      w' = add_log (FxError "LINE reply error") w)
  /\ (deletes w' = deletes w /\ pendingReplies w' = pendingReplies w
      \/ deletes w' = S (deletes w)
         /\ LINE_ACCESS_TOKEN cfg <> EmptyString
         /\ lineDown env (length (log w)) = false
         /\ performed (FxReply token (clipTo eng 4000 msg)) w w')
  /\ (pendingReplies w' <> pendingReplies w ->
      performed (FxLog "LINE reply sent") w w').
Proof.
  unfold IndexTs.replyToUserAndDelete, try_catch, axios_post, pendingReply_delete,
    store_request, bind, request, gets, note, modify, ret, throw.
  destruct (truthy (LINE_ACCESS_TOKEN cfg)) eqn:Htok; simpl.
  2:{ intros [= <- <-]. split; [reflexivity|]. split; [reflexivity|].
      split; [left; split; reflexivity|]. intros Habs. exfalso. apply Habs. reflexivity. }
  apply truthy_true in Htok.
  destruct (lineDown env (length (log w))) eqn:Hline.
  { intros [= <- <-]. split; [reflexivity|]. split; [intros Habs; contradiction|].
    split; [left; split; reflexivity|]. intros Habs. exfalso. apply Habs. reflexivity. }
  simpl. destruct (storeDown env _).
  { intros [= <- <-]. split; [reflexivity|]. split; [intros Habs; contradiction|].
    split; [right|intros Habs; exfalso; apply Habs; reflexivity].
    split; [reflexivity|]. split; [exact Htok|]. split; [reflexivity|performed_tac]. }
  simpl. destruct (has_id i (pendingReplies w)); intros [= <- <-];
    (split; [reflexivity|]); (split; [intros Habs; contradiction|]);
    (split; [right; split; [reflexivity|]; split; [exact Htok|];
             split; [reflexivity|performed_tac]|]).
  - intros _. performed_tac.
  - intros Habs. exfalso. apply Habs. reflexivity.
Qed.
End AskRoutes.
(** ** The fingerprint of the cache *)

Lemma append_String x (a b : string) : (String x a ++ b = String x (a ++ b))%string.
Proof. reflexivity. Qed.

Lemma append_Empty (b : string) : (EmptyString ++ b = b)%string.
Proof. reflexivity. Qed.

Lemma append_assoc (a b c : string) : ((a ++ b) ++ c = a ++ (b ++ c))%string.
Proof.
  induction a as [|x a IH]; [reflexivity|].
  rewrite !append_String, IH. reflexivity.
Qed.

Lemma no_bar_after_bar (a b : string) : no_bar (a ++ String "|" b) = false.
Proof.
  induction a as [|x a IH]; [reflexivity|].
  rewrite append_String. simpl. rewrite IH. apply andb_false_r.
Qed.

(** A text is cut in one way only at its last bar. *)
Lemma cut_at_last_bar (a : string) : forall a' b b',
  no_bar b = true -> no_bar b' = true ->
  (a ++ String "|" b = a' ++ String "|" b')%string -> a = a' /\ b = b'.
Proof.
  induction a as [|x a IH]; intros [|x' a'] b b' Hb Hb';
    rewrite ?append_String, ?append_Empty.
  - intros [= ->]. split; reflexivity.
  - intros [= _ ->]. rewrite no_bar_after_bar in Hb. discriminate.
  - intros [= _ <-]. rewrite no_bar_after_bar in Hb'. discriminate.
  - intros [= -> H]. destruct (IH _ _ _ Hb Hb' H) as [-> ->]. split; reflexivity.
Qed.

Section Fingerprint.
Context (eng : Engine).

Lemma cacheKey_assoc q l tp h :
  cacheKey eng q l tp h
  = (((q ++ String "|" (roundedText eng l)) ++ String "|" (roundedText eng tp))
       ++ String "|" (roundedText eng h))%string.
Proof.
  unfold cacheKey, roundedText. rewrite !append_assoc. reflexivity.
Qed.

(** X21.  Two calls share an entry of the cache only when they ask the same
    question, character by character, about readings whose rounded values
    print the same: as long as the printed numbers contain no vertical
    bar, a question that contains one cannot be taken for another. *)
Theorem fingerprints_do_not_collide q l tp h q' l' t' h' :
  forallb (fun v => no_bar (roundedText eng v)) [l; tp; h; l'; t'; h'] = true ->
  cacheKey eng q l tp h = cacheKey eng q' l' t' h' ->
  q = q'
  /\ roundedText eng l = roundedText eng l'
  /\ roundedText eng tp = roundedText eng t'
  /\ roundedText eng h = roundedText eng h'.
Proof.
  simpl. rewrite !andb_true_iff.
  intros (Hl & Ht & Hh & Hl' & Ht' & Hh' & _).
  rewrite !cacheKey_assoc. intros H.
  apply cut_at_last_bar in H as [H Eh]; [|assumption|assumption].
  apply cut_at_last_bar in H as [H Et]; [|assumption|assumption].
  apply cut_at_last_bar in H as [H El]; [|assumption|assumption].
  auto.
Qed.
End Fingerprint.

(** ** A preset question *)

Lemma reply_fx_not_push e : reply_fx e = true -> is_push e = false.
Proof. destruct e; cbv; congruence. Qed.

Lemma ai_fx_not_push e : ai_fx e = true -> is_push e = false.
Proof. destruct e; cbv; congruence. Qed.

Lemma delete_fx_not_push e : delete_fx e = true -> is_push e = false.
Proof. destruct e; cbv; congruence. Qed.

Lemma performed_trans_l e w w1 w2 :
  performed e w w1 -> (exists new, log w2 = (new ++ log w1)%list) -> performed e w w2.
Proof.
  intros (n1 & E1 & I1) (n2 & E2). exists (n2 ++ n1)%list. split.
  - rewrite E2, E1. apply app_assoc.
  - rewrite map_app. apply in_or_app. right. exact I1.
Qed.

Section Preset.
Context (eng : Engine) (cfg : Config) (env : Env).

Lemma axios_post_push_count to txt w r w' :
  axios_post env (FxPush to txt) w = (r, w') ->
  count_fx is_push w' = S (count_fx is_push w).
Proof.
  unfold axios_post, bind, request, ret, throw.
  destruct (lineDown env (length (log w))); intros [= <- <-]; reflexivity.
Qed.

(** The second phase for a preset question, when it returns. *)
Lemma respond_preset event created stored d w w' :
  lastSensorData w = Some stored ->
  primitives stored = Some d ->
  existsb (String.eqb (normalizeText eng (eventText eng event))) presetQuestions
  = true ->
  respond eng cfg env event created w = (Return tt, w') ->
  performed (FxReply (event_replyToken event) (clipTo eng 1000 askingText)) w w'
  /\ exists aiText w1 w2,
      store_step w w1
      /\ answerWithSensorAI eng cfg env (normalizeText eng (eventText eng event))
           (light d) (temp d) (humidity d) w1 = (Return aiText, w2)
      /\ if truthy (trim eng aiText)
         then count_fx is_push w' = S (count_fx is_push w)
              /\ performed (FxPush (source_userId event)
                              (aiAnswerText eng
                                 (normalizeText eng (eventText eng event))
                                 (trim eng aiText))) w w'
         else count_fx is_push w' = count_fx is_push w
              /\ performed (FxReply (event_replyToken event)
                              (clipTo eng 1000 emptyAnswerText)) w w'.
Proof.
  intros Hsensor Hd Hpreset. unfold respond. cbv zeta. unfold bind at 1, gets.
  rewrite Hsensor. unfold bind at 1. rewrite convert_eq, Hd, Hpreset. simpl. intros H.
  step H as u e w1 E1; [|discriminate].
  assert (S1 : store_step w w1).
  { apply (post_replyToUser eng env (fun _ => true)) in E1; try reflexivity.
    apply quiet_store_changes in E1 as [E1 _]. exact E1. }
  apply replyToUser_spec in E1 as (_ & B1 & P1).
  step H as aiText e w2 E2; [|discriminate].
  pose proof (answerWithSensorAI_bystander _ _ _ _ _ _ _ _ _ _ E2) as B2.
  pose proof (bystander_count _ _ _ _ reply_fx_not_push B1) as C1.
  pose proof (bystander_count _ _ _ _ ai_fx_not_push B2) as C2.
  destruct B1 as (_ & _ & _ & G1), B2 as (_ & _ & _ & G2).
  assert (P2 : performed (FxReply (event_replyToken event) (clipTo eng 1000 askingText))
                         w w2)
    by (eapply performed_grows_r; eassumption).
  assert (G12 : grows (fun e => reply_fx e || ai_fx e) w w2).
  { eapply grows_trans; eapply grows_weaken; try eassumption;
      intros e0 ->; [reflexivity|apply orb_true_r]. }
  destruct (truthy (trim eng aiText)) eqn:Hblank; simpl in H.
  - step H as u' e w3 E3; [|discriminate].
    pose proof (axios_post_push_count _ _ _ _ _ E3) as C3.
    apply (axios_post_spec env is_push) in E3 as ((_ & _ & _ & G3) & P3);
      [|reflexivity].
    apply deletePendingReply_spec in H as (_ & _ & _ & G4 & _).
    pose proof (grows_count _ _ _ _ delete_fx_not_push G4) as C4.
    split.
    { eapply performed_grows_r; [|exact G4].
      eapply performed_grows_r; [exact P2|exact G3]. }
    exists aiText, w1, w2. split; [exact S1|]. split; [exact E2|]. rewrite Hblank.
    split; [congruence|].
    eapply performed_grows_r; [|exact G4].
    eapply performed_grows_l; [exact G12|exact P3].
  - apply reply_then_delete in H as (_ & _ & P3 & G3).
    pose proof (grows_count _ _ _ _ direct_fx_not_push G3) as C3.
    split; [eapply performed_grows_r; eassumption|].
    exists aiText, w1, w2. split; [exact S1|]. split; [exact E2|]. rewrite Hblank.
    split; [congruence|].
    eapply performed_grows_l; [exact G12|exact P3].
Qed.

(** X22.  A preset question whose reply token has no pending record, received
    while a reading is there whose three values convert.  When the
    processor returns, it has created the pending record and replied that
    it is asking, the orchestrator has returned a text for the normalized
    question and the reading (called on the queue and the cache as they
    were when the event arrived), and then: when that text is not blank, the
    answer was pushed to the sender, once; when it is blank, nothing was
    pushed and the notice of an empty answer was sent as a second reply on
    the same reply token.  In both cases the store was asked once to delete
    the pending record. *)
Theorem a_preset_question_is_answered event stored d w w' :
  lastSensorData w = Some stored ->
  primitives stored = Some d ->
  existsb (String.eqb (normalizeText eng (eventText eng event))) presetQuestions
  = true ->
  find_by_token (event_replyToken event) (pendingReplies w) = None ->
  processMessageEvent eng cfg env event w = (Return tt, w') ->
  nextId w' = nextId w + 1
  /\ performed (FxReply (event_replyToken event) (clipTo eng 1000 askingText)) w w'
  /\ deletes w' = S (deletes w)
  /\ exists aiText w1 w2,
      store_step w w1
      /\ answerWithSensorAI eng cfg env (normalizeText eng (eventText eng event))
           (light d) (temp d) (humidity d) w1 = (Return aiText, w2)
      /\ if truthy (trim eng aiText)
         then count_fx is_push w' = S (count_fx is_push w)
              /\ performed (FxPush (source_userId event)
                              (aiAnswerText eng
                                 (normalizeText eng (eventText eng event))
                                 (trim eng aiText))) w w'
         else count_fx is_push w' = count_fx is_push w
              /\ performed (FxReply (event_replyToken event)
                              (clipTo eng 1000 emptyAnswerText)) w w'.
Proof.
  intros Hsensor Hd Hpreset Hnew Hrun.
  rewrite processMessageEvent_phases in Hrun.
  step Hrun as entry e w1 E1; [|discriminate].
  pose proof (admission_grows _ _ _ _ _ _ E1) as G1.
  pose proof (admission_store_step _ _ _ _ _ _ E1) as S1.
  pose proof (admission_of_a_new_token _ _ _ _ _ _ Hnew E1) as Hadm.
  apply admission_spec in E1 as (Hs1 & Hphase).
  destruct Hadm as [(created & [= ->])|(Habs & _)]; [|discriminate].
  destruct Hphase as (_ & _ & _ & _ & Hn).
  rewrite Hsensor in Hs1.
  pose proof (grows_count _ _ _ _ entry_fx_not_delete G1) as D1.
  pose proof (grows_count _ _ _ _ entry_fx_not_push G1) as C1.
  pose proof (respond_spec _ _ _ _ _ _ _ _ Hrun) as (Hn2 & _ & Hdel & _).
  destruct (respond_preset _ _ _ _ _ _ Hs1 Hd Hpreset Hrun)
    as (Pask & aiText & wa & wb & Sa & Hai & Hout).
  split; [lia|].
  split; [eapply performed_grows_l; [exact G1|exact Pask]|].
  split; [rewrite Hdel; unfold deletes; rewrite D1; reflexivity|].
  exists aiText, wa, wb. split; [etransitivity; eassumption|]. split; [exact Hai|].
  destruct (truthy (trim eng aiText)); destruct Hout as [Hc Hp];
    (split; [congruence|eapply performed_grows_l; [exact G1|exact Hp]]).
Qed.
End Preset.
(** ** The two endpoints *)

Section Endpoints.
Context (cfg : Config) (env : Env).

(** X23.  [askOpenAI] with an API key and a client that has the responses
    endpoint.  When the request to that endpoint fails, whatever the
    error, a status 429 included, the same prompt is sent to the chat
    endpoint at once, and what the caller gets is the outcome of that
    second request: its text, or its error, not the first one.  Only a
    client without the chat endpoint lets the first error through. *)
Theorem a_failed_request_goes_to_the_chat_endpoint prompt w :
  OPENAI_API_KEY cfg = true ->
  responsesApi cfg = true ->
  exists r w',
    askOpenAI cfg env prompt w = (r, w')
    /\ match completion env (length (log w)) with
       | Resp text =>
           r = Return (default noReplyText text)
           /\ map snd (log w') = FxCompletion Responses prompt :: map snd (log w)
       | Fail e1 =>
           if chatApi cfg
           then map snd (log w')
                = FxCompletion ChatCompletions prompt
                    :: FxCompletion Responses prompt :: map snd (log w)
                /\ r = match completion env (S (length (log w))) with
                       | Resp text => Return (default noReplyText text)
                       | Fail e2 => Throw e2
                       end
           else map snd (log w') = FxCompletion Responses prompt :: map snd (log w)
                /\ r = Throw e1
       end.
Proof.
  intros Hkey Hresp. unfold askOpenAI. rewrite Hkey, Hresp. simpl.
  unfold try_catch, create, bind, request, ret, throw.
  destruct (completion env (length (log w))) as [text|e1] eqn:H1.
  - eexists. eexists. split; [reflexivity|]. split; reflexivity.
  - destruct (chatApi cfg).
    + simpl. destruct (completion env (S (length (log w)))) as [text|e2];
        eexists; eexists; (split; [reflexivity|]); split; reflexivity.
    + eexists. eexists. split; [reflexivity|]. split; reflexivity.
Qed.
End Endpoints.

Section Throttled.
Context (cfg : Config) (env : Env).
Hypothesis key : OPENAI_API_KEY cfg = true.
Hypothesis responses : responsesApi cfg = true.
Hypothesis chat : chatApi cfg = true.
Hypothesis throttling :
  forall n, exists e, completion env n = Fail e /\ err_status e = Some 429.

Lemma askOpenAI_throttled prompt w :
  exists e w',
    askOpenAI cfg env prompt w = (Throw e, w')
    /\ err_status e = Some 429
    /\ completions w' = (completions w + 2)%nat.
Proof.
  unfold askOpenAI. rewrite key, responses, chat. simpl.
  unfold try_catch, create, bind, request, ret, throw.
  destruct (throttling (length (log w))) as (e1 & -> & _). simpl.
  destruct (throttling (S (length (log w)))) as (e2 & -> & H2).
  eexists. eexists. split; [reflexivity|]. split; [exact H2|].
  unfold completions, count_fx. simpl. lia.
Qed.

Lemma retryLoop_all_throttled prompt fuel : forall attempt w,
  Z.of_nat fuel = Z.max 0 (OPENAI_MAX_RETRIES cfg - attempt) ->
  exists e w',
    retryLoop cfg env prompt fuel attempt w = (Throw e, w')
    /\ err_status e = Some 429
    /\ completions w' = (completions w + 2 * (fuel + 1))%nat.
Proof.
  induction fuel as [|fuel IH]; intros attempt w Hfuel;
    rewrite retryLoop_unfold;
    destruct (askOpenAI_throttled prompt (beginAttempt attempt w))
      as (e & w1 & -> & Hst & Hc);
    change (completions (beginAttempt attempt w)) with (completions w) in Hc;
    apply not_throttled_false in Hst as Hnot; rewrite Hnot; simpl.
  - exists e, w1. split; [|split; [exact Hst|lia]].
    destruct (OPENAI_MAX_RETRIES cfg <=? attempt); reflexivity.
  - destruct (OPENAI_MAX_RETRIES cfg <=? attempt) eqn:Hmax;
      [apply Z.leb_le in Hmax; lia|].
    destruct (IH (attempt + 1) (afterBackoff env e (attempt + 1) w1))
      as (e' & w' & Hloop & Hst' & Hc'); [lia|].
    exists e', w'. split; [exact Hloop|]. split; [exact Hst'|].
    change (completions (afterBackoff env e (attempt + 1) w1))
      with (completions w1) in Hc'.
    lia.
Qed.

(** X24.  For an integer setting [OPENAI_MAX_RETRIES]: while the completion
    service throttles every request, a queued call on a client with both
    endpoints sends two requests at every attempt, so
    [2 * (max(0, OPENAI_MAX_RETRIES) + 1)] requests (two when the setting is
    zero or negative) before it gives up with a 429 error and leaves the
    queue rejected. *)
Theorem a_throttled_call_sends_two_requests_per_attempt prompt w :
  chain w = Fulfilled ->
  exists e w',
    safeAskOpenAI cfg env prompt w = (Throw e, w')
    /\ err_status e = Some 429
    /\ completions w'
       = (completions w + 2 * (Z.to_nat (OPENAI_MAX_RETRIES cfg) + 1))%nat
    /\ chain w' = Rejected e.
Proof.
  intros Hch. rewrite (safeAskOpenAI_unfold _ _ _ _ Hch).
  destruct (retryLoop_all_throttled prompt (Z.to_nat (OPENAI_MAX_RETRIES cfg)) 0
              (readyWorld cfg env prompt w))
    as (e & w' & -> & Hst & Hc); [lia|].
  destruct (readyWorld_counts cfg env prompt w) as (_ & Hr & _).
  exists e, (set_chain (Rejected e) w'). split; [reflexivity|].
  split; [exact Hst|]. split; [|reflexivity].
  change (completions (set_chain (Rejected e) w')) with (completions w').
  lia.
Qed.
End Throttled.
(** ** The wait of a queued call *)

Section Wait.
Context (cfg : Config) (env : Env).

Lemma readyWorld_starts prompt w :
  lastCall w <= clock w ->
  starts (readyWorld cfg env prompt w)
  = (starts w
       ++ [(if lastCall w + minGapMs cfg <=? clock w
            then clock w
            else lastCall w + minGapMs cfg + Z.of_nat (lag env (length (log w))),
            prompt)])%list.
Proof.
  intros Hpast. unfold readyWorld. pose proof (minGapMs_bounds cfg) as Hg.
  destruct (lastCall w + minGapMs cfg <=? clock w) eqn:Hlate.
  - apply Z.leb_le in Hlate.
    replace (Z.max 0 (lastCall w + minGapMs cfg - clock w)) with 0 by lia.
    simpl. apply starts_add_log.
  - apply Z.leb_gt in Hlate.
    replace (Z.max 0 (lastCall w + minGapMs cfg - clock w))
      with (lastCall w + minGapMs cfg - clock w) by lia.
    assert (Hpos : (0 <? lastCall w + minGapMs cfg - clock w) = true)
      by (apply Z.ltb_lt; lia).
    rewrite Hpos, starts_add_log.
    change (starts (snd (delay env (lastCall w + minGapMs cfg - clock w) w)))
      with (starts (add_log (FxDelay (lastCall w + minGapMs cfg - clock w)) w)).
    rewrite starts_add_log, app_nil_r. simpl.
    rewrite timerMs_exact by lia.
    do 3 f_equal. lia.
Qed.

(** X25.  When a queued call starts.  A call that arrives when the gap since
    the last answer has passed starts at once.  One that arrives earlier
    waits for the rest of the gap and no longer: it starts at
    [lastCall + minGapMs], plus what the timer is late by. *)
Theorem a_call_waits_for_the_rest_of_the_gap prompt w r w' :
  chain w = Fulfilled ->
  lastCall w <= clock w ->
  safeAskOpenAI cfg env prompt w = (r, w') ->
  starts w'
  = (starts w
       ++ [(if lastCall w + minGapMs cfg <=? clock w
            then clock w
            else lastCall w + minGapMs cfg + Z.of_nat (lag env (length (log w))),
            prompt)])%list.
Proof.
  intros Hch Hpast. rewrite (safeAskOpenAI_unfold _ _ _ _ Hch).
  destruct (retryLoop _ _ _ _ _ _) as [res w2] eqn:Hloop.
  apply retryLoop_step in Hloop as ((_ & _ & G) & _).
  pose proof (starts_grows _ _ _ loop_fx_not_start G) as Hst.
  destruct res; intros [= <- <-];
    change (starts (set_chain _ w2)) with (starts w2);
    rewrite Hst; apply readyWorld_starts, Hpast.
Qed.
End Wait.

Section Gap.
Context (cfg : Config) (env : Env).

(** X26.  What a queued call leaves behind.  When it returns, [lastCall] is
    the time its answer arrived, so the gap before the next call counts
    from the end of this one, not from its start, and the queue is
    healthy.  When it throws, [lastCall] is not moved and the queue is
    rejected with the error. *)
Theorem the_gap_counts_from_the_answer prompt w r w' :
  chain w = Fulfilled ->
  safeAskOpenAI cfg env prompt w = (r, w') ->
  match r with
  | Return _ => lastCall w' = clock w' /\ chain w' = Fulfilled
  | Throw e => lastCall w' = lastCall w /\ chain w' = Rejected e
  end.
Proof.
  intros Hch. rewrite (safeAskOpenAI_unfold _ _ _ _ Hch).
  destruct (retryLoop _ _ _ _ _ _) as [[out|err] w2] eqn:Hloop; intros [= <- <-].
  - apply retryLoop_Return in Hloop. split; [exact Hloop|reflexivity].
  - apply retryLoop_Throw in Hloop. split; [|reflexivity].
    simpl. rewrite Hloop. unfold readyWorld. destruct (0 <? _); reflexivity.
Qed.
End Gap.
(** ** The claims at concrete inputs *)

Module Witness.
Import Example.

(** C1 at a concrete input: the first call fails with status 500 on both
    endpoints; the two calls submitted afterwards are rejected with that
    error and never run, although the service would answer them. *)
Lemma failure_poisons_queue_witness :
  exists w1,
    safeAskOpenAI config downAtFirst "a" start = (Throw serverError, w1)
    /\ completion downAtFirst (length (log w1)) = Resp (Some "ok")
    /\ exists w2,
        submitAll config downAtFirst [(0%nat, "b"); (700%nat, "c")] w1
        = ([Throw serverError; Throw serverError], w2)
        /\ log w2 = log w1
        /\ chain w2 = Rejected serverError.
Proof.
  eexists. split; [vm_compute; reflexivity|]. split; [reflexivity|].
  apply (failure_poisons_queue config downAtFirst "a" start serverError).
  - reflexivity.
  - vm_compute. reflexivity.
Defined.

(** C2 at a concrete input: a reading is there, the question is one of
    the preset ones, the completion service is down.  The processor
    throws, the store was never asked to delete, the record stays. *)
Lemma pending_record_cleanup_witness :
  exists w',
    processMessageEvent engine config alwaysDown (chatEvent "T1" question)
                        withReading
    = (Throw serverError, w')
    /\ deletes w' = deletes withReading
    /\ exists created,
        In created (pendingReplies w')
        /\ replyToken created = "T1"
        /\ id created = nextId withReading.
Proof.
  eexists. split; [vm_compute; reflexivity|].
  apply (pending_record_cleanup engine config alwaysDown (chatEvent "T1" question)
           withReading (Throw serverError)).
  - vm_compute. reflexivity.
  - reflexivity.
Defined.

(** C3, the claim as stated fails: with no API key configured the
    orchestrator returns the notice of [askOpenAI] and stores it in the
    cache, although no request was ever sent to the completion service. *)
Lemma notice_is_cached_without_any_request :
  let run := answerWithSensorAI engine configNoKey working question
               (light reading) (temp reading) (humidity reading) start in
  fst run = Return noKeyText
  /\ val <$> (aiCache (snd run)
               !! cacheKey engine question (light reading) (temp reading)
                    (humidity reading))
     = Some noKeyText
  /\ completions (snd run) = 0%nat.
Proof. vm_compute. repeat split. Qed.

(** C3 at a concrete input: the service is down, the orchestrator throws
    its error and the cache stays empty. *)
Lemma failure_propagates_witness :
  exists w',
    answerWithSensorAI engine config alwaysDown question
      (light reading) (temp reading) (humidity reading) start
    = (Throw serverError, w')
    /\ aiCache w' = ∅.
Proof.
  destruct (failure_propagates_and_cache_provenance engine config alwaysDown
              question (light reading) (temp reading) (humidity reading) start)
    as (Hfail & _ & _).
  eexists. split.
  - eapply (Hfail None start).
    + reflexivity.
    + left. reflexivity.
    + vm_compute. reflexivity.
  - reflexivity.
Defined.

(** C4, the claim as stated fails: at a rate of zero the gap is not
    [ceil(60000 / 0)], which no number of milliseconds is ([60000 <= g * 0]
    holds for no [g]), but one minute, the gap of a rate of one: the two
    calls of a burst start 60010 ms apart. *)
Lemma a_rate_of_zero_is_clamped :
  let run := submitAll configRateZero working [(0%nat, "a"); (0%nat, "b")] start in
  minGapMs configRateZero = 60000
  /\ ~ (60000 <= minGapMs configRateZero * OPENAI_RPM configRateZero)
  /\ starts (snd run) = [(1700000000000, "a"); (1700000060010, "b")].
Proof.
  cbv zeta. split; [reflexivity|]. split; [simpl; lia|]. vm_compute. reflexivity.
Qed.

(** C4 at a concrete input: a burst of two calls and a third one 7 ms
    later, at two requests a minute. *)
Lemma rate_limiter_witness :
  let calls := [(0%nat, "a"); (0%nat, "b"); (7%nat, "c")] in
  let run := submitAll config working calls start in
  minGapMs config = 30000
  /\ map snd (starts (snd run)) = ["a"; "b"; "c"]
  /\ spaced 30000 (starts (snd run)).
Proof.
  cbv zeta.
  destruct (rate_limiter_order_and_spacing config working
              [(0%nat, "a"); (0%nat, "b"); (7%nat, "c")] start
              (fst (submitAll config working
                      [(0%nat, "a"); (0%nat, "b"); (7%nat, "c")] start))
              (snd (submitAll config working
                      [(0%nat, "a"); (0%nat, "b"); (7%nat, "c")] start)))
    as (_ & _ & _ & _ & Hsp).
  - reflexivity.
  - simpl. lia.
  - apply surjective_pairing.
  - split; [reflexivity|]. split; [vm_compute; reflexivity|exact Hsp].
Defined.

(** C5 at concrete inputs: two throttled attempts and a success; a
    status 500; a service that always throttles (three retries, so four
    attempts). *)
Lemma retry_policy_witness :
  (exists w3,
      retryLoop config twiceThrottled "p" 3 0 start = (Return "ok", w3)
      /\ attempts w3 = 3%nat)
  /\ (exists w1,
         retryLoop config alwaysDown "p" 3 0 start = (Throw serverError, w1)
         /\ attempts w1 = 1%nat)
  /\ (exists wl e w',
         askOpenAI config alwaysThrottled "p" wl = (Throw e, w')
         /\ err_status e = Some 429
         /\ (exists rest, log wl = (clock wl, FxAttempt 3) :: rest)
         /\ retryLoop config alwaysThrottled "p" 3 0 start = (Throw e, w')
         /\ attempts w' = 4%nat).
Proof.
  split; [|split].
  - destruct (retry_policy config twiceThrottled "p" start) as (Hretry & _ & _).
    eexists. eapply Hretry.
    + simpl. lia.
    + vm_compute. reflexivity.
    + reflexivity.
    + vm_compute. reflexivity.
    + reflexivity.
    + vm_compute. reflexivity.
  - destruct (retry_policy config alwaysDown "p" start) as (_ & Hother & _).
    eexists. eapply Hother.
    + vm_compute. reflexivity.
    + discriminate.
  - destruct (retry_policy config alwaysThrottled "p" start) as (_ & _ & Hexhaust).
    apply Hexhaust. intros w. eexists. eexists. split; reflexivity.
Defined.

(** C6, the claim as stated fails, twice.  The first call gets an empty
    text from the service and caches it; the same call made right after,
    well within the TTL, sends a second request.  And two questions that
    differ in their spacing only, so that they are the same once
    normalized, have different fingerprints: the second one is sent to the
    service although the answer to the first is cached. *)
Lemma empty_answer_is_requested_again :
  let first := answerWithSensorAI engine config emptyAnswers question
                 (light reading) (temp reading) (humidity reading) start in
  let second := answerWithSensorAI engine config emptyAnswers question
                  (light reading) (temp reading) (humidity reading) (snd first) in
  let spaced1 := answerWithSensorAI engine config working "is it  dry"
                   (light reading) (temp reading) (humidity reading) start in
  let spaced2 := answerWithSensorAI engine config working "is it dry"
                   (light reading) (temp reading) (humidity reading) (snd spaced1) in
  (fst first = Return EmptyString
   /\ val <$> (aiCache (snd first)
                !! cacheKey engine question (light reading) (temp reading)
                     (humidity reading))
      = Some EmptyString
   /\ clock (snd second) - clock (snd first) <= CACHE_TTL_MS config
   /\ completions (snd first) = 1%nat
   /\ completions (snd second) = 2%nat)
  /\ (normalizeText engine "is it  dry" = normalizeText engine "is it dry"
      /\ fst spaced1 = Return "dry it"
      /\ clock (snd spaced2) - clock (snd spaced1) <= CACHE_TTL_MS config
      /\ completions (snd spaced1) = 1%nat
      /\ completions (snd spaced2) = 2%nat).
Proof. vm_compute. repeat split; discriminate. Qed.

(** C6 at a concrete input: the answer of the first call is served to a
    second call whose readings differ but round to the same integers, one
    minute later. *)
Lemma cached_answer_witness :
  exists w1,
    answerWithSensorAI engine config working question
      (light reading) (temp reading) (humidity reading) start
    = (Return "dry it", w1)
    /\ answerWithSensorAI engine config working question
         (JNumber (Fin (200001 # 10))) (JNumber (Fin (319 # 10))) (JString "55")
         (set_clock (clock w1 + 60000) w1)
       = (Return "dry it", set_clock (clock w1 + 60000) w1).
Proof.
  eexists. split; [vm_compute; reflexivity|].
  destruct (cached_answer_is_reused engine config working question
              (light reading) (temp reading) (humidity reading) start "dry it" _
              ltac:(vm_compute; reflexivity) ltac:(discriminate))
    as (entry & Hentry & Hval & Hhit & _).
  apply Hhit.
  - vm_compute. repeat split.
  - exact Hentry.
  - vm_compute in Hentry. injection Hentry as <-. vm_compute. discriminate.
Defined.

(** C7 at a concrete input: the token T1 has a pending record. *)
Lemma duplicate_delivery_witness :
  (exists w',
      processMessageEvent engine config working (chatEvent "T1" question)
                          withPending
      = (Return tt, w')
      /\ skipped withPending w')
  /\ (exists w',
         IndexTs.webhookEvent engine config working (chatEvent "T1" question)
                              withPending
         = (Return tt, w')
         /\ skipped withPending w').
Proof.
  destruct (duplicate_delivery_is_skipped engine config working
              (chatEvent "T1" question) withPending) as (Hskip & _).
  destruct Hskip as (Hjs & Hts); [discriminate|].
  split.
  - eexists. split; [vm_compute; reflexivity|].
    eapply Hjs. vm_compute. reflexivity.
  - eexists. split; [vm_compute; reflexivity|].
    eapply Hts. vm_compute. reflexivity.
Defined.


(** C8 while the store cannot be reached: the handler throws at its first
    request to the store; nothing is replied, nothing is asked and no
    record is created. *)
Lemma no_reading_while_the_store_is_down :
  let run := processMessageEvent engine config storeIsDown
               (chatEvent "T1" question) start in
  fst run = Throw (StoreError "unreachable")
  /\ log (snd run) = [(1700000000000, FxUserFind "U1")]
  /\ pendingReplies (snd run) = []
  /\ completions (snd run) = 0%nat.
Proof. vm_compute. repeat split. Qed.



(** C10, the claim as stated fails on [src/index.js]: its sensor route
    stores a text as it is, not the [Number] coercion of it, which is what
    [backend/src/index.ts] stores.  And it fails on [backend/src/index.ts]
    for a body whose light is an object that does not convert: the three
    fields are there, yet the handler throws and stores nothing. *)
Lemma js_route_stores_values_as_received :
  (reading_light <$> lastSensorData (snd (postSensorData notANumber start))
   = Some (Plain (JString "abc"))
   /\ reading_light
        <$> lastSensorData (snd (IndexTs.postSensorData engine notANumber start))
      = Some (Plain (JNumber NaN))
   /\ JString "abc" <> JNumber (Number engine (JString "abc")))
  /\ (missing_field notConvertible = false
      /\ IndexTs.postSensorData engine notConvertible start
         = (Throw TypeError, start)).
Proof. repeat split. discriminate. Qed.

(** *** The further properties at concrete inputs *)

(** A text in place of a number is reported as the lowest band of each
    status. *)
Lemma status_of_a_text_reading :
  getLightStatus engine (JString "abc") = "มืดมากๆ 🕳️"
  /\ getTempStatus engine (JString "abc") = "อุณหูมิเย็น ❄️"
  /\ getHumidityStatus engine (JString "abc") = "อากาศแห้งมาก 🏜️".
Proof.
  apply (status_of_a_reading_that_is_no_number engine (JString "abc")).
  left. reflexivity.
Defined.

(** 35 degrees is hot, not very hot. *)
Lemma temperature_at_35_degrees :
  getTempStatus engine (JNumber (Fin 35)) = "อุณหภูมิร้อน 🔥".
Proof.
  destruct (temperature_bands engine (JNumber (Fin 35)) 35 eq_refl)
    as (_ & Hhot & _).
  apply Hhot. split; lra.
Defined.

(** 50000 lux is in the second band of the light, 20 percent in the lowest
    band of the humidity. *)
Lemma light_at_50000_lux :
  getLightStatus engine (JNumber (Fin 50000)) = "สว่างมาก🌤"
  /\ getHumidityStatus engine (JNumber (Fin 20)) = "อากาศแห้งมาก 🏜️".
Proof.
  split.
  - destruct (light_and_humidity_bands engine (JNumber (Fin 50000)) 50000 eq_refl)
      as ((_ & Hsecond & _) & _).
    apply Hsecond. split; lra.
  - destruct (light_and_humidity_bands engine (JNumber (Fin 20)) 20 eq_refl)
      as (_ & (_ & _ & _ & _ & _ & _ & Hdry)).
    apply Hdry. lra.
Defined.

(** The back-off before the third and the fifth retry without a hint, and
    with a hint of zero. *)
Lemma backoff_at_retries_3_and_5 :
  backoffMs throttled 3 400 = 8400
  /\ backoffMs throttled 5 400 = 30000
  /\ backoffMs (ApiError (Some 429) (Some 0)) 3 400 = 0
  /\ timerMs (backoffMs (ApiError (Some 429) (Some 0)) 3 400) = 1.
Proof.
  destruct (backoff_schedule throttled 3 400 ltac:(lia)) as (_ & Hnone).
  destruct (Hnone eq_refl) as (Hlow & _).
  destruct (backoff_schedule throttled 5 400 ltac:(lia)) as (_ & Hnone5).
  destruct (Hnone5 eq_refl) as (_ & Hhigh).
  destruct (backoff_schedule (ApiError (Some 429) (Some 0)) 3 400 ltac:(lia))
    as (Hhint & _).
  destruct (Hhint 0 eq_refl) as (Hzero & Htimer).
  split; [apply Hlow; lia|]. split; [apply Hhigh; lia|].
  split; [exact Hzero|apply Htimer; lia].
Defined.

(** A [retry-after-ms] header that holds the plain number 1500 gives a
    hint of 1500 seconds. *)
Lemma retry_after_ms_without_unit :
  Headers.parseRetryAfterMs engine times
    (Some {["retry-after-ms" := JString "1500"]})
  = Some (Fin 1500000).
Proof.
  destruct (retry_hint_unit_is_in_the_value engine times ∅ (JString "1500"))
    as (_ & _ & _ & Hseconds).
  rewrite (Hseconds "1500" (inject_Z 1500)); reflexivity.
Defined.

(** A service without the two headers gives no hint. *)
Lemma retry_hint_of_other_headers :
  Headers.parseRetryAfterMs engine times
    (Some {["content-type" := JString "application/json"]})
  = None.
Proof.
  destruct (retry_hint_absent_or_usable engine times
              {["content-type" := JString "application/json"]})
    as (_ & Hnone & _).
  apply Hnone; reflexivity.
Defined.

(** A call that is throttled throughout, with three retries configured. *)
Lemma a_queued_call_is_bounded_witness :
  (attempts (snd (safeAskOpenAI config alwaysThrottled "p" start)) <= 4)%nat
  /\ (completions (snd (safeAskOpenAI config alwaysThrottled "p" start))
      <= 2 * (attempts (snd (safeAskOpenAI config alwaysThrottled "p" start)) - 0))%nat
  /\ (count_fx is_start (snd (safeAskOpenAI config alwaysThrottled "p" start)) <= 1)%nat.
Proof.
  apply (a_queued_call_is_bounded config alwaysThrottled "p" start
           (fst (safeAskOpenAI config alwaysThrottled "p" start))).
  apply surjective_pairing.
Defined.

(** Without an API key the question gets the notice, which is cached, and
    nothing is sent. *)
Lemma without_a_key_witness :
  exists w',
    answerWithSensorAI engine configNoKey working question
      (light reading) (temp reading) (humidity reading) start
    = (Return noKeyText, w')
    /\ completions w' = 0%nat
    /\ aiCache w'
         !! cacheKey engine question (light reading) (temp reading)
              (humidity reading)
       = Some {| t := clock w'; val := noKeyText |}.
Proof.
  eexists. split; [vm_compute; reflexivity|].
  destruct (without_a_key_nothing_is_sent engine configNoKey working question
              (light reading) (temp reading) (humidity reading) start
              _ _ eq_refl ltac:(vm_compute; reflexivity))
    as (Hsent & Hmiss).
  destruct (Hmiss eq_refl eq_refl) as (_ & Hcached & _).
  split; [exact Hsent|exact Hcached].
Defined.

(** An answer about one reading leaves the entry of another question
    alone. *)
Lemma an_answer_touches_only_its_entry_witness :
  aiCache (snd (answerWithSensorAI engine config working greeting
                  (light reading) (temp reading) (humidity reading)
                  withEmptyCached))
    !! cacheKey engine question (light reading) (temp reading) (humidity reading)
  = Some {| t := 1700000000000; val := EmptyString |}.
Proof.
  rewrite (an_answer_touches_only_its_entry engine config working greeting
             (light reading) (temp reading) (humidity reading) withEmptyCached
             _ _ (surjective_pairing _)).
  - reflexivity.
  - vm_compute. discriminate.
Defined.

(** A greeting, while a reading is there: the reply carries the readings,
    the record is deleted, nothing is asked. *)
Lemma a_greeting_gets_the_readings :
  exists w',
    processMessageEvent engine config working (chatEvent "T1" greeting) withReading
    = (Return tt, w')
    /\ performed (FxReply "T1" (clipTo engine 1000 (shortMsg engine reading)))
                 withReading w'
    /\ deletes w' = 1%nat
    /\ completions w' = 0%nat
    /\ aiCache w' = ∅.
Proof.
  eexists. split; [vm_compute; reflexivity|].
  destruct (other_messages_get_the_readings_only engine config working
              (chatEvent "T1" greeting) (plainReading reading) reading withReading
              (Return tt) _
              eq_refl eq_refl ltac:(vm_compute; reflexivity) eq_refl
              ltac:(vm_compute; reflexivity))
    as ((_ & (_ & _ & Hcompl) & Hcache & _)
        & [(_ & _ & Hreply & Hdel)|(Habs & _)]).
  - split; [exact Hreply|]. split; [exact Hdel|]. split; [exact Hcompl|exact Hcache].
  - discriminate Habs.
Defined.

(** The event of user U1 with token T1 causes nothing that names another
    user, another token or another record. *)
Lemma an_event_concerns_its_sender_only_witness :
  grows (about_event (chatEvent "T1" question) 1) withReading
        (snd (processMessageEvent engine config working (chatEvent "T1" question)
                withReading)).
Proof.
  apply (an_event_concerns_its_sender_only engine config working
           (chatEvent "T1" question) withReading
           (fst (processMessageEvent engine config working (chatEvent "T1" question)
                   withReading))).
  apply surjective_pairing.
Defined.

(** The first event of a user registers the user. *)
Lemma the_sender_is_registered_once_witness :
  users (snd (processMessageEvent engine config working (chatEvent "T1" question)
                withReading))
  = ["U1"].
Proof.
  destruct (the_sender_is_registered_once engine config working
              (chatEvent "T1" question) withReading _ _
              ltac:(apply List.NoDup_nil) (surjective_pairing _))
    as (_ & [Hsame|[_ Hadded]] & _).
  - vm_compute. reflexivity.
  - exact Hadded.
Defined.

(** A text message without text: the processor throws a TypeError and
    nothing has happened. *)
Lemma errors_of_the_event_processor_witness :
  Inbound.processMessageEvent engine config working eventWithoutText withReading
  = (Throw TypeError, withReading)
  /\ Inbound.in_type eventWithoutText = Some "text".
Proof.
  split; [vm_compute; reflexivity|].
  destruct (errors_of_the_event_processor engine config working
              eventWithoutText withReading TypeError withReading
              ltac:(vm_compute; reflexivity))
    as [(_ & _ & Htype & _)|[(_ & _ & _ & (new & Hlog & _))|(Hn & _)]].
  - exact Htype.
  - reflexivity.
  - reflexivity.
Defined.

(** The ask route with a question and the reading of the server: the
    answer of the orchestrator. *)
Lemma the_ask_route_always_answers_witness :
  exists w',
    askAi engine config working askBody withReading
    = (Return (AskOk "dry it" (Some "openai")), w')
    /\ lastSensorData w' = Some (plainReading reading)
    /\ users w' = []
    /\ pendingReplies w' = [].
Proof.
  eexists. split; [vm_compute; reflexivity|].
  destruct (the_ask_route_always_answers engine config working askBody withReading
              _ _ ltac:(vm_compute; reflexivity))
    as (_ & Hsensor & Husers & Hpending).
  split; [exact Hsensor|]. split; [exact Husers|exact Hpending].
Defined.

(** The ask route after the sensor route stored a light that does not
    convert: status 500, with the TypeError for its detail, when the body
    has no readings; a body with its own readings is answered. *)
Lemma the_ask_route_on_a_reading_that_does_not_convert :
  (fst (askAi engine config working askBody withOpaqueReading)
   = Return (AskError 500 "ask-ai failed" (Some TypeError))
   /\ completions (snd (askAi engine config working askBody withOpaqueReading))
      = 0%nat)
  /\ fst (askAi engine config working askBodyWithReadings withOpaqueReading)
     = Return (AskOk "dry it" (Some "openai")).
Proof. vm_compute. repeat split. Qed.

(** The ask route after a queued call failed, although the completion
    service works again: the summary, and nothing is sent. *)
Lemma the_ask_route_after_a_failed_call_witness :
  askAi engine config working askBody afterFailure
  = (Return (AskOk (fallbackText engine (light reading) (temp reading)
                      (humidity reading))
                   (Some "fallback")),
     add_log (FxError "OpenAI error") afterFailure)
  /\ completions (add_log (FxError "OpenAI error") afterFailure) = 0%nat.
Proof.
  split; [|reflexivity].
  apply (the_ask_route_after_a_failed_call engine config working askBody question
           (light reading) (temp reading) (humidity reading) serverError afterFailure).
  - reflexivity.
  - reflexivity.
  - discriminate.
  - reflexivity.
  - reflexivity.
Defined.

(** The ask route of [backend/src/index.ts] while the completion service
    is down: status 500 after one request. *)
Lemma the_ask_route_of_index_ts_witness :
  exists w',
    IndexTs.askAi engine config alwaysDown (Plain (JString question)) withReading
    = (Return (AskError 500 "ask-ai failed" None), w')
    /\ completions w' = 1%nat.
Proof.
  eexists. split; [vm_compute; reflexivity|].
  destruct (the_ask_route_of_index_ts engine config alwaysDown
              (Plain (JString question)) withReading _ _
              ltac:(vm_compute; reflexivity))
    as (_ & _ & Hasked & _).
  destruct (Hasked (plainReading reading) reading (JString question)
              eq_refl eq_refl eq_refl eq_refl eq_refl) as (Hone & _).
  exact Hone.
Defined.

(** [replyToUserAndDelete] while LINE cannot be reached: the pending
    record stays and the store is not asked. *)
Lemma the_record_stays_when_line_is_down :
  exists w',
    IndexTs.replyToUserAndDelete engine config lineIsDown 1 "T1" noSensorText
                                 withReadingAndPending
    = (Return tt, w')
    /\ deletes w' = 0%nat
    /\ pendingReplies w' = pendingReplies withReadingAndPending.
Proof.
  eexists. split; [vm_compute; reflexivity|].
  destruct (the_record_goes_only_after_the_reply engine config lineIsDown 1 "T1"
              noSensorText withReadingAndPending _ _
              ltac:(vm_compute; reflexivity))
    as (_ & _ & [[Hdel Hrec]|(_ & _ & Habs & _)] & _).
  - split; [exact Hdel|exact Hrec].
  - vm_compute in Habs. discriminate.
Defined.

(** Two calls that get the same fingerprint ask the same question about
    readings that round alike. *)
Lemma fingerprints_do_not_collide_witness :
  roundedText engine (JNumber (Fin (200004 # 10)))
  = roundedText engine (JNumber (Fin 20000)).
Proof.
  destruct (fingerprints_do_not_collide engine
              question (JNumber (Fin (200004 # 10))) (temp reading) (humidity reading)
              question (JNumber (Fin 20000)) (temp reading) (humidity reading)
              ltac:(vm_compute; reflexivity) ltac:(vm_compute; reflexivity))
    as (_ & Hlight & _).
  exact Hlight.
Defined.

(** A preset question while everything works: the answer is pushed. *)
Lemma a_preset_question_is_answered_witness :
  exists w',
    processMessageEvent engine config working (chatEvent "T1" question) withReading
    = (Return tt, w')
    /\ performed (FxReply "T1" (clipTo engine 1000 askingText)) withReading w'
    /\ deletes w' = 1%nat.
Proof.
  eexists. split; [vm_compute; reflexivity|].
  destruct (a_preset_question_is_answered engine config working
              (chatEvent "T1" question) (plainReading reading) reading withReading _
              eq_refl eq_refl ltac:(vm_compute; reflexivity) eq_refl
              ltac:(vm_compute; reflexivity))
    as (_ & Hasking & Hdel & _).
  split; [exact Hasking|exact Hdel].
Defined.

(** The first request is throttled: the chat endpoint answers at once. *)
Lemma a_failed_request_goes_to_the_chat_endpoint_witness :
  exists w',
    askOpenAI config throttledOnce "p" start = (Return "ok", w')
    /\ map snd (log w')
       = [FxCompletion ChatCompletions "p"; FxCompletion Responses "p"].
Proof.
  destruct (a_failed_request_goes_to_the_chat_endpoint config throttledOnce "p" start
              eq_refl eq_refl)
    as (r & w' & Hrun & Hlog & Hr).
  exists w'. split; [rewrite Hrun, Hr; reflexivity|exact Hlog].
Defined.

(** A call that is throttled throughout, with three retries configured,
    sends eight requests. *)
Lemma a_throttled_call_sends_eight_requests :
  exists e w',
    safeAskOpenAI config alwaysThrottled "p" start = (Throw e, w')
    /\ err_status e = Some 429
    /\ completions w' = 8%nat
    /\ chain w' = Rejected e.
Proof.
  apply (a_throttled_call_sends_two_requests_per_attempt config alwaysThrottled
           eq_refl eq_refl eq_refl).
  - intros n. exists throttled. split; reflexivity.
  - reflexivity.
Defined.

(** A second call submitted 7 ms after the answer to the first, at two
    requests a minute: it starts 30 seconds after that answer, plus the 5
    ms the timer is late by. *)
Lemma a_call_waits_for_the_rest_of_the_gap_witness :
  let w1 := snd (safeAskOpenAI config working "a" start) in
  let w2 := set_clock (clock w1 + 7) w1 in
  lastCall w1 = 1700000000005
  /\ starts (snd (safeAskOpenAI config working "b" w2))
     = [(1700000000000, "a"); (1700000030010, "b")].
Proof.
  cbv zeta. split; [reflexivity|].
  rewrite (a_call_waits_for_the_rest_of_the_gap config working "b"
             (set_clock (clock (snd (safeAskOpenAI config working "a" start)) + 7)
                        (snd (safeAskOpenAI config working "a" start)))
             _ _ eq_refl ltac:(vm_compute; discriminate) (surjective_pairing _)).
  vm_compute. reflexivity.
Defined.

(** A call that is answered leaves [lastCall] at the time of the answer,
    5 ms after it started. *)
Lemma the_gap_counts_from_the_answer_witness :
  lastCall (snd (safeAskOpenAI config working "a" start)) = 1700000000005
  /\ chain (snd (safeAskOpenAI config working "a" start)) = Fulfilled.
Proof.
  pose proof (the_gap_counts_from_the_answer config working "a" start _ _
                eq_refl (surjective_pairing _)) as H.
  change (fst (safeAskOpenAI config working "a" start)) with (@Return string "dry it")
    in H.
  destruct H as [Hlast Hchain]. split; [|exact Hchain].
  rewrite Hlast. reflexivity.
Defined.

(** After the sensor route stored a light that does not convert, a preset
    question gets no reply: the processor throws and the record stays. *)
Lemma a_reading_that_does_not_convert_witness :
  exists w',
    processMessageEvent engine config working (chatEvent "T1" question)
                        withOpaqueReading
    = (Throw TypeError, w')
    /\ count_fx is_reply w' = 0%nat
    /\ nextId w' = 2.
Proof.
  eexists. split; [vm_compute; reflexivity|].
  destruct (a_reading_that_does_not_convert_stops_the_processor engine config
              working (chatEvent "T1" question) (received notConvertible)
              withOpaqueReading _ _ eq_refl eq_refl eq_refl
              ltac:(vm_compute; reflexivity))
    as ((Hreply & _) & [(_ & Hn & _)|(Habs & _)]).
  - split; [exact Hreply|exact Hn].
  - discriminate Habs.
Defined.
End Witness.
